(** * Verification of the multi-agent marketplace core

    A shallow embedding of the marketplace protocol, the agents'
    bookkeeping, the analytics and audit engines and the database
    converter, with the properties of the specification stated and
    proved over it.

    Conventions of the embedding:
    - Python [str] values that are only compared for equality or used as
      dictionary keys are Rocq [string]s; where the code iterates over the
      characters of a string (the edit distance) the development is generic
      in the character type.
    - Python [int] values are [Z] (or [nat] where the code only counts).
    - A Python [float] is represented by its exact value, a rational [Q].
      Where the code's result depends on the rounding of floating-point
      arithmetic (the price checks and the customer utility) the operations
      are those of [PyFloat], which round to binary64 as the machine does;
      the totals that are only compared with each other or added up for a
      report (menu prices, revenues) are exact sums.
    - A [dict] is a [gmap], a [set] is a [gset] or, where the code iterates
      over it, an arbitrary duplicate-free enumeration of its elements.
    - [async] functions that contain no suspension point between their
      reads and writes are modelled as plain state transformers. *)

From Stdlib Require Import ZArith QArith Qround Qabs Qpower Ascii String List Permutation Sorted Lia.
From stdpp Require Import base gmap sets list strings sorting.

Local Open Scope nat_scope.

(** ** Edit distance ([run_analytics.py], [levenshtein_distance]) *)

Module Levenshtein.

Section Generic.
Context {A : Type} `{EqDecision A}.

(** [c1 != c2] used as an integer. *)
Definition neq_cost (c1 c2 : A) : nat := if decide (c1 = c2) then 0 else 1.

(** The body of the inner [for j, c2 in enumerate(s2)] loop.  [prev] is
    [previous_row[j:]] and [cur_j] is [current_row[j]]; the result is
    [current_row[j+1:]]. *)
Fixpoint inner_row (c1 : A) (s2 : list A) (prev : list nat) (cur_j : nat)
  : list nat :=
  match s2, prev with
  | c2 :: s2', pj :: ((pj1 :: _) as prev') =>
      let insertions := pj1 + 1 in
      let deletions := cur_j + 1 in
      let substitutions := pj + neq_cost c1 c2 in
      let v := Nat.min insertions (Nat.min deletions substitutions) in
      v :: inner_row c1 s2' prev' v
  | _, _ => []
  end.

(** One iteration of the outer loop: [current_row = [i + 1]] followed by
    the inner loop. *)
Definition next_row (c1 : A) (s2 : list A) (prev : list nat) (i : nat)
  : list nat :=
  (i + 1) :: inner_row c1 s2 prev (i + 1).

(** [for i, c1 in enumerate(s1)] *)
Fixpoint outer_loop (s1 s2 : list A) (i : nat) (prev : list nat) : list nat :=
  match s1 with
  | [] => prev
  | c1 :: s1' => outer_loop s1' s2 (S i) (next_row c1 s2 prev i)
  end.

(** The function after the length test: here [length s2 <= length s1]. *)
Definition levenshtein_rows (s1 s2 : list A) : nat :=
  if Nat.eqb (length s2) 0 then length s1
  else List.last (outer_loop s1 s2 0 (seq 0 (length s2 + 1))) 0.

(** [levenshtein_distance]: the recursive call swaps the arguments once. *)
Definition levenshtein_distance (s1 s2 : list A) : nat :=
  if Nat.ltb (length s1) (length s2)
  then levenshtein_rows s2 s1
  else levenshtein_rows s1 s2.

(** *** The textbook recurrence *)

Fixpoint lev (s : list A) : list A → nat :=
  fix lev_s (t : list A) : nat :=
    match s, t with
    | [], _ => length t
    | _, [] => length s
    | a :: s', b :: t' =>
        Nat.min (lev s' t + 1)
                (Nat.min (lev_s t' + 1) (lev s' t' + neq_cost a b))
    end.

(** *** Edit scripts: single-character operations on a string *)

Inductive edit_step : list A → list A → Prop :=
| edit_insert pre c post : edit_step (pre ++ post) (pre ++ c :: post)
| edit_delete pre c post : edit_step (pre ++ c :: post) (pre ++ post)
| edit_subst pre c d post : edit_step (pre ++ c :: post) (pre ++ d :: post).

(** [edits n s t]: [t] is obtained from [s] by [n] single-character
    operations. *)
Inductive edits : nat → list A → list A → Prop :=
| edits_refl s : edits 0 s s
| edits_cons n s t u : edit_step s t → edits n t u → edits (S n) s u.

(** All prefixes of a list, shortest first. *)
Fixpoint prefixes (l : list A) : list (list A) :=
  match l with
  | [] => [[]]
  | b :: t => [] :: List.map (cons b) (prefixes t)
  end.

End Generic.

End Levenshtein.

(** ** Messages ([marketplace/actions/messaging.py]) *)

Module Messaging.

(** [OrderItem]; the field [id] is [oi_id] here. *)
Record OrderItem := {
  oi_id : string;
  item_name : string;
  quantity : Z;
  unit_price : Q
}.

Record TextMessage := { content : string }.

(** [OrderProposal]; the field [id] is [op_id] here. *)
Record OrderProposal := {
  op_id : string;
  items : list OrderItem;
  total_price : Q;
  special_instructions : option string;
  estimated_delivery : option string;
  expiry_time : option string
}.

Record Payment := {
  proposal_message_id : string;
  payment_method : option string;
  delivery_address : option string;
  payment_message : option string
}.

(** [Message = TextMessage | OrderProposal | Payment], discriminated by
    its [type] field. *)
Inductive Message :=
| MsgText (m : TextMessage)
| MsgOrderProposal (p : OrderProposal)
| MsgPayment (p : Payment).

(** A payment that only names the proposal it accepts. *)
Definition pay (proposal_id : string) : Payment :=
  {| proposal_message_id := proposal_id; payment_method := None;
     delivery_address := None; payment_message := None |}.

End Messaging.

(** ** Orders used by [sorted] and [list.sort] *)

Module PyOrder.

(** Python compares tuples lexicographically: the first components decide
    unless they are equal. *)
Definition lex_le {A B} (RA : relation A) (RB : relation B)
  : relation (A * B) :=
  λ x y, (x.1 ≠ y.1 ∧ RA x.1 y.1) ∨ (x.1 = y.1 ∧ RB x.2 y.2).

#[export] Instance lex_le_dec {A B} (RA : relation A) (RB : relation B)
  `{EqDecision A, RelDecision A A RA, RelDecision B B RB} :
  RelDecision (lex_le RA RB).
Proof. intros x y. unfold lex_le. apply _. Defined.

(** Stable insertion sort by an integer key, for [l.sort(key=...)]: an
    element is placed before the first element whose key is not smaller, so
    elements with equal keys keep their order. *)
Fixpoint insert_by_key {A} (key : A → Z) (x : A) (l : list A) : list A :=
  match l with
  | [] => [x]
  | y :: l' =>
      if (key x <=? key y)%Z then x :: l else y :: insert_by_key key x l'
  end.

Definition sort_by_key {A} (key : A → Z) (l : list A) : list A :=
  foldr (insert_by_key key) [] l.

(** The keys never decrease along the list. *)
Definition key_sorted {A} (key : A → Z) (l : list A) : Prop :=
  StronglySorted (λ x y, (key x ≤ key y)%Z) l.

(** [str.lower] restricted to ASCII letters, used where a concrete
    lower-casing function is needed. *)
Definition ascii_lower (c : ascii) : ascii :=
  let n := nat_of_ascii c in
  if (65 <=? n) && (n <=? 90) then ascii_of_nat (n + 32) else c.

Fixpoint lower_ascii (s : string) : string :=
  match s with
  | EmptyString => EmptyString
  | String c s' => String (ascii_lower c) (lower_ascii s')
  end.

(** [round(x, 2)] on an exact rational: round half to even at the second
    decimal. *)
Definition round_half_even (q : Q) : Z :=
  let f := Qfloor q in
  match Qcompare (q - inject_Z f) (1 # 2) with
  | Lt => f
  | Gt => (f + 1)%Z
  | Eq => if Z.even f then f else (f + 1)%Z
  end.

Definition round2 (q : Q) : Q :=
  (inject_Z (round_half_even (q * 100)) / 100)%Q.

(** [sum(values)]: Python adds from the left, starting at [0]. *)
Definition Qsum (l : list Q) : Q := fold_left Qplus l 0%Q.

(** [needle in haystack] for strings. *)
Fixpoint is_substring (needle haystack : string) : bool :=
  String.prefix needle haystack ||
  match haystack with
  | EmptyString => false
  | String _ h' => is_substring needle h'
  end.

End PyOrder.

(** ** Floating-point arithmetic of Python's [float] *)

Module PyFloat.
Import PyOrder.

(** A [float] is an IEEE 754 binary64: 53 significant bits, the last place
    of a subnormal at [2 ^ -1074].  A finite float is represented by its
    exact value; an arithmetic operation is the exact operation followed
    by rounding to the nearest float, ties to the even significand.
    Infinities and NaN are not represented: a result beyond the largest
    float (about 1.8e308) stays finite here. *)

(** For [x] other than [0], the exponent [e] with
    [2 ^ (e - 1) <= |x| < 2 ^ e]. *)
Definition mag (x : Q) : Z :=
  let e := (Z.log2 (Z.abs (Qnum x)) - Z.log2 (Zpos (Qden x)))%Z in
  if Qle_bool (2 ^ e) (Qabs x) then (e + 1)%Z else e.

(** The exponent of the last place of the floats around [x]. *)
Definition ulp_exponent (x : Q) : Z := Z.max (mag x - 53) (-1074).

(** The float nearest to [x]. *)
Definition rnd (x : Q) : Q :=
  let e := ulp_exponent x in
  (inject_Z (round_half_even (x / 2 ^ e)) * 2 ^ e)%Q.

(** [x + y], [x - y], [x * y] on floats, [float(n)] for an [int] operand
    of mixed arithmetic, and a decimal literal such as [0.01]. *)
Definition add (x y : Q) : Q := rnd (x + y).
Definition sub (x y : Q) : Q := rnd (x - y).
Definition mul (x y : Q) : Q := rnd (x * y).
Definition of_int (n : Z) : Q := rnd (inject_Z n).
Definition literal (decimal : Q) : Q := rnd decimal.

(** [round(x, ndigits)]: the exact value of [x] is rounded half to even at
    the digit, and the decimal number obtained is converted back to the
    nearest float. *)
Definition round (x : Q) (ndigits : Z) : Q :=
  rnd (inject_Z (round_half_even (x * 10 ^ ndigits)) / 10 ^ ndigits).

(** The builtin [sum] over floats as CPython evaluates it up to version
    3.11: addition from the left, starting from the integer [0].  From
    version 3.12 on the builtin compensates the rounding errors of the
    additions; the functions that call [sum] on floats take the builtin as
    a parameter. *)
Definition sum_left (values : list Q) : Q := fold_left add values 0%Q.

(** [dict.values()], in the order in which the dictionary is iterated. *)
Definition values (set_iter : gset string → list string)
  (d : gmap string Q) : list Q :=
  omap (λ key, d !! key) (set_iter (dom d)).

End PyFloat.

(** ** Analytics engine ([experiments/run_analytics.py]) *)

Module Analytics.
Import Messaging PyOrder.

(** Modelled from the spec: the profile types of [shared/models.py], which
    is not among the sources.  A business has a menu (item name to price)
    and a map from amenity to availability; a customer has the requested
    items with the willingness to pay for each and the list of required
    amenities. *)
Record Business := {
  b_id : string;
  b_name : string;
  b_menu_features : gmap string Q;
  b_amenity_features : gmap string bool
}.

Record Customer := {
  c_id : string;
  c_name : string;
  c_menu_features : gmap string Q;
  c_amenity_features : list string
}.

(** The error records of [experiments/models/analytics.py], with the fields
    the constructor calls in [check_proposal_errors] give them. *)
Inductive OrderProposalError :=
| InvalidBusiness (proposal_id business_agent_id customer_agent_id : string)
| InvalidCustomer (proposal_id business_agent_id customer_agent_id : string)
| InvalidMenuItem (proposal_id business_agent_id customer_agent_id : string)
    (proposed_menu_item closest_menu_item : string)
    (closest_menu_item_distance : nat)
| InvalidMenuItemPrice (proposal_id business_agent_id customer_agent_id : string)
    (menu_item : string) (proposed_price actual_price : Q)
| InvalidTotalPrice (proposal_id business_agent_id customer_agent_id : string)
    (proposed_total_price calculated_total_price : Q).

(** A fuzzy-match candidate [(distance, menu_item, proposal_item)] and a
    reported match [(distance, proposal_item, menu_item)]. *)
Definition cand : Type := nat * string * string.

(** The order [sorted] uses on candidates.  Two tuples that compare equal
    are the same tuple, so the sorted list does not depend on the sorting
    algorithm; the definitions below use merge sort. *)
Definition cand_le : relation cand := lex_le (lex_le le String.le) String.le.

Definition dist_le : relation (nat * string) := lex_le le String.le.

(** The part of [MarketplaceAnalytics] the functions below read and write.
    [business_messages] is a [defaultdict] that [_find_business_for_proposal]
    iterates in insertion order, hence an association list. *)
Record MarketplaceAnalytics := {
  fuzzy_match_distance : Z;
  customer_agents : gmap string Customer;
  business_agents : gmap string Business;
  business_messages : list (string * list Message);
  customer_orders : gmap string (list OrderProposal);
  customer_payments : gmap string (list Payment);
  purchased_proposal_fuzzy_matches : gmap string (list cand)
}.

(** [levenshtein_distance] on item names, which are taken to be ASCII: one
    [ascii] per character. *)
Definition levenshtein_distance (s1 s2 : string) : nat :=
  Levenshtein.levenshtein_distance
    (list_ascii_of_string s1) (list_ascii_of_string s2).

Section Engine.

(** [str.lower], and the order in which Python iterates over a set or over
    the keys of a dict: both are left open. *)
Variable lower : string → string.
Variable set_iter : gset string → list string.

(** The builtin [sum] applied to a list of floats. *)
Variable py_sum : list Q → Q.

Variable self : MarketplaceAnalytics.

(** The two nested loops that fill [fuzzy_distances]. *)
Definition fuzzy_distances (menu_items proposal_items : gset string)
  : list cand :=
  flat_map (λ menu_item,
    flat_map (λ proposal_item,
      let distance := levenshtein_distance (lower menu_item)
                                           (lower proposal_item) in
      if decide (Z.of_nat distance ≤ fuzzy_match_distance self)%Z
      then [(distance, menu_item, proposal_item)] else [])
    (set_iter proposal_items))
  (set_iter menu_items).

(** The body of [for distance, menu_item, proposal_item in sorted(...)];
    the state is [(menu_items, proposal_items, matched_items, fuzzy_matches)]. *)
Definition greedy_step
  (st : gset string * gset string * gset string * list cand) (c : cand)
  : gset string * gset string * gset string * list cand :=
  let '(menu_items, proposal_items, matched_items, fuzzy_matches) := st in
  let '(distance, menu_item, proposal_item) := c in
  if decide (menu_item ∈ menu_items ∧ proposal_item ∈ proposal_items)
  then (menu_items ∖ {[menu_item]}, proposal_items ∖ {[proposal_item]},
        matched_items ∪ {[menu_item]},
        fuzzy_matches ++ [(distance, proposal_item, menu_item)])
  else st.

(** [filter_valid_proposal_items]; [None] is the [KeyError] of
    [self.business_agents[business_agent_id]]. *)
Definition filter_valid_proposal_items
  (business_agent_id : string) (proposal : OrderProposal)
  : option (gset string * list cand) :=
  business_agent ← business_agents self !! business_agent_id;
  let menu_items : gset string := dom (b_menu_features business_agent) in
  let proposal_items : gset string :=
    list_to_set (item_name <$> items proposal) in
  let matched_items := proposal_items ∩ menu_items in
  if decide (0 < fuzzy_match_distance self)%Z then
    let menu_items := menu_items ∖ matched_items in
    let proposal_items := proposal_items ∖ matched_items in
    let sorted := merge_sort cand_le (fuzzy_distances menu_items proposal_items) in
    let '(_, _, matched_items, fuzzy_matches) :=
      foldl greedy_step (menu_items, proposal_items, matched_items, []) sorted in
    Some (matched_items, fuzzy_matches)
  else Some (matched_items, []).

Definition check_amenity_match (customer_agent_id business_agent_id : string)
  : bool :=
  match customer_agents self !! customer_agent_id,
        business_agents self !! business_agent_id with
  | Some customer, Some business =>
      let required_amenities : gset string :=
        list_to_set (c_amenity_features customer) in
      let available_amenities : gset string :=
        dom (filter (λ kv, kv.2 = true) (b_amenity_features business)) in
      bool_decide (required_amenities ⊆ available_amenities)
  | _, _ => false
  end.

Definition is_proposal_with_id (proposal_id : string) (msg : Message) : bool :=
  match msg with
  | MsgOrderProposal p => bool_decide (op_id p = proposal_id)
  | _ => false
  end.

Definition _find_business_for_proposal (proposal_id : string) : option string :=
  fst <$> List.find (λ kv, existsb (is_proposal_with_id proposal_id) kv.2)
            (business_messages self).

(** [if business_agent_id:] holds for an id that is neither [None] nor the
    empty string. *)
Definition found_business (business_agent_id : option string) : option string :=
  match business_agent_id with
  | Some b => if bool_decide (b = EmptyString) then None else Some b
  | None => None
  end.

(** The state of the payment loop of [calculate_customer_utility]:
    [total_payments], [needs_met] and the dictionary
    [purchased_proposal_fuzzy_matches]. *)
Definition utility_state : Type := Q * bool * gmap string (list cand).

Definition utility_step (customer_agent_id : string) (customer : Customer)
  (proposals_received : list OrderProposal)
  (acc : option utility_state) (payment : Payment) : option utility_state :=
  '(total_payments, needs_met, fuzzy) ← acc;
  match List.find (λ p, bool_decide (op_id p = proposal_message_id payment))
          proposals_received with
  | None => Some (total_payments, needs_met, fuzzy)
  | Some proposal =>
      match found_business (_find_business_for_proposal (op_id proposal)) with
      | None => Some (total_payments, needs_met, fuzzy)
      | Some business_agent_id =>
          '(proposal_items, proposal_item_fuzzy_matches) ←
            filter_valid_proposal_items business_agent_id proposal;
          let requested_items : gset string := dom (c_menu_features customer) in
          let price_paid := total_price proposal in
          let total_payments := PyFloat.add total_payments price_paid in
          if decide (requested_items ⊆ proposal_items) then
            let fuzzy :=
              match proposal_item_fuzzy_matches with
              | [] => fuzzy
              | _ => <[op_id proposal := proposal_item_fuzzy_matches]> fuzzy
              end in
            if check_amenity_match customer_agent_id business_agent_id
            then Some (total_payments, true, fuzzy)
            else Some (total_payments, needs_met, fuzzy)
          else Some (total_payments, needs_met, fuzzy)
      end
  end.

(** [2 * sum(customer.menu_features.values())] *)
Definition match_score_of (customer : Customer) : Q :=
  PyFloat.mul (PyFloat.of_int 2)
    (py_sum (PyFloat.values set_iter (c_menu_features customer))).

(** [calculate_customer_utility] returns [(utility, needs_met)] and updates
    [self.purchased_proposal_fuzzy_matches], the third component here;
    [None] is a [KeyError] raised on the way. *)
Definition calculate_customer_utility (customer_agent_id : string)
  : option (Q * bool * gmap string (list cand)) :=
  match customer_agents self !! customer_agent_id with
  | None => Some (0%Q, false, purchased_proposal_fuzzy_matches self)
  | Some customer =>
      let payments := default [] (customer_payments self !! customer_agent_id) in
      let proposals_received :=
        default [] (customer_orders self !! customer_agent_id) in
      match foldl (utility_step customer_agent_id customer proposals_received)
              (Some (0%Q, false, purchased_proposal_fuzzy_matches self))
              payments with
      | None => None
      | Some (total_payments, needs_met, fuzzy) =>
          let match_score :=
            if needs_met : bool then match_score_of customer else 0%Q in
          let utility := PyFloat.sub match_score total_payments in
          Some (PyFloat.round utility 2, needs_met, fuzzy)
      end
  end.

(** The loop over [proposal.items] in [check_proposal_errors]; the state is
    [(proposed_total, errors)] and [None] is the [IndexError] of
    [sorted(item_distances)[0]] on an empty menu. *)
Definition check_item (business_menu : gmap string Q)
  (proposal_id business_agent_id customer_agent_id : string)
  (acc : option (Q * list OrderProposalError)) (item : OrderItem)
  : option (Q * list OrderProposalError) :=
  '(proposed_total, errors) ← acc;
  let proposed_total :=
    PyFloat.add proposed_total
      (PyFloat.mul (unit_price item) (PyFloat.of_int (quantity item))) in
  match business_menu !! item_name item with
  | None =>
      let item_distances :=
        (λ menu_item,
           (levenshtein_distance (lower (item_name item)) (lower menu_item),
            menu_item)) <$> set_iter (dom business_menu) in
      '(closest_distance, closest_menu_item) ←
        head (merge_sort dist_le item_distances);
      Some (proposed_total,
            errors ++ [InvalidMenuItem proposal_id business_agent_id
                         customer_agent_id (item_name item)
                         closest_menu_item closest_distance])
  | Some actual_price =>
      if Qle_bool (PyFloat.literal (1 # 100))
           (Qabs (PyFloat.sub (unit_price item) actual_price))
      then Some (proposed_total,
                 errors ++ [InvalidMenuItemPrice proposal_id business_agent_id
                              customer_agent_id (item_name item)
                              (unit_price item) actual_price])
      else Some (proposed_total, errors)
  end.

Definition check_proposal_errors (proposal : OrderProposal)
  (business_agent_id customer_agent_id : string)
  : option (list OrderProposalError) :=
  let errors : list OrderProposalError := [] in
  let business_agent := business_agents self !! business_agent_id in
  let customer_agent := customer_agents self !! customer_agent_id in
  let errors :=
    match business_agent with
    | Some _ => errors
    | None => errors ++ [InvalidBusiness (op_id proposal) business_agent_id
                           customer_agent_id]
    end in
  let errors :=
    match customer_agent with
    | Some _ => errors
    | None => errors ++ [InvalidCustomer (op_id proposal) business_agent_id
                           customer_agent_id]
    end in
  match business_agent with
  | Some business_agent =>
      let business_menu := b_menu_features business_agent in
      '(proposed_total, errors) ←
        foldl (check_item business_menu (op_id proposal) business_agent_id
                 customer_agent_id)
              (Some (0%Q, errors)) (items proposal);
      if Qle_bool (PyFloat.literal (1 # 100))
           (Qabs (PyFloat.sub (total_price proposal) proposed_total))
      then Some (errors ++ [InvalidTotalPrice (op_id proposal) business_agent_id
                              customer_agent_id (total_price proposal)
                              proposed_total])
      else Some errors
  | None => Some errors
  end.

End Engine.

(** The components of a reported match [(distance, proposal_item,
    menu_item)], and the candidate it was picked from. *)
Definition match_distance (x : cand) : nat := x.1.1.
Definition match_proposal_item (x : cand) : string := x.1.2.
Definition match_menu_item (x : cand) : string := x.2.
Definition candidate_of (x : cand) : cand := (x.1.1, x.2, x.1.2).

(** The items of a proposal that are on the menu under their own name. *)
Definition exact_matches (business : Business) (proposal : OrderProposal)
  : gset string :=
  list_to_set (item_name <$> items proposal) ∩ dom (b_menu_features business).

Section Utility.
Variable lower : string → string.
Variable set_iter : gset string → list string.
Variable self : MarketplaceAnalytics.

(** The payments of a customer that count: those for a proposal the
    customer received and whose sending business is found (and has a
    non-empty id), each with that proposal and business.  A [Payment] carries no amount of its own; the
    amount paid is the total price of the proposal. *)
Definition paid_proposals (customer_agent_id : string)
  : list (OrderProposal * string) :=
  let payments := default [] (customer_payments self !! customer_agent_id) in
  let proposals_received :=
    default [] (customer_orders self !! customer_agent_id) in
  omap (λ payment,
    proposal ← List.find
      (λ p, bool_decide (op_id p = proposal_message_id payment))
      proposals_received;
    business_agent_id ←
      found_business (_find_business_for_proposal self (op_id proposal));
    Some (proposal, business_agent_id)) payments.

(** A paid proposal meets the customer's needs: its items, after fuzzy
    matching against the menu of the business, cover the requested items,
    and the business has every required amenity. *)
Definition meets_needs (customer_agent_id : string) (customer : Customer)
  (paid : OrderProposal * string) : bool :=
  match filter_valid_proposal_items lower set_iter self paid.2 paid.1 with
  | Some (proposal_items, _) =>
      bool_decide (dom (c_menu_features customer) ⊆ proposal_items)
      && check_amenity_match self customer_agent_id paid.2
  | None => false
  end.

(** [total_payments] as the payment loop adds it up: the total prices of
    the paid proposals, added as floats in the order of the payments. *)
Definition total_payments_of (customer_agent_id : string) : Q :=
  fold_left PyFloat.add
    (total_price <$> (paid_proposals customer_agent_id).*1) 0%Q.

(** Every payment that counts is for a proposal of a registered business. *)
Definition paid_to_registered (customer_agent_id : string) : Prop :=
  Forall (λ paid : OrderProposal * string,
            is_Some (business_agents self !! paid.2))
         (paid_proposals customer_agent_id).

(** Every business that has sent a message is a registered business. *)
Definition senders_registered : Prop :=
  ∀ kv, kv ∈ business_messages self → is_Some (business_agents self !! kv.1).

End Utility.

(** What it means for [set_iter] to be an iteration order: it lists the
    elements of the set, each once. *)
Definition iteration_order (set_iter : gset string → list string) : Prop :=
  ∀ X, set_iter X ≡ₚ elements X.

End Analytics.

(** ** Platform records ([platform/database/models.py],
       [marketplace/actions/actions.py]) *)

Module Platform.
Import Messaging.

(** What a function does when it is called: it returns a value or raises. *)
Inductive outcome (E A : Type) :=
| Returned (a : A)
| Raised (e : E).
Arguments Returned {E A} a.
Arguments Raised {E A} e.

Record SendMessage := {
  from_agent_id : string;
  to_agent_id : string;
  created_at : Z;
  message : Message
}.

Record FetchMessages := {
  fm_from_agent_id : option string;
  limit : option nat;
  offset : option nat;
  after : option Z;
  after_index : option Z
}.

(** [FetchMessages()] with every field at its default. *)
Definition FetchMessages_default : FetchMessages :=
  {| fm_from_agent_id := None; limit := None; offset := None;
     after := None; after_index := None |}.

Record ReceivedMessage := {
  rm_from_agent_id : string;
  rm_to_agent_id : string;
  rm_created_at : Z;
  rm_message : Message;
  rm_index : Z
}.

Record FetchMessagesResponse := {
  messages : list ReceivedMessage;
  has_more : bool
}.

(** [Action = SendMessage | FetchMessages | Search]; the parameters of a
    search play no role here. *)
Inductive Action :=
| ActSendMessage (a : SendMessage)
| ActFetchMessages (a : FetchMessages)
| ActSearch (query : string).

(** The [content] of an [ActionExecutionResult]: the dictionaries the
    protocol builds, and anything else. *)
Inductive Content :=
| ContentError (error : string)
| ContentValidationError (error_type message : string)
| ContentSendMessage (a : SendMessage)
| ContentFetchMessagesResponse (r : FetchMessagesResponse)
| ContentOther.

Record ActionExecutionResult := {
  content : Content;
  is_error : bool;
  metadata : option string
}.

(** A row of the [actions] table: [ActionRow] with its [ActionRowData]. *)
Record ActionRow := {
  ar_id : string;
  ar_created_at : Z;
  ar_index : Z;
  ar_agent_id : string;
  ar_request : Action;
  ar_result : ActionExecutionResult
}.

(** The database as the protocol sees it: the ids of the registered agents
    and the action log. *)
Record Database := {
  agents : gset string;
  actions : list ActionRow
}.

End Platform.

(** ** Sending a message ([marketplace/protocol/send_message.py]) *)

Module SendMessageProtocol.
Import Messaging Platform.

(** Modelled from the spec: the query builders of
    [marketplace/database/queries], which are not among the sources.  As the
    comment at the call site says, the query
    [from_agent(a) & order_proposals() & order_proposal_id(p)] combines three
    conditions on the logged request: the sender is [a], the message is an
    order proposal, and the proposal id is [p]. *)
Definition order_proposal_query (agent_id proposal_id : string)
  (row : ActionRow) : bool :=
  match ar_request row with
  | ActSendMessage a =>
      bool_decide (from_agent_id a = agent_id) &&
      match message a with
      | MsgOrderProposal p => bool_decide (op_id p = proposal_id)
      | _ => false
      end
  | _ => false
  end.

(** [database.actions.find(query, RangeQueryParams())] *)
Definition find (query : ActionRow → bool) (database : Database)
  : list ActionRow :=
  List.filter query (actions database).

(** The loop over [action_rows]: [SendMessage.model_validate] of the logged
    parameters, keeping the order proposals whatever their [expiry_time]. *)
Definition collect_order_proposals (action_rows : list ActionRow)
  : list OrderProposal :=
  omap (λ row,
    match ar_request row with
    | ActSendMessage action =>
        match message action with
        | MsgOrderProposal p => Some p
        | _ => None
        end
    | _ => None
    end) action_rows.

(** [_validate_message_content] returns the error dictionary
    [(error_type, message)] or [None]. *)
Definition _validate_message_content (send_message : SendMessage)
  (database : Database) : option (string * string) :=
  match message send_message with
  | MsgPayment payment =>
      let proposal_id := proposal_message_id payment in
      let query := order_proposal_query (to_agent_id send_message) proposal_id in
      let action_rows := find query database in
      let order_proposals := collect_order_proposals action_rows in
      match order_proposals with
      | _ :: _ => None
      | [] =>
          Some ("invalid_proposal",
                "No unexpired order proposals found with id " +:+ proposal_id)
      end
  | _ => None
  end.

Definition execute_send_message (send_message : SendMessage)
  (database : Database) : ActionExecutionResult :=
  if decide (to_agent_id send_message ∈ agents database) then
    match _validate_message_content send_message database with
    | Some (error_type, msg) =>
        {| content := ContentValidationError error_type msg;
           is_error := true; metadata := None |}
    | None =>
        {| content := ContentSendMessage send_message;
           is_error := false; metadata := Some "sent" |}
    end
  else
    {| content := ContentError ("to_agent_id " +:+ to_agent_id send_message
                                +:+ " not found");
       is_error := true; metadata := None |}.

(** The log holds a [SendMessage] from [business] that carries the order
    proposal [p]; [recipient] is the agent it was sent to. *)
Definition proposal_sent (database : Database) (business recipient : string)
  (p : OrderProposal) : Prop :=
  ∃ row a, row ∈ actions database ∧ ar_request row = ActSendMessage a ∧
    from_agent_id a = business ∧ to_agent_id a = recipient ∧
    message a = MsgOrderProposal p.

(** The claim as the specification words it: validity of a payment for
    proposal [proposal_id] needs a proposal sent to the paying agent. *)
Definition sent_to_this_sender (database : Database)
  (send_message : SendMessage) (proposal_id : string) : Prop :=
  ∃ p, op_id p = proposal_id ∧
    proposal_sent database (to_agent_id send_message)
                  (from_agent_id send_message) p.

(** What the code checks: a proposal sent by the target to any agent. *)
Definition sent_by_target (database : Database)
  (send_message : SendMessage) (proposal_id : string) : Prop :=
  ∃ p recipient, op_id p = proposal_id ∧
    proposal_sent database (to_agent_id send_message) recipient p.

End SendMessageProtocol.

(** ** Fetching messages *)

Module FetchMessagesProtocol.
Import Messaging Platform PyOrder.

(** Modelled from the spec: [execute_fetch_messages]
    ([marketplace/protocol/fetch_messages.py] is not among the sources).  The
    message directory is a view of the action log restricted to the
    [SendMessage] entries addressed to the recipient whose send did not fail,
    optionally from one sender, after a timestamp and with an index greater
    than [after_index]; it is ordered by ascending index and paged with
    [offset] and [limit]. *)
Definition received (recipient : string) (fetch : FetchMessages)
  (row : ActionRow) : option ReceivedMessage :=
  match ar_request row with
  | ActSendMessage a =>
      if bool_decide (to_agent_id a = recipient)
         && negb (is_error (ar_result row))
         && match fm_from_agent_id fetch with
            | Some sender => bool_decide (from_agent_id a = sender)
            | None => true
            end
         && match after fetch with
            | Some t => (t <? ar_created_at row)%Z
            | None => true
            end
         && match after_index fetch with
            | Some k => (k <? ar_index row)%Z
            | None => true
            end
      then Some {| rm_from_agent_id := from_agent_id a;
                   rm_to_agent_id := to_agent_id a;
                   rm_created_at := created_at a;
                   rm_message := message a;
                   rm_index := ar_index row |}
      else None
  | _ => None
  end.

Definition execute_fetch_messages (fetch : FetchMessages) (agent : string)
  (database : Database) : ActionExecutionResult :=
  let view :=
    sort_by_key rm_index (omap (received agent fetch) (actions database)) in
  let rest := drop (default 0 (offset fetch)) view in
  let page :=
    match limit fetch with Some n => take n rest | None => rest end in
  {| content := ContentFetchMessagesResponse
       {| messages := page;
          has_more := bool_decide (length page < length rest) |};
     is_error := false; metadata := None |}.

End FetchMessagesProtocol.

(** ** The agents' message bookkeeping ([marketplace/agents/base.py]) *)

Module BaseAgent.
Import Messaging Platform.

(** The two attributes [fetch_messages] reads and writes. *)
Record BaseSimpleMarketplaceAgent := {
  last_fetch_index : option Z;
  _seen_message_indexes : gset Z
}.

(** The state [__init__] sets up. *)
Definition init : BaseSimpleMarketplaceAgent :=
  {| last_fetch_index := None; _seen_message_indexes := ∅ |}.

Inductive ValidationError := validation_error.

(** [FetchMessagesResponse.model_validate(result.content)] *)
Definition model_validate (c : Content)
  : outcome ValidationError FetchMessagesResponse :=
  match c with
  | ContentFetchMessagesResponse r => Returned r
  | _ => Raised validation_error
  end.

(** The body of [for message in response.messages]; the state is the agent
    together with [new_messages]. *)
Definition filter_step
  (st : BaseSimpleMarketplaceAgent * list ReceivedMessage)
  (message : ReceivedMessage)
  : BaseSimpleMarketplaceAgent * list ReceivedMessage :=
  let '(self, new_messages) := st in
  if decide (rm_index message ∉ _seen_message_indexes self) then
    let seen := _seen_message_indexes self ∪ {[rm_index message]} in
    let last :=
      match last_fetch_index self with
      | None => Some (rm_index message)
      | Some l =>
          if (l <? rm_index message)%Z then Some (rm_index message)
          else Some l
      end in
    ({| last_fetch_index := last; _seen_message_indexes := seen |},
     new_messages ++ [message])
  else st.

(** [fetch_messages], given the result [execute_action] returned for the
    [FetchMessages()] action. *)
Definition fetch_messages (self : BaseSimpleMarketplaceAgent)
  (result : ActionExecutionResult)
  : outcome ValidationError (BaseSimpleMarketplaceAgent * FetchMessagesResponse) :=
  if is_error result then
    Returned (self, {| messages := []; has_more := false |})
  else
    match model_validate (content result) with
    | Raised e => Raised e
    | Returned response =>
        let '(self', new_messages) :=
          foldl filter_step (self, []) (messages response) in
        Returned (self', {| messages := new_messages;
                            has_more := has_more response |})
    end.

(** Repeated polling: the agent calls [fetch_messages] once per result; a
    call that raises leaves the agent as it was and delivers nothing.  The
    result is the final agent and the messages each poll delivered. *)
Fixpoint poll (self : BaseSimpleMarketplaceAgent)
  (results : list ActionExecutionResult)
  : BaseSimpleMarketplaceAgent * list (list ReceivedMessage) :=
  match results with
  | [] => (self, [])
  | result :: results' =>
      match fetch_messages self result with
      | Returned (self', response) =>
          let '(final, delivered) := poll self' results' in
          (final, messages response :: delivered)
      | Raised _ =>
          let '(final, delivered) := poll self results' in
          (final, [] :: delivered)
      end
  end.

(** The largest element of a list of integers, [None] when it is empty. *)
Definition max_index (l : list Z) : option Z :=
  foldl (λ acc i, match acc with
                  | None => Some i
                  | Some m => Some (Z.max m i)
                  end) None l.

(** The agent's bookkeeping describes the indexes [history] delivered so
    far. *)
Definition tracks (self : BaseSimpleMarketplaceAgent) (history : list Z)
  : Prop :=
  NoDup history ∧
  _seen_message_indexes self = list_to_set history ∧
  last_fetch_index self = max_index history.

End BaseAgent.

(** ** The business agent's payment handling
       ([marketplace/agents/business/agent.py]) *)

Module BusinessAgent.
Import Messaging.

Inductive ProposalStatus := pending | accepted | rejected.

#[export] Instance ProposalStatus_eq_dec : EqDecision ProposalStatus.
Proof. solve_decision. Defined.

(** Modelled from the spec: [OrderProposalStorage]
    ([marketplace/agents/proposal_storage.py] is not among the sources), the
    per-business ledger of section 4.3: [add_proposal] records a proposal
    with status pending, [get_proposal] looks a record up by proposal id,
    [update_proposal_status] sets the status of an existing record and
    answers whether there was one. *)
Record ProposalRecord := {
  proposal : OrderProposal;
  business_id : string;
  customer_id : string;
  status : ProposalStatus
}.

Definition add_proposal (p : OrderProposal) (business customer : string)
  (storage : gmap string ProposalRecord) : gmap string ProposalRecord :=
  <[op_id p := {| proposal := p; business_id := business;
                  customer_id := customer; status := pending |}]> storage.

Definition get_proposal (proposal_id : string)
  (storage : gmap string ProposalRecord) : option ProposalRecord :=
  storage !! proposal_id.

Definition update_proposal_status (proposal_id : string)
  (new_status : ProposalStatus) (storage : gmap string ProposalRecord)
  : gmap string ProposalRecord * bool :=
  match storage !! proposal_id with
  | Some r =>
      (<[proposal_id := {| proposal := proposal r;
                           business_id := business_id r;
                           customer_id := customer_id r;
                           status := new_status |}]> storage, true)
  | None => (storage, false)
  end.

(** The attributes of [BusinessAgent] that [_handle_payment] touches. *)
Record BusinessAgent := {
  proposal_storage : gmap string ProposalRecord;
  confirmed_orders : list string
}.

(** The status recorded for a proposal id, if any. *)
Definition status_of (self : BusinessAgent) (proposal_id : string)
  : option ProposalStatus :=
  status <$> proposal_storage self !! proposal_id.

Section Handler.

(** The two message builders of [ResponseHandler] ([responses.py] is not
    among the sources). *)
Variable generate_payment_confirmation : string → Q → TextMessage.
Variable generate_proposal_not_found_error : string → TextMessage.

Definition _handle_payment (self : BusinessAgent) (customer : string)
  (payment : Payment) : BusinessAgent * TextMessage :=
  let proposal_id := proposal_message_id payment in
  let stored_proposal := get_proposal proposal_id (proposal_storage self) in
  match stored_proposal with
  | Some stored =>
      if decide (status stored = pending) then
        let storage :=
          (update_proposal_status proposal_id accepted
             (proposal_storage self)).1 in
        let confirmation :=
          generate_payment_confirmation proposal_id
            (total_price (proposal stored)) in
        ({| proposal_storage := storage;
            confirmed_orders := confirmed_orders self ++ [proposal_id] |},
         confirmation)
      else (self, generate_proposal_not_found_error proposal_id)
  | None => (self, generate_proposal_not_found_error proposal_id)
  end.

(** What happens to the ledger in a run of the agent: a proposal is sent to
    a customer and stored, as in [_handle_new_customer_messages], or a payment
    arrives. *)
Inductive event :=
| Propose (p : OrderProposal) (customer : string)
| Pay (customer : string) (payment : Payment).

(** The events of a run, handled one after the other; the result is the
    final agent and the replies to the payments in order.  [self_id] is the
    id of the agent. *)
Fixpoint run (self_id : string) (self : BusinessAgent) (events : list event)
  : BusinessAgent * list TextMessage :=
  match events with
  | [] => (self, [])
  | Propose p customer :: rest =>
      run self_id
        {| proposal_storage :=
             add_proposal p self_id customer (proposal_storage self);
           confirmed_orders := confirmed_orders self |} rest
  | Pay customer payment :: rest =>
      let '(self', reply) := _handle_payment self customer payment in
      let '(final, replies) := run self_id self' rest in
      (final, reply :: replies)
  end.

(** The proposal ids accepted in a run, in order. *)
Fixpoint accepted_in (self_id : string) (self : BusinessAgent)
  (events : list event) : list string :=
  match events with
  | [] => []
  | Propose p customer :: rest =>
      accepted_in self_id
        {| proposal_storage :=
             add_proposal p self_id customer (proposal_storage self);
           confirmed_orders := confirmed_orders self |} rest
  | Pay customer payment :: rest =>
      (if decide (status_of self (proposal_message_id payment) = Some pending)
       then [proposal_message_id payment] else [])
      ++ accepted_in self_id (_handle_payment self customer payment).1 rest
  end.

(** Every proposal of the run is stored under an id that is not in the
    ledger yet. *)
Fixpoint fresh_proposals (self_id : string) (self : BusinessAgent)
  (events : list event) : Prop :=
  match events with
  | [] => True
  | Propose p customer :: rest =>
      proposal_storage self !! op_id p = None ∧
      fresh_proposals self_id
        {| proposal_storage :=
             add_proposal p self_id customer (proposal_storage self);
           confirmed_orders := confirmed_orders self |} rest
  | Pay customer payment :: rest =>
      fresh_proposals self_id (_handle_payment self customer payment).1 rest
  end.

End Handler.

(** The state [__init__] sets up. *)
Definition init : BusinessAgent :=
  {| proposal_storage := ∅; confirmed_orders := [] |}.

(** Every confirmed order is in the ledger and no longer pending, and none
    is confirmed twice. *)
Definition ledger_consistent (self : BusinessAgent) : Prop :=
  NoDup (confirmed_orders self) ∧
  ∀ p, p ∈ confirmed_orders self →
       is_Some (status_of self p) ∧ status_of self p ≠ Some pending.

End BusinessAgent.

(** ** Database conversion ([platform/database/converter.py]) *)

Module Converter.
Import Platform PyOrder.

(** [Row]: the database fields around the domain [data]; the field [id] is
    [row_id], [index] is [row_index]. *)
Record Row (D : Type) := {
  row_id : string;
  row_created_at : Z;
  row_data : D;
  row_index : option Z
}.
Arguments row_id {D} _.
Arguments row_created_at {D} _.
Arguments row_data {D} _.
Arguments row_index {D} _.

(** [r.index if r.index is not None else 0] *)
Definition index_key {D} (r : Row D) : Z := default 0%Z (row_index r).

Inductive ValueError :=
| RowCountMismatch (table_name : string) (source_count target_count : nat)
| IndexMismatch (table_name : string) (source_id : string)
    (source_index target_index : option Z)
| IDMismatch (table_name : string) (source_index : option Z)
    (source_id target_id : string).

Section Tables.
Context {D : Type}.

(** Modelled from the spec: the table controller of the portable backend
    ([platform/database/sqlite] is not among the sources).  A table is the
    list of its rows in index order; [create_many] appends the rows one by
    one, each at the next row index, which is one more than the largest
    index in the table and [1] in an empty table; [get_all] lists the
    table. *)
Definition next_index (table : list (Row D)) : Z :=
  (foldr Z.max 0 (index_key <$> table) + 1)%Z.

Definition create (table : list (Row D)) (r : Row D) : list (Row D) :=
  table ++ [{| row_id := row_id r; row_created_at := row_created_at r;
               row_data := row_data r;
               row_index := Some (next_index table) |}].

Definition create_many (table : list (Row D)) (rows : list (Row D))
  : list (Row D) :=
  foldl create table rows.

Definition get_all (table : list (Row D)) : list (Row D) := table.

(** [_copy_agents], [_copy_actions], [_copy_logs]: sort the source rows by
    index, drop the index and insert them in bulk. *)
Definition copy_table (source_rows target_table : list (Row D))
  : list (Row D) :=
  let rows := sort_by_key index_key source_rows in
  let new_rows :=
    (λ r, {| row_id := row_id r; row_created_at := row_created_at r;
             row_data := row_data r; row_index := None |}) <$> rows in
  create_many target_table new_rows.

(** The loop over [zip(source_rows, target_rows, strict=True)]. *)
Fixpoint verify_rows (table_name : string)
  (source_rows target_rows : list (Row D)) : outcome ValueError unit :=
  match source_rows, target_rows with
  | source_row :: source_rest, target_row :: target_rest =>
      if decide (row_index source_row ≠ row_index target_row) then
        Raised (IndexMismatch table_name (row_id source_row)
                  (row_index source_row) (row_index target_row))
      else if decide (row_id source_row ≠ row_id target_row) then
        Raised (IDMismatch table_name (row_index source_row)
                  (row_id source_row) (row_id target_row))
      else verify_rows table_name source_rest target_rest
  | _, _ => Returned ()
  end.

Definition _verify_table (table_name : string)
  (source_rows target_rows : list (Row D)) : outcome ValueError unit :=
  if decide (length source_rows ≠ length target_rows) then
    Raised (RowCountMismatch table_name (length source_rows)
              (length target_rows))
  else
    verify_rows table_name (sort_by_key index_key source_rows)
                (sort_by_key index_key target_rows).

(** The rows of a table as the verification sees them: index and id, in
    index order. *)
Definition keyed_ids (rows : list (Row D)) : list (option Z * string) :=
  (λ r, (row_index r, row_id r)) <$> sort_by_key index_key rows.

(** Source and target hold the same number of rows, with the same ids at
    the same indexes. *)
Definition same_rows (source_rows target_rows : list (Row D)) : Prop :=
  length source_rows = length target_rows ∧
  keyed_ids source_rows = keyed_ids target_rows.

(** The rows with consecutive indexes from [n] on, in the given order. *)
Fixpoint number_from (n : Z) (rows : list (Row D)) : list (Row D) :=
  match rows with
  | [] => []
  | r :: rows' =>
      {| row_id := row_id r; row_created_at := row_created_at r;
         row_data := row_data r; row_index := Some n |}
      :: number_from (n + 1) rows'
  end.

(** The indexes of a table are [1], ..., [N]. *)
Definition numbered_from_one (rows : list (Row D)) : Prop :=
  row_index <$> sort_by_key index_key rows =
  Some <$> seqZ 1 (Z.of_nat (length rows)).

End Tables.

(** The three tables of an experiment. *)
Record Tables (A B C : Type) := {
  agents_table : list (Row A);
  actions_table : list (Row B);
  logs_table : list (Row C)
}.
Arguments agents_table {A B C} _.
Arguments actions_table {A B C} _.
Arguments logs_table {A B C} _.

Section Convert.
Context {A B C : Type}.

Definition _verify_conversion (source_db target_db : Tables A B C)
  : outcome ValueError unit :=
  match _verify_table "agents" (agents_table source_db)
          (get_all (agents_table target_db)) with
  | Raised e => Raised e
  | Returned _ =>
      match _verify_table "actions" (actions_table source_db)
              (get_all (actions_table target_db)) with
      | Raised e => Raised e
      | Returned _ =>
          _verify_table "logs" (logs_table source_db)
            (get_all (logs_table target_db))
      end
  end.

(** [convert]: the target database is created empty, the three tables are
    copied and the copy is verified; the outcome is the target database or
    the [ValueError] of the verification.  The source is a live database
    that the converter reads twice with [get_all]: [source_db] is what the
    copy functions read, [source_read_again] what [_verify_conversion]
    reads afterwards; the two are the same when nothing writes to the
    source during the conversion. *)
Definition convert (source_db source_read_again : Tables A B C)
  : outcome ValueError (Tables A B C) :=
  let target_db :=
    {| agents_table := copy_table (agents_table source_db) [];
       actions_table := copy_table (actions_table source_db) [];
       logs_table := copy_table (logs_table source_db) [] |} in
  match _verify_conversion source_read_again target_db with
  | Raised e => Raised e
  | Returned _ => Returned target_db
  end.

(** The copy of the three tables into an empty target. *)
Definition copied_tables (source_db : Tables A B C) : Tables A B C :=
  {| agents_table := copy_table (agents_table source_db) [];
     actions_table := copy_table (actions_table source_db) [];
     logs_table := copy_table (logs_table source_db) [] |}.

(** The three tables of the two databases hold the same rows. *)
Definition same_tables (source_db target_db : Tables A B C) : Prop :=
  same_rows (agents_table source_db) (agents_table target_db) ∧
  same_rows (actions_table source_db) (actions_table target_db) ∧
  same_rows (logs_table source_db) (logs_table target_db).

(** The three tables of the source are numbered from one. *)
Definition source_numbered (source_db : Tables A B C) : Prop :=
  numbered_from_one (agents_table source_db) ∧
  numbered_from_one (actions_table source_db) ∧
  numbered_from_one (logs_table source_db).

End Convert.

End Converter.

(** ** Audit engine ([experiments/run_audit.py]) *)

Module Audit.
Import Messaging Platform PyOrder.

(** A chat message of a prompt: the dictionary is represented by what
    [str(message.get("content", ""))] reads from it, the rendering of its
    ["content"] entry when it has one. *)
Record PromptMessage := { get_content : option string }.

(** [LLMCallLog.prompt] is a string or a sequence of messages. *)
Inductive Prompt :=
| PromptStr (s : string)
| PromptMessages (l : list PromptMessage).

(** [LLMCallLog.response] is a string or a structured value; the latter is
    represented by the text [json.dumps] gives for it. *)
Inductive Response :=
| ResponseStr (s : string)
| ResponseStructured (json_dumps : string).

Record LLMCallLog := {
  prompt : Prompt;
  response : Response;
  model : option string;
  provider : option string
}.

(** A row of [self.db.logs.find(llm_call.all(), params)]: its index and
    timestamp, the ["agent_id"] entry of the log's metadata, and the
    [LLMCallLog] that [model_validate] builds from the log's data, [None]
    when validation raises. *)
Record LogRow := {
  lr_index : Z;
  lr_created_at : string;
  lr_agent_id : option string;
  lr_llm_call : option LLMCallLog
}.

(** The attributes of [MarketplaceAudit] that the proposal audit reads. *)
Record MarketplaceAudit := {
  order_proposals : list OrderProposal;
  proposal_metadata : gmap string (string * string * string)
}.

Definition empty_audit : MarketplaceAudit :=
  {| order_proposals := []; proposal_metadata := ∅ |}.

(** The order-proposal branch of [_process_send_message]; [timestamp] is
    the rendered creation time of the row. *)
Definition _process_send_message (self : MarketplaceAudit)
  (action : SendMessage) (result : ActionExecutionResult)
  (timestamp : string) : MarketplaceAudit :=
  if is_error result then self
  else
    match message action with
    | MsgOrderProposal p =>
        {| order_proposals := order_proposals self ++ [p];
           proposal_metadata :=
             <[op_id p := (from_agent_id action, to_agent_id action, timestamp)]>
               (proposal_metadata self) |}
    | _ => self
    end.

Section Loading.

(** [created_at.isoformat()] *)
Variable isoformat : Z → string.

Definition _process_action_row (self : MarketplaceAudit) (row : ActionRow)
  : MarketplaceAudit :=
  match ar_request row with
  | ActSendMessage action =>
      _process_send_message self action (ar_result row)
        (isoformat (ar_created_at row))
  | _ => self
  end.

(** The action loop of [load_data]. *)
Definition load_data (rows : list ActionRow) : MarketplaceAudit :=
  foldl _process_action_row empty_audit rows.

End Loading.

(** [get_last_llm_log_for_customer] *)
Definition get_last_llm_log_for_customer (logs : list LogRow)
  (customer : string) : option (LLMCallLog * string) :=
  let customer_logs :=
    omap (λ log_row,
      if bool_decide (lr_agent_id log_row = Some customer) then
        (λ llm, (lr_index log_row, llm, lr_created_at log_row))
          <$> lr_llm_call log_row
      else None) logs in
  let sorted := sort_by_key (λ x, x.1.1) customer_logs in
  (λ x, (x.1.2, x.2)) <$> last sorted.

(** [check_proposal_in_log] *)
Definition check_proposal_in_log (proposal_id : string) (llm_log : LLMCallLog)
  : bool :=
  (match prompt llm_log with
   | PromptStr s => is_substring proposal_id s
   | PromptMessages l =>
       existsb (λ message,
         is_substring proposal_id (default EmptyString (get_content message))) l
   end)
  ||
  (match response llm_log with
   | ResponseStr s => is_substring proposal_id s
   | ResponseStructured response_str => is_substring proposal_id response_str
   end).

(** One entry of [missing_details]: the identifying fields, the reason and,
    when the customer has a log, that log with its timestamp (the rest of
    the diagnostic bundle is derived from other attributes). *)
Record MissingDetail := {
  md_proposal_id : string;
  md_business_id : string;
  md_customer_id : string;
  md_reason : string;
  md_llm_log : option (LLMCallLog * string)
}.

(** The counters and collections of [results] that the proposal loop of
    [audit_proposals] updates. *)
Record AuditResults := {
  total_proposals : nat;
  proposals_found : nat;
  proposals_missing : nat;
  customers_without_logs : gset string;
  unique_customers : gset string;
  unique_businesses : gset string;
  missing_details : list MissingDetail
}.

(** The body of [for proposal in self.order_proposals]. *)
Definition audit_step (self : MarketplaceAudit) (logs : list LogRow)
  (results : AuditResults) (p : OrderProposal) : AuditResults :=
  let proposal_id := op_id p in
  match proposal_metadata self !! proposal_id with
  | None => results
  | Some (business, customer, proposal_timestamp) =>
      let unique_c := unique_customers results ∪ {[customer]} in
      let unique_b := unique_businesses results ∪ {[business]} in
      match get_last_llm_log_for_customer logs customer with
      | None =>
          {| total_proposals := total_proposals results;
             proposals_found := proposals_found results;
             proposals_missing := proposals_missing results + 1;
             customers_without_logs :=
               customers_without_logs results ∪ {[customer]};
             unique_customers := unique_c;
             unique_businesses := unique_b;
             missing_details :=
               missing_details results ++
               [{| md_proposal_id := proposal_id; md_business_id := business;
                   md_customer_id := customer;
                   md_reason := "No LLM logs found";
                   md_llm_log := None |}] |}
      | Some (llm_log, llm_timestamp) =>
          if check_proposal_in_log proposal_id llm_log then
            {| total_proposals := total_proposals results;
               proposals_found := proposals_found results + 1;
               proposals_missing := proposals_missing results;
               customers_without_logs := customers_without_logs results;
               unique_customers := unique_c;
               unique_businesses := unique_b;
               missing_details := missing_details results |}
          else
            {| total_proposals := total_proposals results;
               proposals_found := proposals_found results;
               proposals_missing := proposals_missing results + 1;
               customers_without_logs := customers_without_logs results;
               unique_customers := unique_c;
               unique_businesses := unique_b;
               missing_details :=
                 missing_details results ++
                 [{| md_proposal_id := proposal_id; md_business_id := business;
                     md_customer_id := customer;
                     md_reason := "Proposal ID not found in last LLM log";
                     md_llm_log := Some (llm_log, llm_timestamp) |}] |}
      end
  end.

(** The proposal loop of [audit_proposals]. *)
Definition audit_proposals (self : MarketplaceAudit) (logs : list LogRow)
  : AuditResults :=
  foldl (audit_step self logs)
    {| total_proposals := length (order_proposals self);
       proposals_found := 0; proposals_missing := 0;
       customers_without_logs := ∅; unique_customers := ∅;
       unique_businesses := ∅; missing_details := [] |}
    (order_proposals self).

(** The row logs a successful send of an order proposal with this id. *)
Definition carries (proposal_id : string) (row : ActionRow) : Prop :=
  ∃ a p, ar_request row = ActSendMessage a ∧
    is_error (ar_result row) = false ∧
    message a = MsgOrderProposal p ∧ op_id p = proposal_id.

(** The customer a proposal id is recorded for. *)
Definition recipient (self : MarketplaceAudit) (proposal_id : string)
  : option string :=
  (λ m, m.1.2) <$> proposal_metadata self !! proposal_id.

(** [s] occurs in [t] as a contiguous piece. *)
Definition occurs_in (s t : string) : Prop :=
  ∃ pre post, t = pre +:+ s +:+ post.

(** The texts [check_proposal_in_log] searches: the prompt, or the content
    of each of its messages, and the response. *)
Definition searched_texts (llm_log : LLMCallLog) : list string :=
  match prompt llm_log with
  | PromptStr s => [s]
  | PromptMessages l => (λ m, default EmptyString (get_content m)) <$> l
  end ++
  match response llm_log with
  | ResponseStr s => [s]
  | ResponseStructured s => [s]
  end.

(** The row is an LLM call log of the customer that validates. *)
Definition log_of (customer : string) (row : LogRow) : Prop :=
  lr_agent_id row = Some customer ∧ is_Some (lr_llm_call row).

(** [row] is the log of the customer with the largest index: every other
    log of the customer among [logs] has a smaller one. *)
Definition most_recent_log (logs : list LogRow) (customer : string)
  (row : LogRow) : Prop :=
  ∃ earlier later,
    logs = earlier ++ row :: later ∧ log_of customer row ∧
    ∀ row', row' ∈ earlier ++ later → log_of customer row' →
      (lr_index row' < lr_index row)%Z.

(** The proposal id appears in the last log of the customer it is recorded
    for. *)
Definition appears_in_last_log (self : MarketplaceAudit) (logs : list LogRow)
  (p : OrderProposal) : bool :=
  match recipient self (op_id p) with
  | Some customer =>
      match get_last_llm_log_for_customer logs customer with
      | Some (llm_log, _) => check_proposal_in_log (op_id p) llm_log
      | None => false
      end
  | None => false
  end.

End Audit.

(** ** Dictionaries of lists *)

Module PyDict.

(** [d[key].append(v)] on a [defaultdict(list)] kept in insertion order: a
    new key goes to the end. *)
Fixpoint append_at {V} (key : string) (v : V) (d : list (string * list V))
  : list (string * list V) :=
  match d with
  | [] => [(key, [v])]
  | (k, vs) :: rest =>
      if decide (k = key) then (k, vs ++ [v]) :: rest
      else (k, vs) :: append_at key v rest
  end.

(** [d[key].append(v)] on a [defaultdict(list)] whose order plays no
    role. *)
Definition append_in {V} (key : string) (v : V) (d : gmap string (list V))
  : gmap string (list V) :=
  <[key := default [] (d !! key) ++ [v]]> d.

End PyDict.

(** ** Sorting by a price *)

Module PySort.

(** Stable insertion sort by a rational key, for [l.sort(key=...)] when the
    key is an amount of money: an element is placed before the first element
    whose key is not smaller, so elements with equal keys keep their
    order. *)
Fixpoint insert_by_Qkey {A} (key : A → Q) (x : A) (l : list A) : list A :=
  match l with
  | [] => [x]
  | y :: l' =>
      if Qle_bool (key x) (key y) then x :: l
      else y :: insert_by_Qkey key x l'
  end.

Definition sort_by_Qkey {A} (key : A → Q) (l : list A) : list A :=
  foldr (insert_by_Qkey key) [] l.

(** The keys never decrease along the list. *)
Definition Qkey_sorted {A} (key : A → Q) (l : list A) : Prop :=
  StronglySorted (λ x y, key x <= key y)%Q l.

End PySort.

(** ** Which businesses can serve a customer
       ([experiments/run_analytics.py], [experiments/run_audit.py]) *)

Module MenuMatches.
Import Messaging PyOrder PySort Analytics.

Section Engine.

(** [calculate_menu_matches] and [check_amenity_match] have the same text
    in [MarketplaceAnalytics] and in [MarketplaceAudit]; they read the two
    agent dictionaries only.  [set_iter] is the order in which the requested
    items of a customer are iterated, [agent_iter] the order of
    [self.business_agents.items()]. *)
Variable set_iter : gset string → list string.
Variable agent_iter : gset string → list string.
Variable customer_agents : gmap string Customer.
Variable business_agents : gmap string Business.

(** [for item_name in requested_items] with its [break]; the result is
    [(total_price, can_fulfill)]. *)
Fixpoint price_requested (menu_features : gmap string Q)
  (requested_items : list string) (total_price : Q) : Q * bool :=
  match requested_items with
  | [] => (total_price, true)
  | item_name :: rest =>
      match menu_features !! item_name with
      | Some price => price_requested menu_features rest (total_price + price)%Q
      | None => (total_price, false)
      end
  end.

Definition calculate_menu_matches (customer_agent_id : string)
  : list (string * Q) :=
  match customer_agents !! customer_agent_id with
  | None => []
  | Some customer =>
      let requested_items := set_iter (dom (c_menu_features customer)) in
      let matches :=
        omap (λ business_agent_id,
          business ← business_agents !! business_agent_id;
          let '(total_price, can_fulfill) :=
            price_requested (b_menu_features business) requested_items 0%Q in
          if can_fulfill : bool
          then Some (business_agent_id, round2 total_price)
          else None)
        (agent_iter (dom business_agents)) in
      sort_by_Qkey snd matches
  end.

(** [check_amenity_match] on the two dictionaries. *)
Definition check_amenity_match (customer_agent_id business_agent_id : string)
  : bool :=
  match customer_agents !! customer_agent_id,
        business_agents !! business_agent_id with
  | Some customer, Some business =>
      let required_amenities : gset string :=
        list_to_set (c_amenity_features customer) in
      let available_amenities : gset string :=
        dom (filter (λ kv, kv.2 = true) (b_amenity_features business)) in
      bool_decide (required_amenities ⊆ available_amenities)
  | _, _ => false
  end.

(** [get_optimal_business_for_customer]: the first menu match, in price
    order, whose amenities match as well. *)
Definition get_optimal_business_for_customer (customer_agent_id : string)
  : option string :=
  fst <$> List.find (λ m, check_amenity_match customer_agent_id m.1)
            (calculate_menu_matches customer_agent_id).

End Engine.

(** The business offers every item the customer asks for. *)
Definition can_fulfill (customer : Customer) (business : Business) : Prop :=
  dom (c_menu_features customer) ⊆ dom (b_menu_features business).

(** What the requested items cost at the business, item by item in the
    canonical order of the item names. *)
Definition menu_price (customer : Customer) (business : Business) : Q :=
  Qsum ((λ item_name, default 0%Q (b_menu_features business !! item_name))
          <$> elements (dom (c_menu_features customer))).

(** The business has every amenity the customer requires. *)
Definition has_amenities (customer : Customer) (business : Business) : Prop :=
  ∀ amenity, amenity ∈ c_amenity_features customer →
             b_amenity_features business !! amenity = Some true.

End MenuMatches.

(** ** What [check_proposal_errors] accepts
       ([experiments/run_analytics.py]) *)

Module ProposalChecks.
Import Messaging PyOrder Analytics.

(** The total of a proposal as [check_proposal_errors] adds it up:
    [proposed_total += item.unit_price * item.quantity] from [0]. *)
Definition calculated_total (proposal : OrderProposal) : Q :=
  fold_left (λ proposed_total item,
               PyFloat.add proposed_total
                 (PyFloat.mul (unit_price item)
                              (PyFloat.of_int (quantity item))))
            (items proposal) 0%Q.

(** [abs(x - y) >= 0.01] does not hold: the float difference of the two
    amounts is smaller in size than the float [0.01]. *)
Definition within_a_cent (x y : Q) : Prop :=
  (Qabs (PyFloat.sub x y) < PyFloat.literal (1 # 100))%Q.

(** The item is on the menu and its unit price is within a cent of the
    menu price. *)
Definition priced_as_on_menu (business_menu : gmap string Q)
  (item : OrderItem) : Prop :=
  ∃ actual_price,
    business_menu !! item_name item = Some actual_price ∧
    within_a_cent (unit_price item) actual_price.

(** Sender and recipient are registered, every item is priced as on the
    menu of the sender, and the stated total is within a cent of the
    calculated one. *)
Definition proposal_consistent (self : MarketplaceAnalytics)
  (proposal : OrderProposal) (business_agent_id customer_agent_id : string)
  : Prop :=
  ∃ business,
    business_agents self !! business_agent_id = Some business ∧
    is_Some (customer_agents self !! customer_agent_id) ∧
    Forall (priced_as_on_menu (b_menu_features business)) (items proposal) ∧
    within_a_cent (total_price proposal) (calculated_total proposal).

Section Reports.
Variable lower : string → string.
Variable set_iter : gset string → list string.

(** The error, if any, that [check_item] reports for an item. *)
Definition reports (business_menu : gmap string Q)
    (proposal_id business_agent_id customer_agent_id : string)
    (item : OrderItem) (e : OrderProposalError) : Prop :=
  match business_menu !! item_name item with
  | None =>
      ∃ closest_distance closest_menu_item,
        e = InvalidMenuItem proposal_id business_agent_id customer_agent_id
              (item_name item) closest_menu_item closest_distance ∧
        closest_menu_item ∈ set_iter (dom business_menu) ∧
        closest_distance =
          levenshtein_distance (lower (item_name item))
                               (lower closest_menu_item) ∧
        ∀ menu_item, menu_item ∈ set_iter (dom business_menu) →
          closest_distance ≤
            levenshtein_distance (lower (item_name item)) (lower menu_item)
  | Some actual_price =>
      e = InvalidMenuItemPrice proposal_id business_agent_id
            customer_agent_id (item_name item) (unit_price item)
            actual_price ∧
      ¬ within_a_cent (unit_price item) actual_price
  end.

End Reports.

End ProposalChecks.

(** ** The analytics engine under another fuzzy-match threshold *)

Module FuzzyThreshold.
Import Messaging PyOrder Analytics.

(** [MarketplaceAnalytics(db, fuzzy_match_distance)] over the same data:
    the state [self] with [fuzzy_match_distance] set to [threshold]. *)
Definition with_fuzzy_match_distance (threshold : Z)
  (self : MarketplaceAnalytics) : MarketplaceAnalytics :=
  {| fuzzy_match_distance := threshold;
     customer_agents := customer_agents self;
     business_agents := business_agents self;
     business_messages := business_messages self;
     customer_orders := customer_orders self;
     customer_payments := customer_payments self;
     purchased_proposal_fuzzy_matches :=
       purchased_proposal_fuzzy_matches self |}.

End FuzzyThreshold.

(** ** Where a conversion fails *)

Module ConverterErrors.
Import Platform PyOrder Converter.

(** In index order, the row at [position] (counted from zero) is the
    first whose index is not its position plus one; it has the given id and
    index. *)
Definition first_misnumbered {D} (rows : list (Row D)) (position : nat)
  (source_id : string) (source_index : option Z) : Prop :=
  ∃ before r after,
    sort_by_key index_key rows = before ++ r :: after ∧
    length before = position ∧
    row_id r = source_id ∧ row_index r = source_index ∧
    row_index r ≠ Some (Z.of_nat position + 1)%Z ∧
    row_index <$> before = Some <$> seqZ 1 (Z.of_nat position).

(** A source whose only agent row has index 2. *)
Definition gapped_source : Tables unit unit unit :=
  {| agents_table :=
       [{| row_id := "business-1"; row_created_at := 2; row_data := ();
           row_index := Some 2%Z |}];
     actions_table := []; logs_table := [] |}.

End ConverterErrors.

(** ** What a poll is offered *)

Module Polling.
Import Messaging Platform BaseAgent.

(** The messages of the response that [fetch_messages] reads from a result:
    none when the result is an error or does not validate. *)
Definition offered (result : ActionExecutionResult) : list ReceivedMessage :=
  if is_error result then []
  else
    match model_validate (content result) with
    | Returned response => messages response
    | Raised _ => []
    end.

End Polling.

(** ** Reading the action log into the analytics engine
       ([experiments/run_analytics.py], [analyze_actions]) *)

Module AnalyticsActions.
Import Messaging PyOrder PyDict Platform Analytics.

(** The attributes of [MarketplaceAnalytics] that [_process_send_message]
    fills besides those of the record above.  The two counters of
    [_process_action_row], [action_stats] and [customer_searches], are not
    read by any function of this development and are left out. *)
Record Tally := {
  message_stats : gmap string nat;
  customer_messages : list (string * list Message);
  order_proposals : list OrderProposal;
  payments : list Payment;
  purchased_proposal_ids : gset string;
  invalid_proposals : gmap string (list OrderProposalError)
}.

(** What [__init__] sets up, with the agent dictionaries as [load_data]
    fills them. *)
Definition loaded (threshold : Z) (customers : gmap string Customer)
  (businesses : gmap string Business) : MarketplaceAnalytics * Tally :=
  ({| fuzzy_match_distance := threshold;
      customer_agents := customers;
      business_agents := businesses;
      business_messages := [];
      customer_orders := ∅;
      customer_payments := ∅;
      purchased_proposal_fuzzy_matches := ∅ |},
   {| message_stats := ∅; customer_messages := []; order_proposals := [];
      payments := []; purchased_proposal_ids := ∅;
      invalid_proposals := ∅ |}).

(** [message.type] *)
Definition message_type (message : Message) : string :=
  match message with
  | MsgText _ => "text"
  | MsgOrderProposal _ => "order_proposal"
  | MsgPayment _ => "payment"
  end.

Definition _get_agent_type (self : MarketplaceAnalytics) (agent_id : string)
  : string :=
  if decide (is_Some (customer_agents self !! agent_id)) then "customer"
  else if decide (is_Some (business_agents self !! agent_id)) then "business"
  else "unknown".

(** The assignments of [_process_send_message], one function each. *)
Definition count_message (message : Message) (tally : Tally) : Tally :=
  {| message_stats :=
       <[message_type message :=
           S (default 0 (message_stats tally !! message_type message))]>
         (message_stats tally);
     customer_messages := customer_messages tally;
     order_proposals := order_proposals tally;
     payments := payments tally;
     purchased_proposal_ids := purchased_proposal_ids tally;
     invalid_proposals := invalid_proposals tally |}.

Definition add_customer_message (sender : string) (message : Message)
  (tally : Tally) : Tally :=
  {| message_stats := message_stats tally;
     customer_messages := append_at sender message (customer_messages tally);
     order_proposals := order_proposals tally;
     payments := payments tally;
     purchased_proposal_ids := purchased_proposal_ids tally;
     invalid_proposals := invalid_proposals tally |}.

Definition add_order_proposal (proposal : OrderProposal) (tally : Tally)
  : Tally :=
  {| message_stats := message_stats tally;
     customer_messages := customer_messages tally;
     order_proposals := order_proposals tally ++ [proposal];
     payments := payments tally;
     purchased_proposal_ids := purchased_proposal_ids tally;
     invalid_proposals := invalid_proposals tally |}.

Definition add_invalid_proposal (proposal_id : string)
  (errors : list OrderProposalError) (tally : Tally) : Tally :=
  {| message_stats := message_stats tally;
     customer_messages := customer_messages tally;
     order_proposals := order_proposals tally;
     payments := payments tally;
     purchased_proposal_ids := purchased_proposal_ids tally;
     invalid_proposals := <[proposal_id := errors]> (invalid_proposals tally) |}.

Definition add_payment (payment : Payment) (tally : Tally) : Tally :=
  {| message_stats := message_stats tally;
     customer_messages := customer_messages tally;
     order_proposals := order_proposals tally;
     payments := payments tally ++ [payment];
     purchased_proposal_ids :=
       purchased_proposal_ids tally ∪ {[proposal_message_id payment]};
     invalid_proposals := invalid_proposals tally |}.

Definition add_business_message (sender : string) (message : Message)
  (self : MarketplaceAnalytics) : MarketplaceAnalytics :=
  {| fuzzy_match_distance := fuzzy_match_distance self;
     customer_agents := customer_agents self;
     business_agents := business_agents self;
     business_messages := append_at sender message (business_messages self);
     customer_orders := customer_orders self;
     customer_payments := customer_payments self;
     purchased_proposal_fuzzy_matches :=
       purchased_proposal_fuzzy_matches self |}.

Definition add_customer_order (recipient : string) (proposal : OrderProposal)
  (self : MarketplaceAnalytics) : MarketplaceAnalytics :=
  {| fuzzy_match_distance := fuzzy_match_distance self;
     customer_agents := customer_agents self;
     business_agents := business_agents self;
     business_messages := business_messages self;
     customer_orders := append_in recipient proposal (customer_orders self);
     customer_payments := customer_payments self;
     purchased_proposal_fuzzy_matches :=
       purchased_proposal_fuzzy_matches self |}.

Definition add_customer_payment (sender : string) (payment : Payment)
  (self : MarketplaceAnalytics) : MarketplaceAnalytics :=
  {| fuzzy_match_distance := fuzzy_match_distance self;
     customer_agents := customer_agents self;
     business_agents := business_agents self;
     business_messages := business_messages self;
     customer_orders := customer_orders self;
     customer_payments := append_in sender payment (customer_payments self);
     purchased_proposal_fuzzy_matches :=
       purchased_proposal_fuzzy_matches self |}.

Section Loading.
Variable lower : string → string.
Variable set_iter : gset string → list string.

(** [_process_send_message].  An exception raised inside the [try] block
    ([check_proposal_errors] raising [IndexError]) is caught: the
    assignments made before it stay, the rest of the block is skipped. *)
Definition _process_send_message (st : MarketplaceAnalytics * Tally)
  (action : SendMessage) (result : ActionExecutionResult)
  (agent_type : string) : MarketplaceAnalytics * Tally :=
  if is_error result then st
  else
    let '(self, tally) := st in
    let message := Platform.message action in
    let tally := count_message message tally in
    let '(self, tally) :=
      if decide (agent_type = "customer") then
        (self, add_customer_message (from_agent_id action) message tally)
      else if decide (agent_type = "business") then
        (add_business_message (from_agent_id action) message self, tally)
      else (self, tally) in
    match message with
    | MsgOrderProposal proposal =>
        let tally := add_order_proposal proposal tally in
        match check_proposal_errors lower set_iter self proposal
                (from_agent_id action) (to_agent_id action) with
        | None => (self, tally)
        | Some errors =>
            let tally :=
              match errors with
              | [] => tally
              | _ => add_invalid_proposal (op_id proposal) errors tally
              end in
            if decide (agent_type = "business") then
              if decide (is_Some (customer_agents self !! to_agent_id action))
              then (add_customer_order (to_agent_id action) proposal self,
                    tally)
              else (self, tally)
            else (self, tally)
        end
    | MsgPayment payment =>
        let tally := add_payment payment tally in
        if decide (agent_type = "customer") then
          (add_customer_payment (from_agent_id action) payment self, tally)
        else (self, tally)
    | MsgText _ => (self, tally)
    end.

(** [_process_action_row]: a [Search] row only feeds [customer_searches],
    a [FetchMessages] row is only counted. *)
Definition _process_action_row (st : MarketplaceAnalytics * Tally)
  (action_row : ActionRow) : MarketplaceAnalytics * Tally :=
  let agent_type := _get_agent_type st.1 (ar_agent_id action_row) in
  match ar_request action_row with
  | ActSendMessage action =>
      _process_send_message st action (ar_result action_row) agent_type
  | _ => st
  end.

(** [analyze_actions], given the rows of [self.db.actions.get_all()]. *)
Definition analyze_actions (st : MarketplaceAnalytics * Tally)
  (actions : list ActionRow) : MarketplaceAnalytics * Tally :=
  foldl _process_action_row st actions.

End Loading.

(** Every logged message was sent under the id of the agent that performed
    the action, as [BaseSimpleMarketplaceAgent.send_message] does. *)
Definition senders_act_as_themselves (actions : list ActionRow) : Prop :=
  ∀ action_row action,
    action_row ∈ actions →
    ar_request action_row = ActSendMessage action →
    from_agent_id action = ar_agent_id action_row.

End AnalyticsActions.

(** ** Revenue of the businesses
       ([experiments/run_analytics.py], [_calculate_business_utilities]) *)

Module AnalyticsRevenue.
Import Messaging PyOrder Analytics.

Section Engine.

(** [agent_iter] is the order of [self.customer_payments.items()]. *)
Variable agent_iter : gset string → list string.
Variable self : MarketplaceAnalytics.

(** The body of [for payment in payments]: the proposal is looked up among
    those the customer received, its business among the senders, and
    [business_utilities[business_agent_id] += proposal.total_price] on a
    [defaultdict(float)]. *)
Definition credit (customer_agent_id : string)
  (business_utilities : gmap string Q) (payment : Payment) : gmap string Q :=
  let proposals_received :=
    default [] (customer_orders self !! customer_agent_id) in
  match List.find (λ p, bool_decide (op_id p = proposal_message_id payment))
          proposals_received with
  | None => business_utilities
  | Some proposal =>
      match found_business (_find_business_for_proposal self (op_id proposal))
      with
      | None => business_utilities
      | Some business_agent_id =>
          <[business_agent_id :=
              (default 0 (business_utilities !! business_agent_id)
               + total_price proposal)%Q]> business_utilities
      end
  end.

Definition _calculate_business_utilities : gmap string Q :=
  foldl (λ business_utilities customer_agent_id,
           foldl (credit customer_agent_id) business_utilities
             (default [] (customer_payments self !! customer_agent_id)))
        ∅ (agent_iter (dom (customer_payments self))).

End Engine.

(** The proposal and business a payment is credited to, as in
    [paid_proposals]. *)
Definition pick (self : MarketplaceAnalytics) (customer_agent_id : string)
  (payment : Payment)
  : option (OrderProposal * string) :=
  proposal ← List.find
    (λ p, bool_decide (op_id p = proposal_message_id payment))
    (default [] (customer_orders self !! customer_agent_id));
  business_agent_id ←
    found_business (_find_business_for_proposal self (op_id proposal));
  Some (proposal, business_agent_id).

(** What a dictionary of revenues holds for a business, and the part of a
    list of paid proposals that is due to it. *)
Definition amount (business_agent_id : string)
  (business_utilities : gmap string Q) : Q :=
  default 0%Q (business_utilities !! business_agent_id).

Definition total_of (business_agent_id : string)
  (paid : list (OrderProposal * string)) : Q :=
  foldr Qplus 0%Q
    (total_price <$> (filter (λ paid, paid.2 = business_agent_id) paid).*1).

(** The proposals of [business_agent_id] that [customer_agent_id] paid
    for, one entry per payment. *)
Definition paid_to (self : MarketplaceAnalytics)
  (business_agent_id customer_agent_id : string) : list OrderProposal :=
  (filter (λ paid, paid.2 = business_agent_id)
          (paid_proposals self customer_agent_id)).*1.

(** The total price of the proposals of a business that were paid for,
    over all paying customers. *)
Definition revenue (self : MarketplaceAnalytics) (business_agent_id : string)
  : Q :=
  Qsum (total_price <$>
          flat_map (paid_to self business_agent_id)
                   (elements (dom (customer_payments self)))).

(** The state in which the payments recorded for a customer are
    [payments]. *)
Definition with_payments (customer_agent_id : string)
  (payments : list Payment) (self : MarketplaceAnalytics)
  : MarketplaceAnalytics :=
  {| fuzzy_match_distance := fuzzy_match_distance self;
     customer_agents := customer_agents self;
     business_agents := business_agents self;
     business_messages := business_messages self;
     customer_orders := customer_orders self;
     customer_payments :=
       <[customer_agent_id := payments]> (customer_payments self);
     purchased_proposal_fuzzy_matches :=
       purchased_proposal_fuzzy_matches self |}.

End AnalyticsRevenue.

(** ** The customer agent's messages
       ([marketplace/agents/customer/agent.py],
        [marketplace/agents/customer/models.py]) *)

Module CustomerAgent.
Import Messaging Platform.
Import BusinessAgent (ProposalStatus, ProposalRecord, add_proposal,
                      get_proposal, update_proposal_status).

(** [AssistantTextMessageRequest] and [AssistantPayMessageRequest]: a
    [TextMessage] and a [Payment] with the business the model names as
    recipient. *)
Record AssistantTextMessageRequest := {
  tm_to_business_id : string;
  tm_content : string
}.

Record AssistantPayMessageRequest := {
  pm_to_business_id : string;
  pm_proposal_message_id : string;
  pm_payment_method : option string;
  pm_delivery_address : option string;
  pm_payment_message : option string
}.

Record Messages := {
  text_messages : list AssistantTextMessageRequest;
  pay_messages : list AssistantPayMessageRequest
}.

(** [CustomerSendMessageResults]: one [(success, text)] per message. *)
Record CustomerSendMessageResults := {
  text_message_results : list (bool * string);
  pay_message_results : list (bool * string)
}.

(** The attributes of [CustomerAgent] that sending and receiving touch; the
    field [id] is [ca_id] here.  The ledger is the [OrderProposalStorage]
    modelled for the business agent. *)
Record CustomerAgent := {
  ca_id : string;
  ca_proposal_storage : gmap string ProposalRecord;
  completed_transactions : list string
}.

(** [x or y] for an optional string: [None] and the empty string are
    falsy. *)
Definition or_else (x : option string) (y : string) : string :=
  match x with
  | Some s => if decide (s = EmptyString) then y else s
  | None => y
  end.

(** [_process_new_messages]: every order proposal received is stored under
    its id, with the sender as its business. *)
Definition _process_new_messages (self : CustomerAgent)
  (messages : list ReceivedMessage) : CustomerAgent :=
  foldl (λ self message,
    match rm_message message with
    | MsgOrderProposal p =>
        {| ca_id := ca_id self;
           ca_proposal_storage :=
             add_proposal p (rm_from_agent_id message) (ca_id self)
               (ca_proposal_storage self);
           completed_transactions := completed_transactions self |}
    | _ => self
    end) self messages.

Section Sending.

(** The platform as the agent meets it: [execute_action] takes the state
    of the world to a new state and either a result or nothing, when the
    call raises; [now] is the clock.  [str_content] is [str(result.content)],
    [format_exc] the text of [traceback.format_exc()] and [str_of_nat] the
    decimal rendering of a number. *)
Variable World : Type.
Variable execute_action :
  World → SendMessage → World * option ActionExecutionResult.
Variable now : World → Z.
Variable str_content : Content → string.
Variable format_exc : string.
Variable str_of_nat : nat → string.

(** [BaseSimpleMarketplaceAgent.send_message] *)
Definition send_message (self_id : string) (world : World)
  (to_agent_id : string) (message : Message)
  : World * option ActionExecutionResult :=
  execute_action world
    {| from_agent_id := self_id; to_agent_id := to_agent_id;
       created_at := now world; message := message |}.

(** The body of [for text_message in action.messages.text_messages]. *)
Definition send_text (self_id : string)
  (st : World * list (bool * string))
  (text_message : AssistantTextMessageRequest)
  : World * list (bool * string) :=
  let '(world, results) := st in
  let business_id := tm_to_business_id text_message in
  let message :=
    MsgText {| Messaging.content := tm_content text_message |} in
  match send_message self_id world business_id message with
  | (world, Some result) =>
      if is_error result
      then (world, results ++ [(false, str_content (Platform.content result))])
      else (world, results ++ [(true, "Success!")])
  | (world, None) =>
      (world,
       results ++ [(false, "Failed to send message to " +:+ business_id
                           +:+ ". " +:+ format_exc)])
  end.

(** The [Payment] built for a pay request that names a stored proposal. *)
Definition payment_for (pay_message : AssistantPayMessageRequest)
  (stored_proposal : ProposalRecord) : Payment :=
  {| proposal_message_id := pm_proposal_message_id pay_message;
     payment_method :=
       Some (or_else (pm_payment_method pay_message) "credit_card");
     delivery_address := None;
     payment_message :=
       Some (or_else (pm_payment_message pay_message)
               ("Accepting your proposal for "
                +:+ str_of_nat (length (items (BusinessAgent.proposal
                                                 stored_proposal)))
                +:+ " items")) |}.

(** The body of [for pay_message in action.messages.pay_messages]. *)
Definition send_payment
  (st : CustomerAgent * World * list (bool * string))
  (pay_message : AssistantPayMessageRequest)
  : CustomerAgent * World * list (bool * string) :=
  let '(self, world, results) := st in
  let proposal_to_accept := pm_proposal_message_id pay_message in
  match get_proposal proposal_to_accept (ca_proposal_storage self) with
  | Some stored_proposal =>
      let payment := payment_for pay_message stored_proposal in
      match send_message (ca_id self) world
              (BusinessAgent.business_id stored_proposal)
              (MsgPayment payment) with
      | (world, Some result) =>
          if is_error result then
            (self, world,
             results ++ [(false, "Failed to send payment: "
                                 +:+ str_content (Platform.content result))])
          else
            let '(storage, success) :=
              update_proposal_status proposal_to_accept BusinessAgent.accepted
                (ca_proposal_storage self) in
            let self :=
              {| ca_id := ca_id self; ca_proposal_storage := storage;
                 completed_transactions := completed_transactions self |} in
            if success : bool then
              ({| ca_id := ca_id self;
                  ca_proposal_storage := ca_proposal_storage self;
                  completed_transactions :=
                    completed_transactions self ++ [proposal_to_accept] |},
               world, results ++ [(true, "Payment accepted!")])
            else
              (self, world,
               results ++ [(false, "Failed to update order proposal status.")])
      | (world, None) =>
          (self, world,
           results ++ [(false, "Failed to send payment for proposal "
                               +:+ proposal_to_accept +:+ ": "
                               +:+ format_exc)])
      end
  | None =>
      (self, world,
       results ++ [(false, "Error: proposal_to_accept '"
                           +:+ proposal_to_accept
                           +:+ "' does not match any known proposals.")])
  end.

(** The [send_messages] branch of [_execute_customer_action]: the texts
    are sent first, then the payments; the result is what is appended to the
    event history. *)
Definition send_messages (self : CustomerAgent) (world : World)
  (messages : Messages)
  : CustomerAgent * World * CustomerSendMessageResults :=
  let '(world, text_results) :=
    foldl (send_text (ca_id self)) (world, []) (text_messages messages) in
  let '(self, world, pay_results) :=
    foldl send_payment (self, world, []) (pay_messages messages) in
  (self, world,
   {| text_message_results := text_results;
      pay_message_results := pay_results |}).

(** The payment actions the agent submits while handling the pay requests,
    in order. *)
Fixpoint payments_sent (self : CustomerAgent) (world : World)
  (pay_messages : list AssistantPayMessageRequest) : list SendMessage :=
  match pay_messages with
  | [] => []
  | pay_message :: rest =>
      let '(self', world', _) := send_payment (self, world, []) pay_message in
      match get_proposal (pm_proposal_message_id pay_message)
              (ca_proposal_storage self) with
      | Some stored_proposal =>
          {| from_agent_id := ca_id self;
             to_agent_id := BusinessAgent.business_id stored_proposal;
             created_at := now world;
             message := MsgPayment (payment_for pay_message stored_proposal) |}
          :: payments_sent self' world' rest
      | None => payments_sent self' world' rest
      end
  end.

End Sending.

(** Every record of the ledger is kept under the id of its proposal, and
    its proposal was sent by its business according to the action log. *)
Definition ledger_backed (database : Database)
  (storage : gmap string ProposalRecord) : Prop :=
  ∀ proposal_id stored,
    storage !! proposal_id = Some stored →
    op_id (BusinessAgent.proposal stored) = proposal_id ∧
    ∃ recipient,
      SendMessageProtocol.proposal_sent database
        (BusinessAgent.business_id stored) recipient
        (BusinessAgent.proposal stored).

(** A received message is on the action log: some logged [SendMessage] of
    its sender carries its content. *)
Definition on_the_log (database : Database) (message : ReceivedMessage)
  : Prop :=
  ∃ row a, row ∈ actions database ∧ ar_request row = ActSendMessage a ∧
    from_agent_id a = rm_from_agent_id message ∧
    Platform.message a = rm_message message.

End CustomerAgent.

(** ** The business agent's step
       ([marketplace/agents/business/agent.py]) *)

Module BusinessStep.
Import Messaging Platform PyDict BusinessAgent.

(** [step]: the messages fetched are grouped by sender in
    [new_messages_by_customer], a [defaultdict(list)] in insertion
    order. *)
Definition new_messages_by_customer (messages : list ReceivedMessage)
  : list (string * list ReceivedMessage) :=
  foldl (λ by_customer received_message,
           append_at (rm_from_agent_id received_message) received_message
             by_customer)
        [] messages.

(** What [add_to_history] is given: a message or a string. *)
Inductive HistoryEntry :=
| EntryMessage (message : Message)
| EntryText (text : string).

Section Handler.

(** The platform and the language model as the agent meets them, as state
    transformers of the world; [execute_action] gives no result when the
    call raises.  [model_dump] renders
    [message.model_dump(exclude_none=True)], [str_content] is
    [str(result.content)], [str_exception] the text of the exception
    caught. *)
Variable World : Type.
Variable generate_payment_confirmation : string → Q → TextMessage.
Variable generate_proposal_not_found_error : string → TextMessage.
Variable generate_response_to_inquiry :
  World → string → list string → World * Message.
Variable execute_action :
  World → SendMessage → World * option ActionExecutionResult.
Variable now : World → Z.
Variable model_dump : Message → string.
Variable str_content : Content → string.
Variable str_exception : string.

(** [self.id] *)
Variable self_id : string.

Definition add_to_history (customer_histories : gmap string (list string))
  (customer_id : string) (entry : HistoryEntry) (customer_or_agent : string)
  : gmap string (list string) :=
  let prefix :=
    if decide (customer_or_agent = "customer") then "Customer" else "You" in
  let formatted_message :=
    match entry with
    | EntryText text => prefix +:+ ": " +:+ text
    | EntryMessage (MsgText m) => prefix +:+ ": " +:+ Messaging.content m
    | EntryMessage m => prefix +:+ ": " +:+ model_dump m
    end in
  append_in customer_id formatted_message customer_histories.

(** The state of the first loop of [_handle_new_customer_messages]: the
    agent, the histories, [messages_to_send] and [last_text_message]. *)
Definition receive_step (customer_id : string)
  (st : BusinessAgent * gmap string (list string)
        * list (string * Message) * option TextMessage)
  (received_message : ReceivedMessage)
  : BusinessAgent * gmap string (list string)
    * list (string * Message) * option TextMessage :=
  let '(self, histories, messages_to_send, last_text_message) := st in
  let '(self, messages_to_send, last_text_message) :=
    match rm_message received_message with
    | MsgPayment payment =>
        let '(self, response) :=
          _handle_payment generate_payment_confirmation
            generate_proposal_not_found_error self customer_id payment in
        (self, messages_to_send ++ [(customer_id, MsgText response)],
         last_text_message)
    | MsgText text => (self, messages_to_send, Some text)
    | MsgOrderProposal _ => (self, messages_to_send, last_text_message)
    end in
  (self,
   add_to_history histories customer_id
     (EntryMessage (rm_message received_message)) "customer",
   messages_to_send, last_text_message).

(** The body of [for customer_id, message in messages_to_send]; the last
    component collects the actions submitted to the platform. *)
Definition send_step
  (st : BusinessAgent * gmap string (list string) * World * list SendMessage)
  (to_send : string * Message)
  : BusinessAgent * gmap string (list string) * World * list SendMessage :=
  let '(self, histories, world, submitted) := st in
  let '(customer_id, message) := to_send in
  let self :=
    match message with
    | MsgOrderProposal p =>
        {| proposal_storage :=
             add_proposal p self_id customer_id (proposal_storage self);
           confirmed_orders := confirmed_orders self |}
    | _ => self
    end in
  let action :=
    {| from_agent_id := self_id; to_agent_id := customer_id;
       created_at := now world; message := message |} in
  match execute_action world action with
  | (world, Some result) =>
      if is_error result then
        let error_msg :=
          "Error: Failed to send message to " +:+ customer_id +:+ ": "
          +:+ str_content (Platform.content result) in
        (self, add_to_history histories customer_id (EntryText error_msg)
                 "business",
         world, submitted ++ [action])
      else
        (self, add_to_history histories customer_id (EntryMessage message)
                 "business",
         world, submitted ++ [action])
  | (world, None) =>
      let error_msg :=
        "Error: Failed to send message to " +:+ customer_id +:+ ": "
        +:+ str_exception in
      (self, add_to_history histories customer_id (EntryText error_msg)
               "business",
       world, submitted ++ [action])
  end.

(** [_handle_new_customer_messages]; the result is the agent, the
    histories, the world and the actions submitted. *)
Definition _handle_new_customer_messages (self : BusinessAgent)
  (histories : gmap string (list string)) (world : World)
  (customer_id : string) (new_messages : list ReceivedMessage)
  : BusinessAgent * gmap string (list string) * World * list SendMessage :=
  let '(self, histories, messages_to_send, last_text_message) :=
    foldl (receive_step customer_id) (self, histories, [], None)
          new_messages in
  let '(world, messages_to_send) :=
    match last_text_message with
    | Some _ =>
        let '(world, response_message) :=
          generate_response_to_inquiry world customer_id
            (default [] (histories !! customer_id)) in
        (world, messages_to_send ++ [(customer_id, response_message)])
    | None => (world, messages_to_send)
    end in
  foldl send_step (self, histories, world, []) messages_to_send.

End Handler.

(** The payments among the messages received, in order. *)
Definition payments_of (new_messages : list ReceivedMessage) : list Payment :=
  omap (λ m, match rm_message m with
             | MsgPayment payment => Some payment
             | _ => None
             end) new_messages.

(** Some message received is a text message. *)
Definition has_text (new_messages : list ReceivedMessage) : Prop :=
  ∃ m text, m ∈ new_messages ∧ rm_message m = MsgText text.

(** The ledger event a reply gives rise to: a proposal is stored. *)
Definition reply_events (customer_id : string) (reply : option Message)
  : list event :=
  match reply with
  | Some (MsgOrderProposal p) => [Propose p customer_id]
  | _ => []
  end.

End BusinessStep.

(** ** Concrete marketplaces used in examples *)

Module Examples.
Import Messaging Platform PyOrder.

Definition order_item (name : string) (price : Q) : OrderItem :=
  {| oi_id := name; item_name := name; quantity := 1; unit_price := price |}.

Definition order_proposal (proposal_id : string) (l : list OrderItem)
  (total : Q) : OrderProposal :=
  {| op_id := proposal_id; items := l; total_price := total;
     special_instructions := None; estimated_delivery := None;
     expiry_time := None |}.

(** *** Analytics: a taqueria and a customer who wants a taco and a burrito *)

Definition taqueria (wifi : bool) : Analytics.Business :=
  {| Analytics.b_id := "business-1"; Analytics.b_name := "Taqueria";
     Analytics.b_menu_features := {["taco" := 10%Q; "burrito" := 15%Q]};
     Analytics.b_amenity_features := {["wifi" := wifi]} |}.

Definition hungry_customer : Analytics.Customer :=
  {| Analytics.c_id := "customer-1"; Analytics.c_name := "Customer";
     Analytics.c_menu_features := {["taco" := 10%Q; "burrito" := 15%Q]};
     Analytics.c_amenity_features := ["wifi"] |}.

(** The state after the business has sent [proposal] to the customer and
    the customer has paid for it. *)
Definition paid_once (threshold : Z) (wifi : bool) (proposal : OrderProposal)
  : Analytics.MarketplaceAnalytics :=
  {| Analytics.fuzzy_match_distance := threshold;
     Analytics.customer_agents := {["customer-1" := hungry_customer]};
     Analytics.business_agents := {["business-1" := taqueria wifi]};
     Analytics.business_messages :=
       [("business-1", [MsgOrderProposal proposal])];
     Analytics.customer_orders := {["customer-1" := [proposal]]};
     Analytics.customer_payments := {["customer-1" := [pay (op_id proposal)]]};
     Analytics.purchased_proposal_fuzzy_matches := ∅ |}.

(** A correctly priced proposal for both items. *)
Definition exact_proposal : OrderProposal :=
  order_proposal "p1" [order_item "taco" 10; order_item "burrito" 15] 25.

(** The same proposal with the burrito misspelt. *)
Definition typo_proposal : OrderProposal :=
  order_proposal "p1" [order_item "taco" 10; order_item "buritto" 15] 25.

(** A proposal for an eighth of a unit of money. *)
Definition cheap_proposal : OrderProposal :=
  order_proposal "p1" [order_item "taco" (1 # 8)] (1 # 8).

(** An iteration order other than [elements]. *)
Definition backwards (X : gset string) : list string := reverse (elements X).

(** *** Protocol: business-1 has sent proposal [p1] to customer-1 *)

Definition proposal_p1 : OrderProposal :=
  {| op_id := "p1";
     items := [order_item "taco" 10];
     total_price := 10;
     special_instructions := None; estimated_delivery := None;
     expiry_time := Some "2001-01-01T00:00:00Z" |}.

Definition send_p1 : SendMessage :=
  {| from_agent_id := "business-1"; to_agent_id := "customer-1";
     created_at := 1; message := MsgOrderProposal proposal_p1 |}.

Definition database_p1 : Database :=
  {| agents := {["business-1"; "customer-1"; "customer-2"]};
     actions :=
       [{| ar_id := "action-1"; ar_created_at := 1; ar_index := 1;
           ar_agent_id := "business-1";
           ar_request := ActSendMessage send_p1;
           ar_result := {| content := ContentSendMessage send_p1;
                           is_error := false; metadata := Some "sent" |} |}] |}.

(** [customer] pays business-1 for proposal [p1]. *)
Definition payment_from (customer : string) : SendMessage :=
  {| from_agent_id := customer; to_agent_id := "business-1";
     created_at := 2; message := MsgPayment (pay "p1") |}.

(** *** Business agent: proposal [p7] is sent and then paid for twice *)

Definition proposal_p7 : OrderProposal :=
  order_proposal "p7" [order_item "taco" 10] 10.

Definition two_payments : list BusinessAgent.event :=
  [BusinessAgent.Propose proposal_p7 "customer-1";
   BusinessAgent.Pay "customer-1" (pay "p7");
   BusinessAgent.Pay "customer-1" (pay "p7")].

(** *** Fetching: a log with two messages for customer-1 *)

Definition text_to (recipient : string) (i : Z) : ActionRow :=
  let a := {| from_agent_id := "business-1"; to_agent_id := recipient;
              created_at := i;
              message := MsgText {| Messaging.content := "hello" |} |} in
  {| ar_id := "action"; ar_created_at := i; ar_index := i;
     ar_agent_id := "business-1"; ar_request := ActSendMessage a;
     ar_result := {| content := ContentSendMessage a; is_error := false;
                     metadata := Some "sent" |} |}.

Definition two_messages : Database :=
  {| agents := {["business-1"; "customer-1"]};
     actions := [text_to "customer-1" 3; text_to "customer-1" 8] |}.

Definition fetch_after (k : Z) : FetchMessages :=
  {| fm_from_agent_id := None; limit := None; offset := None;
     after := None; after_index := Some k |}.

Definition too_busy : ActionExecutionResult :=
  {| content := ContentError "Database is too busy to handle the request";
     is_error := true; metadata := None |}.

(** *** Conversion: a source numbered from one, listed out of order *)

Definition row (i : Z) (name : string) : Converter.Row unit :=
  {| Converter.row_id := name; Converter.row_created_at := i;
     Converter.row_data := (); Converter.row_index := Some i |}.

Definition small_source : Converter.Tables unit unit unit :=
  {| Converter.agents_table := [row 2 "business-1"; row 1 "customer-1"];
     Converter.actions_table := [row 1 "action-1"];
     Converter.logs_table := [] |}.

Definition small_target : Converter.Tables unit unit unit :=
  {| Converter.agents_table := [row 1 "customer-1"; row 2 "business-1"];
     Converter.actions_table := [row 1 "action-1"];
     Converter.logs_table := [] |}.

End Examples.

(** ** Further marketplaces used in examples *)

Module Scenarios.
Import Messaging Platform PyOrder Analytics Examples.

(** A business with nothing on its menu. *)
Definition closed_kitchen : Business :=
  {| b_id := "business-1"; b_name := "Closed kitchen";
     b_menu_features := ∅; b_amenity_features := ∅ |}.

(** The customer of the taqueria example next to the closed kitchen, before
    any message is sent. *)
Definition empty_menu_market : MarketplaceAnalytics :=
  {| fuzzy_match_distance := 0;
     customer_agents := {["customer-1" := hungry_customer]};
     business_agents := {["business-1" := closed_kitchen]};
     business_messages := [];
     customer_orders := ∅;
     customer_payments := ∅;
     purchased_proposal_fuzzy_matches := ∅ |}.

(** The state after the taqueria has sent two proposals to the customer
    and the customer has paid for both, in this order. *)
Definition paid_twice (first second : OrderProposal) : MarketplaceAnalytics :=
  {| fuzzy_match_distance := 0;
     customer_agents := {["customer-1" := hungry_customer]};
     business_agents := {["business-1" := taqueria true]};
     business_messages :=
       [("business-1", [MsgOrderProposal first; MsgOrderProposal second])];
     customer_orders := {["customer-1" := [first; second]]};
     customer_payments :=
       {["customer-1" := [pay (op_id first); pay (op_id second)]]};
     purchased_proposal_fuzzy_matches := ∅ |}.

(** Two proposals for a taco, at [0.001] and at [0.014]. *)
Definition tenth_of_a_cent : OrderProposal :=
  order_proposal "p1" [order_item "taco" (PyFloat.literal (1 # 1000))]
    (PyFloat.literal (1 # 1000)).

Definition cent_and_a_half : OrderProposal :=
  order_proposal "p2" [order_item "taco" (PyFloat.literal (14 # 1000))]
    (PyFloat.literal (14 # 1000)).

(** The paid proposal of [paid_once] when its sender has left the
    registry of businesses. *)
Definition sender_unregistered (proposal : OrderProposal)
  : MarketplaceAnalytics :=
  {| fuzzy_match_distance := 0;
     customer_agents := {["customer-1" := hungry_customer]};
     business_agents := ∅;
     business_messages := [("business-1", [MsgOrderProposal proposal])];
     customer_orders := {["customer-1" := [proposal]]};
     customer_payments := {["customer-1" := [pay (op_id proposal)]]};
     purchased_proposal_fuzzy_matches := ∅ |}.

(** A taco offered at [10.01] where the menu says [10]. *)
Definition a_cent_more : OrderProposal :=
  order_proposal "p1" [order_item "taco" (PyFloat.literal (1001 # 100))]
    (PyFloat.literal (1001 # 100)).

(** A log in which business-1 sends the exact proposal to customer-1 and
    customer-1 pays for it. *)
Definition sent (i : Z) (sender recipient : string) (m : Message)
  : ActionRow :=
  let a := {| from_agent_id := sender; to_agent_id := recipient;
              created_at := i; message := m |} in
  {| ar_id := "action"; ar_created_at := i; ar_index := i;
     ar_agent_id := sender; ar_request := ActSendMessage a;
     ar_result := {| content := ContentSendMessage a; is_error := false;
                     metadata := Some "sent" |} |}.

Definition proposal_then_payment : list ActionRow :=
  [sent 1 "business-1" "customer-1" (MsgOrderProposal exact_proposal);
   sent 2 "customer-1" "business-1" (MsgPayment (pay "p1"))].

(** Customer-1 has received proposal [p1] of business-1 and asks to pay
    for it, naming another business as recipient. *)
Definition customer_one : CustomerAgent.CustomerAgent :=
  {| CustomerAgent.ca_id := "customer-1";
     CustomerAgent.ca_proposal_storage := ∅;
     CustomerAgent.completed_transactions := [] |}.

Definition received_p1 : ReceivedMessage :=
  {| rm_from_agent_id := "business-1"; rm_to_agent_id := "customer-1";
     rm_created_at := 1; rm_message := MsgOrderProposal proposal_p1;
     rm_index := 1 |}.

Definition pay_p1 : CustomerAgent.AssistantPayMessageRequest :=
  {| CustomerAgent.pm_to_business_id := "business-9";
     CustomerAgent.pm_proposal_message_id := "p1";
     CustomerAgent.pm_payment_method := None;
     CustomerAgent.pm_delivery_address := None;
     CustomerAgent.pm_payment_message := None |}.

Definition stored_p1 : BusinessAgent.ProposalRecord :=
  {| BusinessAgent.proposal := proposal_p1;
     BusinessAgent.business_id := "business-1";
     BusinessAgent.customer_id := "customer-1";
     BusinessAgent.status := BusinessAgent.pending |}.

End Scenarios.
(** * Properties *)

(** ** Edit distance: the row algorithm computes the minimal edit script *)

Module LevenshteinFacts.
Import Levenshtein.
Section Generic.
Context {A : Type} `{EqDecision A}.
Implicit Types (s t u : list A) (a b c : A).

Lemma lev_nil_l t : lev [] t = length t.
Proof. by destruct t. Qed.

Lemma lev_nil_r s : lev s [] = length s.
Proof. by destruct s. Qed.

Lemma lev_cons a s b t :
  lev (a :: s) (b :: t) =
  Nat.min (lev s (b :: t) + 1)
          (Nat.min (lev (a :: s) t + 1) (lev s t + neq_cost a b)).
Proof. reflexivity. Qed.

Lemma neq_cost_sym a b : neq_cost a b = neq_cost b a.
Proof. unfold neq_cost. repeat case_decide; congruence. Qed.

Lemma neq_cost_le a b : neq_cost a b ≤ 1.
Proof. unfold neq_cost. case_decide; lia. Qed.

Lemma neq_cost_refl a : neq_cost a a = 0.
Proof. unfold neq_cost. case_decide; congruence. Qed.

Lemma lev_sym s t : lev s t = lev t s.
Proof.
  revert t. induction s as [|a s IHs]; intros t.
  - by rewrite lev_nil_l, lev_nil_r.
  - induction t as [|b t IHt].
    + by rewrite lev_nil_l, lev_nil_r.
    + rewrite !lev_cons, IHt, (IHs (b :: t)), (IHs t), (neq_cost_sym a b). lia.
Qed.

Lemma lev_refl s : lev s s = 0.
Proof.
  induction s as [|a s IH]; [done|].
  rewrite lev_cons, IH, neq_cost_refl. lia.
Qed.

Lemma lev_length_diff s t : length s - length t ≤ lev s t.
Proof.
  revert t. induction s as [|a s IHs]; intros t; [simpl; lia|].
  induction t as [|b t IHt]; [rewrite lev_nil_r; lia|].
  rewrite lev_cons. specialize (IHs (b :: t)) as H1. specialize (IHs t) as H2.
  simpl in *. lia.
Qed.

Lemma lev_zero s t : lev s t = 0 ↔ s = t.
Proof.
  split; [|intros ->; apply lev_refl].
  revert t. induction s as [|a s IHs]; intros t.
  - rewrite lev_nil_l. by destruct t.
  - destruct t as [|b t]; [done|].
    rewrite lev_cons. intros Hz.
    assert (lev s t + neq_cost a b = 0) as Hd by lia.
    unfold neq_cost in Hd. case_decide; [|lia].
    subst. f_equal. apply IHs. lia.
Qed.

Lemma lev_cons_le_l a s t : lev (a :: s) t ≤ lev s t + 1.
Proof.
  destruct t as [|b t]; [rewrite !lev_nil_r; cbn [length]; lia|].
  rewrite lev_cons. lia.
Qed.

Lemma lev_cons_le_r b s t : lev s (b :: t) ≤ lev s t + 1.
Proof. rewrite (lev_sym s (b :: t)), (lev_sym s t). apply lev_cons_le_l. Qed.

Lemma lev_del_r a s t : lev s t ≤ lev s (a :: t) + 1.
Proof.
  induction s as [|c s IHs].
  - rewrite !lev_nil_l. simpl. lia.
  - rewrite lev_cons. pose proof (lev_cons_le_l c s t). lia.
Qed.

Lemma lev_sub_r a b s t : lev s (b :: t) ≤ lev s (a :: t) + 1.
Proof.
  induction s as [|c s IHs].
  - rewrite !lev_nil_l. simpl. lia.
  - rewrite !lev_cons.
    pose proof (neq_cost_le c a). pose proof (neq_cost_le c b). lia.
Qed.

Lemma lev_cons_cong c t u :
  (∀ s, lev s u ≤ lev s t + 1) → ∀ s, lev s (c :: u) ≤ lev s (c :: t) + 1.
Proof.
  intros Hout s. induction s as [|d s IHs].
  - rewrite !lev_nil_l. specialize (Hout []). rewrite !lev_nil_l in Hout.
    simpl. lia.
  - rewrite !lev_cons.
    pose proof (Hout (d :: s)). pose proof (Hout s). lia.
Qed.

Lemma lev_step_r t u : edit_step t u → ∀ s, lev s u ≤ lev s t + 1.
Proof.
  intros [pre c post|pre c post|pre c d post];
    induction pre as [|x pre IH]; simpl;
    eauto using lev_cons_le_r, lev_del_r, lev_sub_r, lev_cons_cong.
Qed.

Lemma edit_step_sym s t : edit_step s t → edit_step t s.
Proof. intros []; constructor. Qed.

Lemma edit_step_cons c s t : edit_step s t → edit_step (c :: s) (c :: t).
Proof.
  intros [pre x post|pre x post|pre x d post].
  - apply (edit_insert (c :: pre)).
  - apply (edit_delete (c :: pre)).
  - apply (edit_subst (c :: pre)).
Qed.

Lemma edit_step_rev s t : edit_step s t → edit_step (rev s) (rev t).
Proof.
  intros [pre x post|pre x post|pre x d post];
    rewrite !rev_app_distr; simpl; rewrite <- ?app_assoc; simpl; constructor.
Qed.

Lemma edits_trans n m s t u : edits n s t → edits m t u → edits (n + m) s u.
Proof. induction 1; simpl; eauto using edits_cons. Qed.

Lemma edits_one s t : edit_step s t → edits 1 s t.
Proof. intros. eapply edits_cons; [done|constructor]. Qed.

Lemma edits_cons_cong c n s t : edits n s t → edits n (c :: s) (c :: t).
Proof. induction 1; econstructor; eauto using edit_step_cons. Qed.

Lemma edits_rev n s t : edits n s t → edits n (rev s) (rev t).
Proof. induction 1; econstructor; eauto using edit_step_rev. Qed.

Lemma edits_sym n s t : edits n s t → edits n t s.
Proof.
  induction 1 as [|n s t u Hst _ IH]; [constructor|].
  replace (S n) with (n + 1) by lia.
  eapply edits_trans; [exact IH|]. by apply edits_one, edit_step_sym.
Qed.

Lemma edits_insert_all t : edits (length t) [] t.
Proof.
  induction t as [|b t IH]; [constructor|]. simpl.
  replace (S (length t)) with (length t + 1) by lia.
  eapply edits_trans; [exact IH|]. apply edits_one, (edit_insert []).
Qed.

Lemma lev_le_edits n s t : edits n s t → lev s t ≤ n.
Proof.
  induction 1 as [s|n s t u Hst _ IH]; [by rewrite lev_refl|].
  rewrite (lev_sym s u).
  pose proof (lev_step_r t s (edit_step_sym _ _ Hst) u) as Hle.
  rewrite (lev_sym u t) in Hle. lia.
Qed.

Lemma edits_lev s t : edits (lev s t) s t.
Proof.
  revert t. induction s as [|a s IHs]; intros t.
  - rewrite lev_nil_l. apply edits_insert_all.
  - induction t as [|b t IHt].
    + rewrite lev_nil_r. apply edits_sym, edits_insert_all.
    + rewrite lev_cons.
      destruct (Nat.min_spec (lev s (b :: t) + 1)
                  (Nat.min (lev (a :: s) t + 1) (lev s t + neq_cost a b)))
        as [[_ ->]|[_ ->]].
      { replace (lev s (b :: t) + 1) with (S (lev s (b :: t))) by lia.
        eapply edits_cons; [apply (edit_delete [] a s)|apply IHs]. }
      destruct (Nat.min_spec (lev (a :: s) t + 1) (lev s t + neq_cost a b))
        as [[_ ->]|[_ ->]].
      { replace (lev (a :: s) t + 1) with (S (lev (a :: s) t)) by lia.
        eapply edits_cons; [apply (edit_insert [] b (a :: s))|].
        by apply edits_cons_cong. }
      unfold neq_cost. case_decide as Hab.
      * subst. rewrite Nat.add_0_r. apply edits_cons_cong, IHs.
      * replace (lev s t + 1) with (S (lev s t)) by lia.
        eapply edits_cons; [apply (edit_subst [] a b s)|].
        apply edits_cons_cong, IHs.
Qed.

Lemma lev_rev s t : lev (rev s) (rev t) = lev s t.
Proof.
  apply Nat.le_antisymm.
  - apply lev_le_edits, edits_rev, edits_lev.
  - rewrite <- (rev_involutive s), <- (rev_involutive t) at 1.
    apply lev_le_edits, edits_rev, edits_lev.
Qed.

Lemma lev_snoc a s b t :
  lev (s ++ [a]) (t ++ [b]) =
  Nat.min (lev s (t ++ [b]) + 1)
          (Nat.min (lev (s ++ [a]) t + 1) (lev s t + neq_cost a b)).
Proof.
  rewrite <- (lev_rev (s ++ [a]) (t ++ [b])), <- (lev_rev s (t ++ [b])),
    <- (lev_rev (s ++ [a]) t), <- (lev_rev s t).
  rewrite !rev_unit. apply lev_cons.
Qed.

Lemma map_length_prefixes (l : list A) :
  List.map length (prefixes l) = seq 0 (S (length l)).
Proof.
  induction l as [|b l IH]; [done|].
  cbn [prefixes List.map length]. rewrite List.map_map. cbn [length].
  rewrite <- (List.map_map length S), IH, seq_shift. reflexivity.
Qed.

Lemma last_map_prefixes {B} (f : list A → B) (l : list A) (d : B) :
  List.last (List.map f (prefixes l)) d = f l.
Proof.
  revert f. induction l as [|b l IH]; intros f; [done|].
  cbn [prefixes List.map]. rewrite List.map_map.
  specialize (IH (λ q, f (b :: q))).
  destruct (prefixes l) as [|p ps] eqn:E; [by destruct l|].
  exact IH.
Qed.

Lemma prefixes_head (l : list A) : ∃ P, prefixes l = [] :: P.
Proof. destruct l; simpl; eauto. Qed.

Lemma inner_row_spec c1 done s2 s2a :
  inner_row c1 s2 (List.map (λ q, lev done (s2a ++ q)) (prefixes s2))
            (lev (done ++ [c1]) s2a) =
  List.map (λ q, lev (done ++ [c1]) (s2a ++ q)) (List.tl (prefixes s2)).
Proof.
  revert s2a. induction s2 as [|c2 s2 IH]; intros s2a; [done|].
  specialize (IH (s2a ++ [c2])).
  destruct (prefixes_head s2) as [P E].
  cbn [prefixes List.map List.tl]. rewrite E in IH |- *.
  cbn [List.map List.tl inner_row] in IH |- *.
  rewrite !app_nil_r in *.
  rewrite <- (lev_snoc c1 done c2 s2a). f_equal.
  rewrite !List.map_map.
  rewrite (List.map_ext (λ x, lev done (s2a ++ c2 :: x))
             (λ x, lev done ((s2a ++ [c2]) ++ x)))
    by (intros; rewrite <- app_assoc; reflexivity).
  rewrite (List.map_ext (λ x, lev (done ++ [c1]) (s2a ++ c2 :: x))
             (λ x, lev (done ++ [c1]) ((s2a ++ [c2]) ++ x)))
    by (intros; rewrite <- app_assoc; reflexivity).
  exact IH.
Qed.

Lemma lev_snoc_nil a s : lev (s ++ [a]) [] = length s + 1.
Proof. rewrite lev_nil_r, length_app. reflexivity. Qed.

Lemma next_row_spec c1 done s2 :
  next_row c1 s2 (List.map (lev done) (prefixes s2)) (length done) =
  List.map (lev (done ++ [c1])) (prefixes s2).
Proof.
  unfold next_row. destruct (prefixes_head s2) as [P E].
  pose proof (inner_row_spec c1 done s2 []) as Hin.
  cbn [app] in Hin. rewrite lev_snoc_nil in Hin.
  change (λ q : list A, lev done q) with (lev done) in Hin.
  rewrite Hin, E. cbn [List.map List.tl]. rewrite lev_snoc_nil. reflexivity.
Qed.

Lemma outer_loop_spec s1 s2 done :
  outer_loop s1 s2 (length done) (List.map (lev done) (prefixes s2)) =
  List.map (lev (done ++ s1)) (prefixes s2).
Proof.
  revert done. induction s1 as [|c1 s1 IH]; intros done.
  - by rewrite app_nil_r.
  - cbn [outer_loop]. rewrite next_row_spec.
    replace (S (length done)) with (length (done ++ [c1]))
      by (rewrite length_app; simpl; lia).
    rewrite IH, <- app_assoc. reflexivity.
Qed.

Lemma levenshtein_rows_lev s1 s2 : levenshtein_rows s1 s2 = lev s1 s2.
Proof.
  unfold levenshtein_rows. destruct (Nat.eqb_spec (length s2) 0) as [Hz|Hnz].
  - destruct s2; [|done]. by rewrite lev_nil_r.
  - replace (length s2 + 1) with (S (length s2)) by lia.
    rewrite <- map_length_prefixes.
    erewrite (List.map_ext length (lev [])) by (intros; by rewrite lev_nil_l).
    pose proof (outer_loop_spec s1 s2 []) as Hrows.
    cbn [length app] in Hrows. rewrite Hrows. apply last_map_prefixes.
Qed.

Lemma levenshtein_distance_lev s1 s2 : levenshtein_distance s1 s2 = lev s1 s2.
Proof.
  unfold levenshtein_distance. destruct (length s1 <? length s2).
  - rewrite levenshtein_rows_lev. apply lev_sym.
  - apply levenshtein_rows_lev.
Qed.

(** C9: [levenshtein_distance s1 s2] is the Levenshtein edit distance of
    the two strings: [s2] is obtained from [s1] by that many single-character
    insertions, deletions and substitutions, and by no fewer; the distance is
    symmetric, and it is [0] exactly when the strings are equal. *)
Theorem levenshtein_distance_correct (s1 s2 : list A) :
  edits (levenshtein_distance s1 s2) s1 s2
  ∧ (∀ n, edits n s1 s2 → levenshtein_distance s1 s2 ≤ n)
  ∧ levenshtein_distance s1 s2 = levenshtein_distance s2 s1
  ∧ (levenshtein_distance s1 s2 = 0 ↔ s1 = s2).
Proof.
  rewrite !levenshtein_distance_lev. split_and!.
  - apply edits_lev.
  - intros n. apply lev_le_edits.
  - apply lev_sym.
  - apply lev_zero.
Qed.

End Generic.
End LevenshteinFacts.

(** ** Rounding to the nearest float is monotone *)

Module PyFloatFacts.
Import PyOrder PyFloat.
Local Open Scope Q_scope.

(** Rounding is monotone. *)
Lemma round_half_even_mono (q1 q2 : Q) :
  q1 <= q2 → (round_half_even q1 ≤ round_half_even q2)%Z.
Proof.
  intros Hle. unfold round_half_even.
  pose proof (Qfloor_resp_le q1 q2 Hle) as Hfloor.
  destruct (Qcompare_spec (q1 - inject_Z (Qfloor q1)) (1 # 2)) as [E1|L1|G1];
    destruct (Qcompare_spec (q2 - inject_Z (Qfloor q2)) (1 # 2))
      as [E2|L2|G2];
    destruct (Z.even (Qfloor q1)) eqn:Ev1;
    destruct (Z.even (Qfloor q2)) eqn:Ev2;
    try lia;
    destruct (decide (Qfloor q1 = Qfloor q2)) as [Heq|Hne]; try lia;
    try (rewrite Heq in Ev1; congruence);
    exfalso; rewrite Heq in *;
    match goal with
    | H1 : (_ - _ == 1 # 2)%Q, H2 : (_ - _ < 1 # 2)%Q |- _ =>
        rewrite <- H1 in H2; apply Qlt_not_le in H2; apply H2;
        by apply Qplus_le_l
    | H1 : (1 # 2 < _ - _)%Q, H2 : (_ - _ == 1 # 2)%Q |- _ =>
        rewrite <- H2 in H1; apply Qlt_not_le in H1; apply H1;
        by apply Qplus_le_l
    | H1 : (1 # 2 < _ - _)%Q, H2 : (_ - _ < 1 # 2)%Q |- _ =>
        apply (Qlt_trans _ _ _ H2) in H1; apply Qlt_not_le in H1; apply H1;
        by apply Qplus_le_l
    end.
Qed.

Lemma round_half_even_Z (z : Z) : round_half_even (inject_Z z) = z.
Proof.
  unfold round_half_even. rewrite Qfloor_Z.
  assert (Hc : Qcompare (inject_Z z - inject_Z z) (1 # 2) = Lt).
  { apply Qlt_alt. assert (Hd : inject_Z z - inject_Z z == 0) by ring.
    by rewrite Hd. }
  by rewrite Hc.
Qed.

Lemma round_half_even_le (q : Q) (z : Z) :
  q <= inject_Z z → (round_half_even q ≤ z)%Z.
Proof.
  intros Hle. rewrite <- (round_half_even_Z z). by apply round_half_even_mono.
Qed.

Lemma round_half_even_ge (q : Q) (z : Z) :
  inject_Z z <= q → (z ≤ round_half_even q)%Z.
Proof.
  intros Hle. rewrite <- (round_half_even_Z z) at 1.
  by apply round_half_even_mono.
Qed.

Lemma pow2_pos (e : Z) : 0 < 2 ^ e.
Proof. by apply Qpower_0_lt. Qed.

Lemma pow2_le (a b : Z) : (a ≤ b)%Z → 2 ^ a <= 2 ^ b.
Proof. intros Hle. by apply Qpower_le_compat_l. Qed.

Lemma pow2_lt_inv (a b : Z) : 2 ^ a < 2 ^ b → (a < b)%Z.
Proof. intros Hlt. by apply (Qpower_lt_compat_l_inv 2). Qed.

Lemma pow2_add (a b : Z) : 2 ^ (a + b) == 2 ^ a * 2 ^ b.
Proof. by apply Qpower_plus. Qed.

Lemma pow2_Z (n : Z) : (0 ≤ n)%Z → 2 ^ n == inject_Z (2 ^ n).
Proof. intros Hn. symmetry. by apply (Zpower_Qpower 2). Qed.


(** A quotient of integers against a power of two. *)
Lemma Qmake_lt_pow2 (n : Z) (d : positive) (a b : Z) :
  (0 ≤ a)%Z → (0 ≤ b)%Z →
  (n * 2 ^ b < 2 ^ a * Z.pos d)%Z → n # d < 2 ^ (a - b).
Proof.
  intros Ha Hb Hlt.
  assert (Hd : 0 < inject_Z (Z.pos d) * 2 ^ b).
  { apply Qmult_lt_0_compat; [done|apply pow2_pos]. }
  apply (Qmult_lt_r _ _ _ Hd).
  assert (Hl : (n # d) * (inject_Z (Z.pos d) * 2 ^ b)
               == inject_Z (n * 2 ^ b)).
  { rewrite (pow2_Z b Hb), inject_Z_mult, (Qmake_Qdiv n d). field.
    by intros Hz. }
  assert (Hr : 2 ^ (a - b) * (inject_Z (Z.pos d) * 2 ^ b)
               == inject_Z (2 ^ a * Z.pos d)).
  { rewrite inject_Z_mult, <- (pow2_Z a Ha).
    replace a with (a - b + b)%Z at 2 by lia. rewrite pow2_add. ring. }
  rewrite Hl, Hr. by rewrite <- Zlt_Qlt.
Qed.

Lemma Qmake_ge_pow2 (n : Z) (d : positive) (a b : Z) :
  (0 ≤ a)%Z → (0 ≤ b)%Z →
  (2 ^ a * Z.pos d ≤ n * 2 ^ b)%Z → 2 ^ (a - b) <= n # d.
Proof.
  intros Ha Hb Hle.
  assert (Hd : 0 < inject_Z (Z.pos d) * 2 ^ b).
  { apply Qmult_lt_0_compat; [done|apply pow2_pos]. }
  apply (Qmult_le_r _ _ _ Hd).
  assert (Hl : (n # d) * (inject_Z (Z.pos d) * 2 ^ b)
               == inject_Z (n * 2 ^ b)).
  { rewrite (pow2_Z b Hb), inject_Z_mult, (Qmake_Qdiv n d). field.
    by intros Hz. }
  assert (Hr : 2 ^ (a - b) * (inject_Z (Z.pos d) * 2 ^ b)
               == inject_Z (2 ^ a * Z.pos d)).
  { rewrite inject_Z_mult, <- (pow2_Z a Ha).
    replace a with (a - b + b)%Z at 2 by lia. rewrite pow2_add. ring. }
  rewrite Hl, Hr. by rewrite <- Zle_Qle.
Qed.

(** [mag x] is the exponent of the binade of [x]. *)
Lemma mag_spec (x : Q) :
  ¬ x == 0 → 2 ^ (mag x - 1) <= Qabs x ∧ Qabs x < 2 ^ mag x.
Proof.
  intros Hx. unfold mag. destruct x as [n d]. cbn [Qnum Qden Qabs].
  assert (Hn : (0 < Z.abs n)%Z).
  { destruct n; [|lia..]. exfalso. apply Hx. reflexivity. }
  destruct (Z.log2_spec (Z.abs n) Hn) as [Hn1 Hn2].
  destruct (Z.log2_spec (Z.pos d) ltac:(lia)) as [Hd1 Hd2].
  pose proof (Z.log2_nonneg (Z.abs n)) as Ha.
  pose proof (Z.log2_nonneg (Z.pos d)) as Hb.
  set (a := Z.log2 (Z.abs n)) in *. set (b := Z.log2 (Z.pos d)) in *.
  destruct (Qle_bool (2 ^ (a - b)) (Z.abs n # d)) eqn:Hcmp.
  - apply Qle_bool_iff in Hcmp.
    replace (a - b + 1 - 1)%Z with (a - b)%Z by lia. split; [done|].
    replace (a - b + 1)%Z with (a + 1 - b)%Z by lia.
    apply Qmake_lt_pow2; [lia..|].
    replace (Z.succ a) with (a + 1)%Z in Hn2 by lia. nia.
  - split.
    + replace (a - b - 1)%Z with (a - (b + 1))%Z by lia.
      apply Qmake_ge_pow2; [lia..|].
      replace (Z.succ b) with (b + 1)%Z in Hd2 by lia. nia.
    + apply Qnot_le_lt. intros Hle. apply Qle_bool_iff in Hle. congruence.
Qed.


Lemma mag_le (x y : Q) :
  ¬ x == 0 → ¬ y == 0 → Qabs x <= Qabs y → (mag x ≤ mag y)%Z.
Proof.
  intros Hx Hy Hle.
  destruct (mag_spec x Hx) as [Hx1 _]. destruct (mag_spec y Hy) as [_ Hy2].
  assert (Hlt : 2 ^ (mag x - 1) < 2 ^ mag y).
  { eapply Qle_lt_trans; [exact Hx1|]. eapply Qle_lt_trans; done. }
  apply pow2_lt_inv in Hlt. lia.
Qed.

Lemma ulp_exponent_le (x y : Q) :
  ¬ x == 0 → ¬ y == 0 → Qabs x <= Qabs y →
  (ulp_exponent x ≤ ulp_exponent y)%Z.
Proof.
  intros Hx Hy Hle. pose proof (mag_le x y Hx Hy Hle). unfold ulp_exponent.
  lia.
Qed.

(** A multiple of the last place on one side of [x] is on the same side of
    the float nearest to [x]. *)
Lemma rnd_le_grid (x : Q) (m : Z) :
  x <= inject_Z m * 2 ^ ulp_exponent x →
  rnd x <= inject_Z m * 2 ^ ulp_exponent x.
Proof.
  intros Hle. unfold rnd. cbv zeta.
  apply Qmult_le_compat_r; [|apply Qlt_le_weak, pow2_pos].
  rewrite <- Zle_Qle. apply round_half_even_le.
  apply Qle_shift_div_r; [apply pow2_pos|done].
Qed.

Lemma rnd_ge_grid (x : Q) (m : Z) :
  inject_Z m * 2 ^ ulp_exponent x <= x →
  inject_Z m * 2 ^ ulp_exponent x <= rnd x.
Proof.
  intros Hle. unfold rnd. cbv zeta.
  apply Qmult_le_compat_r; [|apply Qlt_le_weak, pow2_pos].
  rewrite <- Zle_Qle. apply round_half_even_ge.
  apply Qle_shift_div_l; [apply pow2_pos|done].
Qed.

Lemma pow2_grid (k e : Z) :
  (e ≤ k)%Z → 2 ^ k == inject_Z (2 ^ (k - e)) * 2 ^ e.
Proof.
  intros Hle. rewrite <- pow2_Z by lia. rewrite <- pow2_add.
  by replace (k - e + e)%Z with k by lia.
Qed.

Lemma opp_pow2_grid (k e : Z) :
  (e ≤ k)%Z → - 2 ^ k == inject_Z (- 2 ^ (k - e)) * 2 ^ e.
Proof.
  intros Hle. rewrite inject_Z_opp, (pow2_grid k e Hle). ring.
Qed.

Lemma rnd_nonneg (x : Q) : 0 <= x → 0 <= rnd x.
Proof.
  intros Hx.
  assert (H0 : inject_Z 0 * 2 ^ ulp_exponent x == 0) by ring.
  rewrite <- H0. apply rnd_ge_grid. by rewrite H0.
Qed.

Lemma rnd_nonpos (x : Q) : x <= 0 → rnd x <= 0.
Proof.
  intros Hx.
  assert (H0 : inject_Z 0 * 2 ^ ulp_exponent x == 0) by ring.
  rewrite <- H0. apply rnd_le_grid. by rewrite H0.
Qed.

Lemma rnd_le_pow2 (x : Q) (k : Z) :
  (ulp_exponent x ≤ k)%Z → x <= 2 ^ k → rnd x <= 2 ^ k.
Proof.
  intros He Hx. rewrite (pow2_grid k _ He) in Hx |- *. by apply rnd_le_grid.
Qed.

Lemma rnd_ge_pow2 (x : Q) (k : Z) :
  (ulp_exponent x ≤ k)%Z → 2 ^ k <= x → 2 ^ k <= rnd x.
Proof.
  intros He Hx. rewrite (pow2_grid k _ He) in Hx |- *. by apply rnd_ge_grid.
Qed.

Lemma rnd_le_opp_pow2 (x : Q) (k : Z) :
  (ulp_exponent x ≤ k)%Z → x <= - 2 ^ k → rnd x <= - 2 ^ k.
Proof.
  intros He Hx. rewrite (opp_pow2_grid k _ He) in Hx |- *.
  by apply rnd_le_grid.
Qed.

Lemma rnd_ge_opp_pow2 (x : Q) (k : Z) :
  (ulp_exponent x ≤ k)%Z → - 2 ^ k <= x → - 2 ^ k <= rnd x.
Proof.
  intros He Hx. rewrite (opp_pow2_grid k _ He) in Hx |- *.
  by apply rnd_ge_grid.
Qed.

Lemma rnd_same_exponent (x y : Q) :
  ulp_exponent x = ulp_exponent y → x <= y → rnd x <= rnd y.
Proof.
  intros He Hle. unfold rnd. cbv zeta. rewrite He.
  apply Qmult_le_compat_r; [|apply Qlt_le_weak, pow2_pos].
  rewrite <- Zle_Qle. apply round_half_even_mono.
  apply Qmult_le_compat_r; [done|].
  apply Qlt_le_weak, Qinv_lt_0_compat, pow2_pos.
Qed.

Lemma rnd_mono_pos (x y : Q) : 0 < x → x <= y → rnd x <= rnd y.
Proof.
  intros Hx Hle.
  assert (Hy : 0 < y) by (by eapply Qlt_le_trans).
  assert (Hx0 : ¬ x == 0) by (intros H0; rewrite H0 in Hx; done).
  assert (Hy0 : ¬ y == 0) by (intros H0; rewrite H0 in Hy; done).
  assert (Hax : Qabs x == x) by (apply Qabs_pos; by apply Qlt_le_weak).
  assert (Hay : Qabs y == y) by (apply Qabs_pos; by apply Qlt_le_weak).
  assert (Habs : Qabs x <= Qabs y) by (by rewrite Hax, Hay).
  pose proof (mag_le x y Hx0 Hy0 Habs) as Hmag.
  destruct (decide (ulp_exponent x = ulp_exponent y)) as [He|Hne].
  { by apply rnd_same_exponent. }
  assert (He : (ulp_exponent x < mag y - 53 ∧ mag x < mag y
                ∧ ulp_exponent y = mag y - 53)%Z)
    by (unfold ulp_exponent in *; lia).
  destruct He as (He1 & He2 & He3).
  destruct (mag_spec x Hx0) as [_ Hx2]. destruct (mag_spec y Hy0) as [Hy1 _].
  rewrite Hax in Hx2. rewrite Hay in Hy1.
  apply Qle_trans with (2 ^ (mag y - 1)).
  - apply rnd_le_pow2; [lia|].
    apply Qle_trans with (2 ^ mag x); [by apply Qlt_le_weak|].
    apply pow2_le. lia.
  - apply rnd_ge_pow2; [lia|done].
Qed.

Lemma rnd_mono_neg (x y : Q) : y < 0 → x <= y → rnd x <= rnd y.
Proof.
  intros Hy Hle.
  assert (Hx : x < 0) by (by eapply Qle_lt_trans).
  assert (Hx0 : ¬ x == 0) by (intros H0; rewrite H0 in Hx; done).
  assert (Hy0 : ¬ y == 0) by (intros H0; rewrite H0 in Hy; done).
  assert (Hax : Qabs x == - x) by (apply Qabs_neg; by apply Qlt_le_weak).
  assert (Hay : Qabs y == - y) by (apply Qabs_neg; by apply Qlt_le_weak).
  assert (Habs : Qabs y <= Qabs x)
    by (rewrite Hax, Hay; by apply Qopp_le_compat).
  pose proof (mag_le y x Hy0 Hx0 Habs) as Hmag.
  destruct (decide (ulp_exponent x = ulp_exponent y)) as [He|Hne].
  { by apply rnd_same_exponent. }
  assert (He : (ulp_exponent y < mag x - 53 ∧ mag y < mag x
                ∧ ulp_exponent x = mag x - 53)%Z)
    by (unfold ulp_exponent in *; lia).
  destruct He as (He1 & He2 & He3).
  destruct (mag_spec y Hy0) as [_ Hy2]. destruct (mag_spec x Hx0) as [Hx1 _].
  rewrite Hay in Hy2. rewrite Hax in Hx1.
  apply Qle_trans with (- 2 ^ (mag x - 1)).
  - apply rnd_le_opp_pow2; [lia|].
    apply Qopp_le_compat in Hx1. by rewrite Qopp_involutive in Hx1.
  - apply rnd_ge_opp_pow2; [lia|].
    apply Qle_trans with (- 2 ^ mag y).
    + apply Qopp_le_compat, pow2_le. lia.
    + apply Qlt_le_weak, Qopp_le_compat in Hy2.
      by rewrite Qopp_involutive in Hy2.
Qed.

(** Rounding to the nearest float is monotone. *)
Lemma rnd_mono (x y : Q) : x <= y → rnd x <= rnd y.
Proof.
  intros Hle. destruct (Qlt_le_dec 0 x) as [Hx|Hx].
  { by apply rnd_mono_pos. }
  destruct (Qlt_le_dec y 0) as [Hy|Hy].
  { by apply rnd_mono_neg. }
  apply Qle_trans with 0; [by apply rnd_nonpos|by apply rnd_nonneg].
Qed.

Lemma sub_mono_l (x y t : Q) : x <= y → sub x t <= sub y t.
Proof.
  intros Hle. unfold sub. apply rnd_mono.
  unfold Qminus. by apply Qplus_le_l.
Qed.

Lemma round_mono (x y : Q) (ndigits : Z) :
  x <= y → round x ndigits <= round y ndigits.
Proof.
  intros Hle. unfold round. apply rnd_mono.
  assert (Hpos : 0 < 10 ^ ndigits) by (by apply Qpower_0_lt).
  apply Qmult_le_compat_r; [|by apply Qlt_le_weak, Qinv_lt_0_compat].
  rewrite <- Zle_Qle. apply round_half_even_mono.
  apply Qmult_le_compat_r; [done|by apply Qlt_le_weak].
Qed.

End PyFloatFacts.

(** ** The lexicographic order of tuples is a total order *)

Module PyOrderFacts.
Import PyOrder.

Section Lex.
Context {A B : Type} (RA : relation A) (RB : relation B).
Context `{EqDecision A}.
Context `{!PartialOrder RA, !Total RA, !PartialOrder RB, !Total RB}.

#[export] Instance lex_le_refl : Reflexive (lex_le RA RB).
Proof. intros [a b]. right. done. Qed.

#[export] Instance lex_le_trans : Transitive (lex_le RA RB).
Proof.
  intros [a1 b1] [a2 b2] [a3 b3]. unfold lex_le. simpl.
  intros [[Hne1 H1]|[-> H1]] [[Hne2 H2]|[-> H2]].
  - left. split; [|by trans a2]. intros ->.
    apply Hne1. by apply (anti_symm RA).
  - left. done.
  - left. done.
  - right. split; [done|]. by trans b2.
Qed.

#[export] Instance lex_le_antisymm : AntiSymm (=) (lex_le RA RB).
Proof.
  intros [a1 b1] [a2 b2]. unfold lex_le. simpl.
  intros [[Hne1 H1]|[-> H1]] [[Hne2 H2]|[Heq H2]].
  - exfalso. apply Hne1. by apply (anti_symm RA).
  - by destruct Hne1.
  - by destruct Hne2.
  - f_equal. by apply (anti_symm RB).
Qed.

#[export] Instance lex_le_po : PartialOrder (lex_le RA RB).
Proof. split; [split|]; apply _. Qed.

#[export] Instance lex_le_total : Total (lex_le RA RB).
Proof.
  intros [a1 b1] [a2 b2]. unfold lex_le. simpl.
  destruct (decide (a1 = a2)) as [->|Hne].
  - destruct (total RB b1 b2); [left|right]; right; done.
  - destruct (total RA a1 a2); [left|right]; left; split; done.
Qed.

End Lex.

(** Sorting with a total order gives one result for all arrangements of
    the same elements. *)
Lemma merge_sort_perm {A} (R : relation A) `{RelDecision A A R}
  `{!PartialOrder R, !Total R} (l1 l2 : list A) :
  l1 ≡ₚ l2 → merge_sort R l1 = merge_sort R l2.
Proof.
  intros Hp. apply (StronglySorted_unique R).
  - apply StronglySorted_merge_sort; apply _.
  - apply StronglySorted_merge_sort; apply _.
  - by rewrite !merge_sort_Permutation.
Qed.

Lemma flat_map_perm {A B} (f g : A → list B) (l1 l2 : list A) :
  (∀ x, f x ≡ₚ g x) → l1 ≡ₚ l2 → flat_map f l1 ≡ₚ flat_map g l2.
Proof.
  intros Hfg Hl. trans (flat_map g l1).
  - clear Hl. induction l1 as [|x l1 IH]; simpl; [done|]. by rewrite Hfg, IH.
  - by apply Permutation_flat_map.
Qed.

End PyOrderFacts.

(** ** Sorting by key *)

Module SortFacts.
Import PyOrder.

Section SortByKey.
Context {A : Type} (key : A → Z).

Lemma insert_by_key_perm x l : insert_by_key key x l ≡ₚ x :: l.
Proof.
  induction l as [|y l IH]; simpl; [done|].
  destruct (key x <=? key y)%Z; [done|]. by rewrite IH, Permutation_swap.
Qed.

Lemma sort_by_key_perm l : sort_by_key key l ≡ₚ l.
Proof.
  induction l as [|x l IH]; [done|].
  cbn [sort_by_key foldr]. fold (sort_by_key key l).
  by rewrite insert_by_key_perm, IH.
Qed.

Lemma elem_of_sort_by_key l x : x ∈ sort_by_key key l ↔ x ∈ l.
Proof. by rewrite sort_by_key_perm. Qed.

Lemma length_sort_by_key l : length (sort_by_key key l) = length l.
Proof. apply Permutation_length, sort_by_key_perm. Qed.

Lemma sort_by_key_cons x l :
  sort_by_key key (x :: l) = insert_by_key key x (sort_by_key key l).
Proof. reflexivity. Qed.

Lemma insert_by_key_sorted x l :
  key_sorted key l → key_sorted key (insert_by_key key x l).
Proof.
  unfold key_sorted. induction 1 as [|y l Hs IH Hall]; simpl.
  - repeat constructor.
  - destruct (Z.leb_spec (key x) (key y)) as [Hle|Hgt].
    + constructor; [by constructor|]. constructor; [done|].
      eapply Forall_impl; [exact Hall|]. simpl. intros. lia.
    + constructor; [done|].
      rewrite (insert_by_key_perm x l). constructor; [lia|done].
Qed.

Lemma sort_by_key_sorted l : key_sorted key (sort_by_key key l).
Proof.
  induction l as [|x l IH]; [constructor|].
  rewrite sort_by_key_cons. by apply insert_by_key_sorted.
Qed.

(** A list whose keys never decrease is left as it is. *)
Lemma sort_by_key_id l : key_sorted key l → sort_by_key key l = l.
Proof.
  unfold key_sorted. induction 1 as [|x l Hs IH Hall]; [done|].
  rewrite sort_by_key_cons, IH. destruct l as [|y l]; [done|]. simpl.
  apply Forall_cons in Hall as [Hxy _].
  by destruct (Z.leb_spec (key x) (key y)); [|lia].
Qed.

End SortByKey.

End SortFacts.


(** ** Payment validation in [execute_send_message] *)

Module SendMessageFacts.
Import Messaging Platform SendMessageProtocol Examples.

Lemma elem_of_collect_order_proposals business proposal_id rows p :
  p ∈ collect_order_proposals
        (List.filter (order_proposal_query business proposal_id) rows) ↔
  ∃ row a, row ∈ rows ∧ ar_request row = ActSendMessage a ∧
    from_agent_id a = business ∧ message a = MsgOrderProposal p ∧
    op_id p = proposal_id.
Proof.
  unfold collect_order_proposals. rewrite list_elem_of_omap. split.
  - intros (row & Hin & Hsome).
    apply list_elem_of_In, List.filter_In in Hin as [Hin Hq].
    apply list_elem_of_In in Hin. unfold order_proposal_query in Hq.
    destruct (ar_request row) as [a| |] eqn:Hreq; try done.
    destruct (message a) as [|p'|] eqn:Hmsg; try done.
    injection Hsome as ->.
    apply andb_true_iff in Hq as [Hb%bool_decide_eq_true Hp%bool_decide_eq_true].
    by exists row, a.
  - intros (row & a & Hin & Hreq & Hb & Hmsg & Hp). exists row. split.
    + apply list_elem_of_In, List.filter_In. split; [by apply list_elem_of_In|].
      unfold order_proposal_query. rewrite Hreq, Hmsg.
      apply andb_true_iff. by rewrite !bool_decide_eq_true.
    + by rewrite Hreq, Hmsg.
Qed.

Lemma validate_payment database send_message payment :
  message send_message = MsgPayment payment →
  (_validate_message_content send_message database = None ↔
   sent_by_target database send_message (proposal_message_id payment)) ∧
  (_validate_message_content send_message database = None ∨
   _validate_message_content send_message database =
     Some ("invalid_proposal",
           "No unexpired order proposals found with id "
           +:+ proposal_message_id payment)).
Proof.
  intros Hmsg. unfold _validate_message_content, find. rewrite Hmsg.
  destruct (collect_order_proposals _) as [|p ps] eqn:Hc.
  - split; [|by right]. split; [done|].
    intros (p & recipient & Hid & row & a & Hin & Hreq & Hfrom & Hto & Hm).
    assert (p ∈ @nil OrderProposal) as Hnil; [|by apply elem_of_nil in Hnil].
    rewrite <- Hc. apply elem_of_collect_order_proposals. by exists row, a.
  - split; [|by left]. split; [|done]. intros _.
    assert (p ∈ p :: ps) as Hp by left. rewrite <- Hc in Hp.
    apply elem_of_collect_order_proposals in Hp
      as (row & a & Hin & Hreq & Hfrom & Hm & Hid).
    exists p, (to_agent_id a). split; [done|]. by exists row, a.
Qed.

(** C1, as the specification states it, fails: customer-2 pays for a
    proposal that business-1 sent to customer-1 only, and the send is
    accepted. *)
Lemma payment_for_foreign_proposal_accepted :
  ¬ (is_error (execute_send_message (payment_from "customer-2") database_p1)
       = false ↔
     sent_to_this_sender database_p1 (payment_from "customer-2") "p1").
Proof.
  intros [Hclaim _].
  destruct (Hclaim eq_refl)
    as (p & Hid & row & a & Hin & Hreq & Hfrom & Hto & Hm).
  apply list_elem_of_singleton in Hin as ->.
  simpl in Hreq. injection Hreq as <-. simpl in Hto. discriminate.
Qed.

(** C1 (amended): for a [SendMessage] whose message is a [Payment] for
    proposal id [p], [execute_send_message] returns a non-error result if and
    only if the target agent exists and the log holds a [SendMessage] from
    the target that carries an order proposal with id [p], whoever it was
    sent to and whatever its expiry time; when the target exists and there is
    no such proposal the result is an error whose [error_type] is
    [invalid_proposal]. *)
Theorem execute_send_message_payment database send_message payment :
  message send_message = MsgPayment payment →
  (is_error (execute_send_message send_message database) = false ↔
   to_agent_id send_message ∈ agents database ∧
   sent_by_target database send_message (proposal_message_id payment)) ∧
  (to_agent_id send_message ∈ agents database →
   ¬ sent_by_target database send_message (proposal_message_id payment) →
   ∃ msg, execute_send_message send_message database =
     {| content := ContentValidationError "invalid_proposal" msg;
        is_error := true; metadata := None |}).
Proof.
  intros Hmsg.
  destruct (validate_payment database send_message payment Hmsg)
    as [Hiff Hcases].
  unfold execute_send_message. case_decide as Hto.
  - destruct Hcases as [Hv|Hv]; rewrite Hv; simpl.
    + split; [|intros _ Hn; by apply Hiff in Hv].
      split; [intros _; split; [done|by apply Hiff]|done].
    + split; [|eauto]. split; [done|]. intros [_ Hs%Hiff]. congruence.
  - simpl. split; [|done]. split; [done|]. by intros [? _].
Qed.

Lemma execute_send_message_payment_witness :
  message (payment_from "customer-1") = MsgPayment (pay "p1") ∧
  (is_error (execute_send_message (payment_from "customer-1") database_p1)
     = false ↔
   to_agent_id (payment_from "customer-1") ∈ agents database_p1 ∧
   sent_by_target database_p1 (payment_from "customer-1") "p1").
Proof.
  split; [reflexivity|].
  apply (execute_send_message_payment database_p1
           (payment_from "customer-1") (pay "p1")).
  reflexivity.
Defined.

End SendMessageFacts.

(** ** The business ledger accepts a proposal at most once *)

Module BusinessAgentFacts.
Import Messaging BusinessAgent Examples.

Section Handler.
Variable generate_payment_confirmation : string → Q → TextMessage.
Variable generate_proposal_not_found_error : string → TextMessage.

Abbreviation handle := (_handle_payment generate_payment_confirmation
                          generate_proposal_not_found_error).
Abbreviation run_all := (run generate_payment_confirmation
                           generate_proposal_not_found_error).
Abbreviation accepted_ids := (accepted_in generate_payment_confirmation
                                generate_proposal_not_found_error).

Lemma status_of_update self proposal_id new_status q :
  is_Some (proposal_storage self !! proposal_id) →
  status <$> (update_proposal_status proposal_id new_status
                (proposal_storage self)).1 !! q =
  if decide (q = proposal_id) then Some new_status
  else status <$> proposal_storage self !! q.
Proof.
  intros [r Hr]. unfold update_proposal_status. rewrite Hr. simpl.
  case_decide as Hq.
  - subst. by rewrite lookup_insert_eq.
  - by rewrite lookup_insert_ne.
Qed.

(** A payment for a pending proposal is accepted. *)
Lemma handle_payment_pending self customer payment stored :
  proposal_storage self !! proposal_message_id payment = Some stored →
  status stored = pending →
  ∃ self',
    handle self customer payment =
      (self', generate_payment_confirmation (proposal_message_id payment)
                (total_price (proposal stored))) ∧
    status_of self' (proposal_message_id payment) = Some accepted ∧
    (∀ q, q ≠ proposal_message_id payment → status_of self' q = status_of self q) ∧
    confirmed_orders self' =
      confirmed_orders self ++ [proposal_message_id payment].
Proof.
  intros Hget Hst. unfold _handle_payment, get_proposal. rewrite Hget.
  rewrite decide_True by done. eexists. split; [reflexivity|].
  unfold status_of. simpl. split_and!; [|intros q Hq|done].
  - rewrite status_of_update by eauto. by rewrite decide_True.
  - rewrite status_of_update by eauto. by rewrite decide_False.
Qed.

(** A payment for a proposal that is unknown or no longer pending changes
    nothing and is answered with the error message. *)
Lemma handle_payment_rejected self customer payment :
  status_of self (proposal_message_id payment) ≠ Some pending →
  handle self customer payment =
    (self, generate_proposal_not_found_error (proposal_message_id payment)).
Proof.
  intros Hst. unfold _handle_payment, get_proposal. unfold status_of in Hst.
  destruct (proposal_storage self !! proposal_message_id payment) as [r|];
    [|done].
  simpl in Hst. rewrite decide_False; [done|congruence].
Qed.

Lemma handle_payment_cases self customer payment :
  (status_of self (proposal_message_id payment) = Some pending ∧
   ∃ stored self',
     proposal_storage self !! proposal_message_id payment = Some stored ∧
     handle self customer payment =
       (self', generate_payment_confirmation (proposal_message_id payment)
                 (total_price (proposal stored))) ∧
     status_of self' (proposal_message_id payment) = Some accepted ∧
     (∀ q, q ≠ proposal_message_id payment →
           status_of self' q = status_of self q) ∧
     confirmed_orders self' =
       confirmed_orders self ++ [proposal_message_id payment]) ∨
  (status_of self (proposal_message_id payment) ≠ Some pending ∧
   handle self customer payment =
     (self, generate_proposal_not_found_error (proposal_message_id payment))).
Proof.
  destruct (decide (status_of self (proposal_message_id payment) = Some pending))
    as [Hp|Hp].
  - left. split; [done|]. unfold status_of in Hp.
    destruct (proposal_storage self !! proposal_message_id payment)
      as [stored|] eqn:Hget; [|done].
    simpl in Hp. injection Hp as Hp.
    destruct (handle_payment_pending self customer payment stored Hget Hp)
      as (self' & ?). by exists stored, self'.
  - right. split; [done|]. by apply handle_payment_rejected.
Qed.

Lemma handle_payment_consistent self customer payment :
  ledger_consistent self →
  ledger_consistent (handle self customer payment).1.
Proof.
  intros [Hnd Hconf].
  destruct (handle_payment_cases self customer payment)
    as [(Hp & stored & self' & _ & -> & Hacc & Hother & Horders)|[_ ->]];
    [|done].
  simpl. split.
  - rewrite Horders. apply NoDup_app. split_and!; [done| |apply NoDup_singleton].
    intros q Hq ->%list_elem_of_singleton. by apply (Hconf _ Hq).
  - intros q. rewrite Horders, elem_of_app, list_elem_of_singleton.
    destruct (decide (q = proposal_message_id payment)) as [->|Hne].
    + intros _. by rewrite Hacc.
    + rewrite Hother by done. intros [Hq|?]; [by apply Hconf|done].
Qed.

Lemma add_proposal_consistent self self_id p customer :
  proposal_storage self !! op_id p = None →
  ledger_consistent self →
  ledger_consistent
    {| proposal_storage :=
         add_proposal p self_id customer (proposal_storage self);
       confirmed_orders := confirmed_orders self |}.
Proof.
  intros Hfresh [Hnd Hconf]. split; [done|].
  intros q Hq. destruct (Hconf q Hq) as [Hsome Hnp].
  unfold status_of, add_proposal in *. cbn [proposal_storage confirmed_orders].
  destruct (decide (q = op_id p)) as [->|Hne].
  - rewrite Hfresh in Hsome. by destruct Hsome.
  - by rewrite lookup_insert_ne.
Qed.

Lemma run_orders self_id self events :
  confirmed_orders (run_all self_id self events).1 =
  confirmed_orders self ++ accepted_ids self_id self events.
Proof.
  revert self. induction events as [|[p customer|customer payment] rest IH];
    intros self.
  - simpl. by rewrite app_nil_r.
  - cbn [run accepted_in]. by rewrite IH.
  - cbn [run accepted_in].
    destruct (handle self customer payment) as [self' reply] eqn:Hh.
    specialize (IH self').
    destruct (run_all self_id self' rest) as [final replies] eqn:Hrest.
    cbn [fst] in *. rewrite IH.
    destruct (handle_payment_cases self customer payment)
      as [(Hp & stored & self'' & _ & Heq & _ & _ & Horders)|[Hp Heq]];
      rewrite Hh in Heq; injection Heq as -> ?.
    + rewrite decide_True by done. rewrite Horders, <- app_assoc. done.
    + by rewrite decide_False.
Qed.

Lemma run_consistent self_id self events :
  ledger_consistent self →
  fresh_proposals generate_payment_confirmation
    generate_proposal_not_found_error self_id self events →
  ledger_consistent (run_all self_id self events).1.
Proof.
  revert self. induction events as [|[p customer|customer payment] rest IH];
    intros self Hc Hfresh; [done| |].
  - cbn [run fresh_proposals] in *. destruct Hfresh as [Hnew Hfresh].
    apply IH; [by apply add_proposal_consistent|done].
  - cbn [run fresh_proposals] in *.
    pose proof (handle_payment_consistent self customer payment Hc) as Hc'.
    destruct (handle self customer payment) as [self' reply].
    specialize (IH self' Hc' Hfresh).
    by destruct (run_all self_id self' rest) as [final replies].
Qed.

End Handler.

Lemma ledger_consistent_init : ledger_consistent init.
Proof.
  split; [apply NoDup_nil_2|]. intros p Hp. by apply elem_of_nil in Hp.
Qed.

(** C2: a payment for a proposal whose record is pending is accepted (the
    status becomes accepted, the id is appended to [confirmed_orders], the
    confirmation is returned) and every later payment for that proposal is
    answered with the error message; a payment for a proposal whose record
    is not pending is answered with the error message and changes nothing;
    hence in any run of the agent in which proposals are stored under fresh
    ids every proposal id is accepted at most once and [confirmed_orders]
    never holds an id twice. *)
Theorem handle_payment_accepts_once
  (generate_payment_confirmation : string → Q → TextMessage)
  (generate_proposal_not_found_error : string → TextMessage)
  (self_id : string) (self : BusinessAgent) (events : list event) :
  ledger_consistent self →
  fresh_proposals generate_payment_confirmation
    generate_proposal_not_found_error self_id self events →
  (∀ customer payment stored,
     proposal_storage self !! proposal_message_id payment = Some stored →
     status stored = pending →
     ∃ self',
       _handle_payment generate_payment_confirmation
         generate_proposal_not_found_error self customer payment =
         (self', generate_payment_confirmation (proposal_message_id payment)
                   (total_price (proposal stored))) ∧
       status_of self' (proposal_message_id payment) = Some accepted ∧
       confirmed_orders self' =
         confirmed_orders self ++ [proposal_message_id payment] ∧
       ∀ customer' payment',
         proposal_message_id payment' = proposal_message_id payment →
         _handle_payment generate_payment_confirmation
           generate_proposal_not_found_error self' customer' payment' =
           (self', generate_proposal_not_found_error
                     (proposal_message_id payment))) ∧
  (∀ customer payment,
     status_of self (proposal_message_id payment) ≠ Some pending →
     _handle_payment generate_payment_confirmation
       generate_proposal_not_found_error self customer payment =
       (self, generate_proposal_not_found_error (proposal_message_id payment))) ∧
  let final :=
    (run generate_payment_confirmation generate_proposal_not_found_error
       self_id self events).1 in
  confirmed_orders final =
    confirmed_orders self ++
    accepted_in generate_payment_confirmation
      generate_proposal_not_found_error self_id self events ∧
  NoDup (confirmed_orders final) ∧
  ledger_consistent final.
Proof.
  intros Hc Hfresh. cbv zeta. split_and!.
  - intros customer payment stored Hget Hst.
    destruct (handle_payment_pending generate_payment_confirmation
                generate_proposal_not_found_error self customer payment
                stored Hget Hst) as (self' & Heq & Hacc & _ & Horders).
    exists self'. split_and!; [done..|].
    intros customer' payment' Hid. rewrite <- Hid.
    apply handle_payment_rejected. rewrite Hid, Hacc. done.
  - intros customer payment. apply handle_payment_rejected.
  - apply run_orders.
  - by apply run_consistent.
  - by apply run_consistent.
Qed.

Lemma handle_payment_accepts_once_witness :
  ledger_consistent init ∧
  fresh_proposals (λ _ _, {| content := "confirmed" |})
    (λ _, {| content := "not found" |}) "business-1" init two_payments ∧
  NoDup (confirmed_orders
           (run (λ _ _, {| content := "confirmed" |})
              (λ _, {| content := "not found" |}) "business-1" init
              two_payments).1).
Proof.
  assert (Hfresh : fresh_proposals (λ _ _, {| content := "confirmed" |})
            (λ _, {| content := "not found" |}) "business-1" init two_payments)
    by (vm_compute; auto).
  split; [exact ledger_consistent_init|]. split; [exact Hfresh|].
  apply (handle_payment_accepts_once (λ _ _, {| content := "confirmed" |})
           (λ _, {| content := "not found" |}) "business-1" init
           two_payments ledger_consistent_init Hfresh).
Defined.

End BusinessAgentFacts.

(** ** Polling for messages never delivers a message twice *)

Module BaseAgentFacts.
Import Messaging Platform PyOrder BaseAgent FetchMessagesProtocol SortFacts Examples.

Lemma tracks_init : tracks init [].
Proof. split_and!; [apply NoDup_nil_2|done..]. Qed.

Lemma max_index_snoc history i :
  max_index (history ++ [i]) =
  match max_index history with
  | None => Some i
  | Some m => Some (Z.max m i)
  end.
Proof. unfold max_index. by rewrite foldl_app. Qed.

Lemma filter_step_tracks self new_messages message history :
  tracks self history →
  let st := filter_step (self, new_messages) message in
  (st = (self, new_messages) ∧ rm_index message ∈ history) ∨
  (st.2 = new_messages ++ [message] ∧ (rm_index message ∉ history) ∧
   tracks st.1 (history ++ [rm_index message])).
Proof.
  intros (Hnd & Hseen & Hlast). simpl. case_decide as Hin.
  - right. rewrite Hseen, elem_of_list_to_set in Hin.
    split; [done|]. split; [done|]. split_and!; simpl.
    + apply NoDup_app. split_and!; [done| |apply NoDup_singleton].
      intros x Hx ->%list_elem_of_singleton. done.
    + rewrite Hseen, list_to_set_app_L. simpl. by rewrite union_empty_r_L.
    + rewrite max_index_snoc, <- Hlast.
      destruct (last_fetch_index self) as [l|]; [|done].
      destruct (Z.ltb_spec l (rm_index message)); f_equal; lia.
  - left. split; [done|].
    by rewrite Hseen, elem_of_list_to_set in Hin.
Qed.

Lemma foldl_filter_step_tracks messages self new_messages history :
  tracks self history →
  ∃ added,
    (foldl filter_step (self, new_messages) messages).2 =
      new_messages ++ added ∧
    tracks (foldl filter_step (self, new_messages) messages).1
           (history ++ (rm_index <$> added)) ∧
    added ⊆ messages.
Proof.
  revert self new_messages history.
  induction messages as [|message messages IH];
    intros self new_messages history Htr.
  - exists []. simpl. rewrite !app_nil_r. done.
  - cbn [foldl].
    destruct (filter_step_tracks self new_messages message history Htr)
      as [[-> _]|(Hnew & _ & Htr')].
    + destruct (IH self new_messages history Htr) as (added & ? & ? & Hsub).
      exists added. split_and!; [done..|].
      intros x Hx. right. by apply Hsub.
    + destruct (filter_step (self, new_messages) message) as [self' new'].
      simpl in Hnew, Htr'. subst new'.
      destruct (IH self' (new_messages ++ [message])
                  (history ++ [rm_index message]) Htr')
        as (added & Hadd & Htr'' & Hsub).
      exists (message :: added). split_and!.
      * by rewrite Hadd, <- app_assoc.
      * rewrite <- app_assoc in Htr''. exact Htr''.
      * intros x [->|Hx]%elem_of_cons; [left|right; by apply Hsub].
Qed.

Lemma fetch_messages_tracks self result history :
  tracks self history →
  match fetch_messages self result with
  | Returned (self', response) =>
      tracks self' (history ++ (rm_index <$> messages response))
  | Raised _ => True
  end.
Proof.
  intros Htr. unfold fetch_messages. destruct (is_error result).
  - simpl. by rewrite app_nil_r.
  - destruct (model_validate (content result)) as [response|]; [|done].
    destruct (foldl_filter_step_tracks (messages response) self [] history Htr)
      as (added & Hadd & Htr' & _).
    destruct (foldl filter_step (self, []) (messages response))
      as [self' new_messages].
    simpl in *. by subst.
Qed.

Lemma poll_tracks results self history :
  tracks self history →
  tracks (poll self results).1
         (history ++ (rm_index <$> concat (poll self results).2)).
Proof.
  revert self history. induction results as [|result results IH];
    intros self history Htr.
  - simpl. by rewrite app_nil_r.
  - cbn [poll].
    pose proof (fetch_messages_tracks self result history Htr) as Hf.
    destruct (fetch_messages self result) as [[self' response]|e].
    + specialize (IH self' _ Hf).
      destruct (poll self' results) as [final delivered].
      cbn [fst snd concat] in *. by rewrite fmap_app, app_assoc.
    + specialize (IH self history Htr).
      by destruct (poll self results) as [final delivered].
Qed.

Lemma received_after_index recipient fetch row m k :
  after_index fetch = Some k →
  received recipient fetch row = Some m → (k < rm_index m)%Z.
Proof.
  intros Hk. unfold received. rewrite Hk.
  destruct (ar_request row) as [a| |]; [|done..].
  destruct (_ && _) eqn:Hcond; [|done]. intros [= <-]. simpl.
  apply andb_true_iff in Hcond as [_ Hlt]. by apply Z.ltb_lt.
Qed.

(** C4: whatever results the polls of an agent receive, no message index is
    delivered twice over the whole run, the agent's set of seen indexes is
    the set of delivered indexes and [last_fetch_index] is their maximum;
    and a [FetchMessages] action with [after_index = k] never yields an
    entry with index at most [k]. *)
Theorem fetch_messages_no_duplicates
  (results : list ActionExecutionResult)
  (fetch : FetchMessages) (agent : string) (database : Database) (k : Z) :
  (let '(final, delivered) := poll init results in
   let indexes := rm_index <$> concat delivered in
   NoDup indexes ∧
   _seen_message_indexes final = list_to_set indexes ∧
   last_fetch_index final = max_index indexes) ∧
  (after_index fetch = Some k →
   ∃ response,
     execute_fetch_messages fetch agent database =
       {| content := ContentFetchMessagesResponse response;
          is_error := false; metadata := None |} ∧
     ∀ m, m ∈ messages response → (k < rm_index m)%Z).
Proof.
  split.
  - pose proof (poll_tracks results init [] tracks_init) as Htr.
    by destruct (poll init results) as [final delivered].
  - intros Hk. eexists. split; [reflexivity|]. simpl. intros m Hm.
    assert (m ∈ sort_by_key rm_index
                  (omap (received agent fetch) (actions database))) as Hs.
    { destruct (limit fetch); [apply subseteq_take in Hm|];
        by apply subseteq_drop in Hm. }
    apply elem_of_sort_by_key, list_elem_of_omap in Hs as (row & _ & Hr).
    by eapply received_after_index.
Qed.

Lemma fetch_messages_no_duplicates_witness :
  after_index (fetch_after 3) = Some 3%Z ∧
  ∃ response,
    execute_fetch_messages (fetch_after 3) "customer-1" two_messages =
      {| content := ContentFetchMessagesResponse response;
         is_error := false; metadata := None |} ∧
    ∀ m, m ∈ messages response → (3 < rm_index m)%Z.
Proof.
  split; [reflexivity|].
  apply (fetch_messages_no_duplicates [] (fetch_after 3) "customer-1"
           two_messages 3).
  reflexivity.
Defined.

(** C10: when the [FetchMessages] action yields an error result,
    [fetch_messages] does not raise, returns
    [FetchMessagesResponse(messages=[], has_more=False)] and leaves
    [last_fetch_index] and [_seen_message_indexes] as they were. *)
Theorem fetch_messages_error
  (self : BaseSimpleMarketplaceAgent) (result : ActionExecutionResult) :
  is_error result = true →
  fetch_messages self result =
    Returned (self, {| messages := []; has_more := false |}).
Proof. intros Herr. unfold fetch_messages. by rewrite Herr. Qed.

Lemma fetch_messages_error_witness :
  is_error too_busy = true ∧
  fetch_messages init too_busy =
    Returned (init, {| messages := []; has_more := false |}).
Proof.
  split; [reflexivity|]. apply (fetch_messages_error init too_busy).
  reflexivity.
Defined.

End BaseAgentFacts.

(** ** The converter copies in index order and verifies the copy *)

Module ConverterFacts.
Import Platform PyOrder Converter SortFacts Examples.

Section Tables.
Context {D : Type}.
Implicit Types (rows table source_rows target_rows : list (Row D)).

Lemma length_number_from n rows : length (number_from n rows) = length rows.
Proof. revert n. induction rows; intros n; simpl; auto. Qed.

Lemma ids_number_from n rows : row_id <$> number_from n rows = row_id <$> rows.
Proof. revert n. induction rows; intros n; simpl; f_equal; auto. Qed.

Lemma data_number_from n rows :
  row_data <$> number_from n rows = row_data <$> rows.
Proof. revert n. induction rows; intros n; simpl; f_equal; auto. Qed.

Lemma indexes_number_from n rows :
  row_index <$> number_from n rows = Some <$> seqZ n (Z.of_nat (length rows)).
Proof.
  revert n. induction rows as [|r rows IH]; intros n; [done|].
  cbn [number_from length fmap list_fmap].
  rewrite Nat2Z.inj_succ, seqZ_cons by lia.
  rewrite fmap_cons. f_equal.
  replace (Z.pred (Z.succ (Z.of_nat (length rows))))
    with (Z.of_nat (length rows)) by lia.
  replace (Z.succ n) with (n + 1)%Z by lia. apply IH.
Qed.

Lemma number_from_keys_ge n rows :
  Forall (λ r, (n ≤ index_key r)%Z) (number_from n rows).
Proof.
  revert n. induction rows as [|r rows IH]; intros n; simpl; [constructor|].
  constructor; [unfold index_key; simpl; lia|].
  eapply Forall_impl; [apply (IH (n + 1)%Z)|]. simpl. intros. lia.
Qed.

Lemma number_from_sorted n rows : key_sorted index_key (number_from n rows).
Proof.
  revert n. induction rows as [|r rows IH]; intros n; simpl; [constructor|].
  constructor; [apply IH|].
  eapply Forall_impl; [apply (number_from_keys_ge (n + 1)%Z)|].
  unfold index_key at 2. simpl. intros. lia.
Qed.

Lemma foldr_max_nonneg (l : list Z) : (0 ≤ foldr Z.max 0 l)%Z.
Proof. induction l; cbn [foldr]; lia. Qed.

Lemma foldr_max_snoc (l : list Z) k :
  foldr Z.max 0%Z (l ++ [k]) = Z.max (foldr Z.max 0%Z l) (Z.max k 0).
Proof. induction l as [|x l IH]; cbn [app foldr]; [|rewrite IH]; lia. Qed.

Lemma next_index_ge table : (1 ≤ next_index table)%Z.
Proof.
  unfold next_index. pose proof (foldr_max_nonneg (index_key <$> table)). lia.
Qed.

Lemma next_index_snoc table r :
  index_key r = next_index table →
  next_index (table ++ [r]) = (next_index table + 1)%Z.
Proof.
  intros Hr. pose proof (next_index_ge table) as Hge. unfold next_index in *.
  rewrite fmap_app. cbn [fmap list_fmap]. rewrite foldr_max_snoc, Hr. lia.
Qed.

Lemma create_many_number table rows :
  create_many table rows = table ++ number_from (next_index table) rows.
Proof.
  unfold create_many. revert table.
  induction rows as [|r rows IH]; intros table.
  - simpl. by rewrite app_nil_r.
  - cbn [foldl number_from]. rewrite IH. unfold create at 1 2.
    rewrite next_index_snoc by done. by rewrite <- app_assoc.
Qed.

Lemma number_from_strip n rows :
  number_from n
    ((λ r, {| row_id := row_id r; row_created_at := row_created_at r;
              row_data := row_data r; row_index := None |}) <$> rows) =
  number_from n rows.
Proof.
  revert n. induction rows as [|r rows IH]; intros n; [done|].
  cbn [fmap list_fmap number_from]. simpl. f_equal. apply IH.
Qed.

Lemma copy_table_number source_rows :
  copy_table source_rows [] =
  number_from 1 (sort_by_key index_key source_rows).
Proof.
  unfold copy_table. rewrite create_many_number. cbn [app].
  apply number_from_strip.
Qed.

(** What a copy into an empty table holds. *)
Lemma copy_table_spec source_rows :
  let target_rows := get_all (copy_table source_rows []) in
  length target_rows = length source_rows ∧
  row_id <$> target_rows = row_id <$> sort_by_key index_key source_rows ∧
  row_data <$> target_rows = row_data <$> sort_by_key index_key source_rows ∧
  row_index <$> target_rows =
    Some <$> seqZ 1 (Z.of_nat (length source_rows)).
Proof.
  cbv zeta. unfold get_all. rewrite copy_table_number. split_and!.
  - by rewrite length_number_from, length_sort_by_key.
  - apply ids_number_from.
  - apply data_number_from.
  - by rewrite indexes_number_from, length_sort_by_key.
Qed.

Lemma fmap_pair_eq {B C} (f : Row D → B) (g : Row D → C) (l1 l2 : list (Row D)) :
  (λ r, (f r, g r)) <$> l1 = (λ r, (f r, g r)) <$> l2 ↔
  f <$> l1 = f <$> l2 ∧ g <$> l1 = g <$> l2.
Proof.
  revert l2. induction l1 as [|x l1 IH]; intros [|y l2];
    cbn [fmap list_fmap].
  - done.
  - split; [discriminate|]. intros [? _]. discriminate.
  - split; [discriminate|]. intros [? _]. discriminate.
  - split.
    + intros Heq. injection Heq as Hf Hg Hrest.
      apply IH in Hrest as [Hr1 Hr2]. split; f_equal; done.
    + intros [Hf Hg]. injection Hf as Hf Hf'. injection Hg as Hg Hg'.
      rewrite Hf, Hg. f_equal. by apply IH.
Qed.

Lemma verify_rows_spec table_name (l1 l2 : list (Row D)) :
  length l1 = length l2 →
  (verify_rows table_name l1 l2 = Returned () ↔
   (λ r, (row_index r, row_id r)) <$> l1 = (λ r, (row_index r, row_id r)) <$> l2).
Proof.
  revert l2. induction l1 as [|x l1 IH]; intros [|y l2] Hlen; try done.
  injection Hlen as Hlen. cbn [verify_rows fmap list_fmap].
  case_decide as Hi; [split; [done|]; intros [= ? _]; done|].
  case_decide as Hd; [split; [done|]; intros [= _ ? _]; done|].
  rewrite (IH l2 Hlen). split; [intros ->|intros [= _ _ ?]; done].
  by rewrite Hi, Hd.
Qed.

(** The verification passes exactly when the two tables hold the same
    number of rows with the same ids at the same indexes. *)
Lemma verify_table_spec table_name source_rows target_rows :
  _verify_table table_name source_rows target_rows = Returned () ↔
  same_rows source_rows target_rows.
Proof.
  unfold _verify_table, same_rows, keyed_ids. case_decide as Hlen.
  - split; [done|]. by intros [? _].
  - rewrite verify_rows_spec by (by rewrite !length_sort_by_key).
    split; [done|by intros [_ ?]].
Qed.

Lemma verify_table_cases table_name source_rows target_rows :
  _verify_table table_name source_rows target_rows = Returned () ∨
  ∃ e, _verify_table table_name source_rows target_rows = Raised e.
Proof. destruct (_verify_table _ _ _) as [[]|e]; eauto. Qed.

(** The copy passes the verification exactly when the source is numbered
    from one. *)
Lemma copy_same_rows source_rows :
  same_rows source_rows (copy_table source_rows []) ↔
  numbered_from_one source_rows.
Proof.
  unfold same_rows, numbered_from_one, keyed_ids.
  rewrite copy_table_number, length_number_from, length_sort_by_key.
  rewrite (sort_by_key_id _ (number_from 1 _)) by apply number_from_sorted.
  rewrite fmap_pair_eq, ids_number_from, indexes_number_from,
    length_sort_by_key.
  split; [by intros (_ & ? & _)|done].
Qed.

End Tables.

Section Convert.
Context {A B C : Type}.

(** A conversion returns the copy, and returns exactly when the source as
    read again and the copy hold the same rows. *)
Lemma convert_cases (source_db source_read_again : Tables A B C) :
  (same_tables source_read_again (copied_tables source_db) →
   convert source_db source_read_again = Returned (copied_tables source_db)) ∧
  (¬ same_tables source_read_again (copied_tables source_db) →
   ∃ e, convert source_db source_read_again = Raised e).
Proof.
  unfold convert, _verify_conversion, same_tables, copied_tables, get_all.
  cbn [agents_table actions_table logs_table].
  destruct (_verify_table "agents" _ _) as [[]|e1] eqn:H1.
  2:{ split; [|by eauto]. intros (H & _).
      apply (verify_table_spec "agents") in H. congruence. }
  destruct (_verify_table "actions" _ _) as [[]|e2] eqn:H2.
  2:{ split; [|by eauto]. intros (_ & H & _).
      apply (verify_table_spec "actions") in H. congruence. }
  destruct (_verify_table "logs" _ _) as [[]|e3] eqn:H3.
  2:{ split; [|by eauto]. intros (_ & _ & H).
      apply (verify_table_spec "logs") in H. congruence. }
  split; [done|]. intros Hnot. destruct Hnot.
  by rewrite <- !verify_table_spec.
Qed.

Lemma convert_returned (source_db source_read_again target_db : Tables A B C) :
  convert source_db source_read_again = Returned target_db →
  target_db = copied_tables source_db ∧
  same_tables source_read_again target_db.
Proof.
  intros Hc.
  assert (Htarget : target_db = copied_tables source_db).
  { unfold convert in Hc. destruct (_verify_conversion _ _); [|done].
    by injection Hc. }
  split; [done|]. rewrite Htarget.
  destruct (convert_cases source_db source_read_again) as [_ Hraise].
  apply dec_stable. intros Hnot. destruct (Hraise Hnot) as [e He]. congruence.
Qed.

(** With a source that is not written to, the conversion returns exactly
    when the source is numbered from one. *)
Lemma convert_returns (source_db : Tables A B C) :
  (∃ target_db, convert source_db source_db = Returned target_db) ↔
  source_numbered source_db.
Proof.
  assert (Hsame : same_tables source_db (copied_tables source_db) ↔
                  source_numbered source_db).
  { unfold same_tables, copied_tables, source_numbered.
    cbn [agents_table actions_table logs_table].
    by rewrite !copy_same_rows. }
  rewrite <- Hsame. split.
  - intros [target_db Hc]. apply convert_returned in Hc as [-> ?]. done.
  - intros H. eexists. by apply convert_cases.
Qed.

End Convert.

(** C7, as the specification states it, fails: a source whose only agent
    has index 2 is copied with its id and its single row, but the copy
    holds the row at index 1, so source and target do not have identical
    ids at identical indices, and the conversion raises [ValueError]. *)
Lemma copy_renumbers_gapped_source :
  let source_db := ConverterErrors.gapped_source in
  let target_rows := get_all (copy_table (agents_table source_db) []) in
  length target_rows = length (agents_table source_db) ∧
  row_id <$> target_rows = row_id <$> agents_table source_db ∧
  row_index <$> agents_table source_db = [Some 2%Z] ∧
  row_index <$> target_rows = [Some 1%Z] ∧
  ¬ same_rows (agents_table source_db) target_rows ∧
  convert source_db source_db =
    Raised (IndexMismatch "agents" "business-1" (Some 2%Z) (Some 1%Z)).
Proof.
  cbv zeta. split_and!; try (vm_compute; reflexivity).
  intros [_ Hkeys]. vm_compute in Hkeys. discriminate.
Qed.

(** C7 (amended): the conversion copies each table in ascending index
    order: the target holds the same number of rows, with the ids and data
    in the order of the source indexes, numbered [1..N].  The verification
    of a table returns exactly when source and target hold the same number
    of rows with the same ids at the same indexes and raises [ValueError]
    otherwise.  So a conversion returns the copy exactly when the source,
    as the verification reads it again, holds the same rows as the copy,
    and raises [ValueError] otherwise; with a source that is not written
    to in between it returns exactly when the source tables are numbered
    from one, and only then are the indexes of source and target
    identical. *)
Theorem convert_copies_and_verifies {A B C : Type}
  (source_db source_read_again : Tables A B C) :
  (let copied {D} (source_rows : list (Row D)) :=
     let target_rows := get_all (copy_table source_rows []) in
     length target_rows = length source_rows ∧
     row_id <$> target_rows = row_id <$> sort_by_key index_key source_rows ∧
     row_data <$> target_rows = row_data <$> sort_by_key index_key source_rows ∧
     row_index <$> target_rows =
       Some <$> seqZ 1 (Z.of_nat (length source_rows)) in
   copied (agents_table source_db) ∧ copied (actions_table source_db) ∧
   copied (logs_table source_db)) ∧
  (∀ (D : Type) (table_name : string) (source_rows target_rows : list (Row D)),
     (_verify_table table_name source_rows target_rows = Returned () ↔
      same_rows source_rows target_rows) ∧
     (¬ same_rows source_rows target_rows →
      ∃ e : ValueError,
        _verify_table table_name source_rows target_rows = Raised e)) ∧
  (same_tables source_read_again (copied_tables source_db) →
   convert source_db source_read_again = Returned (copied_tables source_db)) ∧
  (¬ same_tables source_read_again (copied_tables source_db) →
   ∃ e : ValueError, convert source_db source_read_again = Raised e) ∧
  ((∃ target_db, convert source_db source_db = Returned target_db) ↔
   source_numbered source_db) ∧
  (same_tables source_db (copied_tables source_db) ↔
   source_numbered source_db).
Proof.
  split_and!.
  - cbv zeta. split_and!; apply copy_table_spec.
  - intros D table_name source_rows target_rows.
    pose proof (verify_table_spec table_name source_rows target_rows) as Hv.
    split; [done|]. intros Hn.
    destruct (verify_table_cases table_name source_rows target_rows)
      as [Hr|He]; [|done].
    by apply Hv in Hr.
  - apply convert_cases.
  - apply convert_cases.
  - apply convert_returns.
  - unfold same_tables, copied_tables, source_numbered.
    cbn [agents_table actions_table logs_table].
    by rewrite !copy_same_rows.
Qed.

Lemma convert_copies_and_verifies_witness :
  same_tables small_source (copied_tables small_source) ∧
  convert small_source small_source = Returned (copied_tables small_source) ∧
  copied_tables small_source = small_target.
Proof.
  assert (Hsame : same_tables small_source (copied_tables small_source)).
  { split_and!; (split; vm_compute; reflexivity). }
  split; [exact Hsame|]. split; [|vm_compute; reflexivity].
  destruct (convert_copies_and_verifies small_source small_source)
    as (_ & _ & Hreturn & _).
  exact (Hreturn Hsame).
Defined.

End ConverterFacts.

(** ** The audit classifies every proposal *)

Module AuditFacts.
Import Messaging Platform PyOrder Audit SortFacts.

Lemma append_nil_l (s : string) : "" +:+ s = s.
Proof. reflexivity. Qed.

Lemma append_cons (c : ascii) (s t : string) :
  String c s +:+ t = String c (s +:+ t).
Proof. reflexivity. Qed.

Lemma prefix_spec (s t : string) :
  String.prefix s t = true ↔ ∃ post, t = s +:+ post.
Proof.
  revert t. induction s as [|a s IH]; intros t; cbn [String.prefix].
  - split; [intros _; exists t; reflexivity|by destruct t].
  - destruct t as [|b t].
    + split; [discriminate|]. intros [post Hp]. discriminate.
    + cbn [String.prefix]. destruct (ascii_dec a b) as [->|Hne].
      * rewrite IH. split; intros [post Hp]; exists post.
        -- by rewrite append_cons, <- Hp.
        -- rewrite append_cons in Hp. by injection Hp.
      * split; [discriminate|]. intros [post Hp].
        rewrite append_cons in Hp. injection Hp as -> _. done.
Qed.

Lemma is_substring_spec (s t : string) :
  is_substring s t = true ↔ occurs_in s t.
Proof.
  unfold occurs_in. induction t as [|c t IH]; cbn [is_substring].
  - rewrite orb_false_r, prefix_spec. split.
    + intros [post Hp]. by exists "", post.
    + intros ([|c pre] & post & Hp); [by exists post|].
      rewrite append_cons in Hp. discriminate.
  - rewrite orb_true_iff, IH, prefix_spec. split.
    + intros [[post Hp]|(pre & post & Hp)].
      * by exists "", post.
      * exists (String c pre), post. by rewrite append_cons, <- Hp.
    + intros ([|c' pre] & post & Hp).
      * left. by exists post.
      * right. rewrite append_cons in Hp. injection Hp as -> Hp.
        by exists pre, post.
Qed.

(** [check_proposal_in_log] is an exact substring search over the
    searched texts of the log. *)
Lemma check_proposal_in_log_spec proposal_id llm_log :
  check_proposal_in_log proposal_id llm_log = true ↔
  ∃ t, t ∈ searched_texts llm_log ∧ occurs_in proposal_id t.
Proof.
  unfold check_proposal_in_log, searched_texts. rewrite orb_true_iff.
  setoid_rewrite elem_of_app. split.
  - intros [Hp|Hr].
    + destruct (prompt llm_log) as [s|l].
      * exists s. split; [left; by left|by apply is_substring_spec].
      * apply existsb_exists in Hp as (m & Hm & Hs).
        exists (default EmptyString (get_content m)).
        split; [|by apply is_substring_spec].
        left. apply list_elem_of_fmap. exists m.
        split; [done|by apply list_elem_of_In].
    + destruct (response llm_log) as [s|s];
        (exists s; split; [right; by left|by apply is_substring_spec]).
  - intros (t & [Ht|Ht] & Hocc); apply is_substring_spec in Hocc.
    + left. destruct (prompt llm_log) as [s|l].
      * by apply list_elem_of_singleton in Ht as ->.
      * apply list_elem_of_fmap in Ht as (m & -> & Hm).
        apply existsb_exists. exists m. by rewrite <- list_elem_of_In.
    + right. destruct (response llm_log) as [s|s];
        by apply list_elem_of_singleton in Ht as ->.
Qed.

Section Loading.
Variable isoformat : Z → string.

(** Every proposal the loader records has its metadata. *)
Lemma load_data_metadata rows p :
  p ∈ order_proposals (load_data isoformat rows) →
  is_Some (recipient (load_data isoformat rows) (op_id p)).
Proof.
  unfold load_data.
  assert (Hgen : ∀ self,
    (∀ q, q ∈ order_proposals self → is_Some (recipient self (op_id q))) →
    ∀ q, q ∈ order_proposals (foldl (_process_action_row isoformat) self rows) →
         is_Some (recipient (foldl (_process_action_row isoformat) self rows)
                    (op_id q))).
  { induction rows as [|row rows IH]; intros self Hself; [done|].
    cbn [foldl]. apply IH. clear IH.
    unfold _process_action_row, _process_send_message.
    destruct (ar_request row) as [a| |]; [|done..].
    destruct (is_error (ar_result row)); [done|].
    destruct (message a) as [|p'|]; [done| |done].
    intros q. unfold recipient. cbn [order_proposals proposal_metadata].
    rewrite elem_of_app, list_elem_of_singleton.
    destruct (decide (op_id q = op_id p')) as [->|Hne].
    - intros _. rewrite lookup_insert_eq. by eexists.
    - rewrite lookup_insert_ne by done. intros [Hq| ->]; [|done].
      by apply Hself. }
  apply Hgen. intros q Hq. by apply elem_of_nil in Hq.
Qed.

Lemma process_action_row_other self row proposal_id :
  ¬ carries proposal_id row →
  recipient (_process_action_row isoformat self row) proposal_id =
  recipient self proposal_id.
Proof.
  intros Hn. unfold _process_action_row, _process_send_message.
  destruct (ar_request row) as [a| |] eqn:Hreq; [|done..].
  destruct (is_error (ar_result row)) eqn:Herr; [done|].
  destruct (message a) as [|p|] eqn:Hmsg; [done| |done].
  unfold recipient. cbn [proposal_metadata].
  rewrite lookup_insert_ne; [done|]. intros Hid. apply Hn. by exists a, p.
Qed.

Lemma process_action_row_carries self row a p :
  ar_request row = ActSendMessage a →
  is_error (ar_result row) = false →
  message a = MsgOrderProposal p →
  recipient (_process_action_row isoformat self row) (op_id p) =
  Some (to_agent_id a).
Proof.
  intros Hreq Herr Hmsg. unfold _process_action_row, _process_send_message.
  rewrite Hreq, Herr, Hmsg. unfold recipient. cbn [proposal_metadata].
  by rewrite lookup_insert_eq.
Qed.

(** The customer recorded for a proposal id is the one the last proposal
    with that id was sent to. *)
Lemma load_data_recipient earlier row later a p :
  ar_request row = ActSendMessage a →
  is_error (ar_result row) = false →
  message a = MsgOrderProposal p →
  (∀ r, r ∈ later → ¬ carries (op_id p) r) →
  recipient (load_data isoformat (earlier ++ row :: later)) (op_id p) =
  Some (to_agent_id a).
Proof.
  intros Hreq Herr Hmsg Hlater. unfold load_data.
  rewrite foldl_app. cbn [foldl].
  generalize (foldl (_process_action_row isoformat) empty_audit earlier).
  intros self.
  assert (Hgen : ∀ self',
    recipient (foldl (_process_action_row isoformat) self' later) (op_id p) =
    recipient self' (op_id p)).
  { clear self. induction later as [|r later IH]; intros self'; [done|].
    cbn [foldl]. rewrite IH.
    - apply process_action_row_other, Hlater. by left.
    - intros r' Hr'. apply Hlater. by right. }
  rewrite Hgen. by apply process_action_row_carries.
Qed.

End Loading.

Section AuditLoop.
Variable self : MarketplaceAudit.
Variable logs : list LogRow.

Abbreviation appears := (appears_in_last_log self logs).
Abbreviation missing := (λ p, negb (appears_in_last_log self logs p)).

Lemma audit_step_found results p :
  is_Some (recipient self (op_id p)) →
  appears p = true →
  proposals_found (audit_step self logs results p) =
    proposals_found results + 1 ∧
  proposals_missing (audit_step self logs results p) =
    proposals_missing results ∧
  missing_details (audit_step self logs results p) = missing_details results.
Proof.
  unfold appears_in_last_log, recipient, audit_step.
  destruct (proposal_metadata self !! op_id p) as [[[b c] ts]|];
    [|by intros []].
  cbn [fmap option_fmap option_map fst snd]. intros _.
  destruct (get_last_llm_log_for_customer logs c) as [[llm_log llm_ts]|];
    [|done].
  by intros ->.
Qed.

Lemma audit_step_missing results p :
  is_Some (recipient self (op_id p)) →
  appears p = false →
  proposals_found (audit_step self logs results p) = proposals_found results ∧
  proposals_missing (audit_step self logs results p) =
    proposals_missing results + 1 ∧
  ∃ detail,
    missing_details (audit_step self logs results p) =
      missing_details results ++ [detail] ∧
    md_proposal_id detail = op_id p ∧
    Some (md_customer_id detail) = recipient self (op_id p).
Proof.
  unfold appears_in_last_log, recipient, audit_step.
  destruct (proposal_metadata self !! op_id p) as [[[b c] ts]|];
    [|by intros []].
  cbn [fmap option_fmap option_map fst snd]. intros _.
  destruct (get_last_llm_log_for_customer logs c) as [[llm_log llm_ts]|].
  - intros ->. cbn. eauto 10.
  - intros _. cbn. eauto 10.
Qed.

Lemma audit_loop proposals results :
  (∀ p, p ∈ proposals → is_Some (recipient self (op_id p))) →
  let final := foldl (audit_step self logs) results proposals in
  proposals_found final =
    proposals_found results + length (List.filter appears proposals) ∧
  proposals_missing final =
    proposals_missing results + length (List.filter missing proposals) ∧
  md_proposal_id <$> missing_details final =
    (md_proposal_id <$> missing_details results) ++
    (op_id <$> List.filter missing proposals).
Proof.
  revert results. induction proposals as [|p proposals IH];
    intros results Hmeta; cbv zeta.
  - simpl. rewrite !Nat.add_0_r, app_nil_r. done.
  - cbn [foldl List.filter].
    assert (Hp : is_Some (recipient self (op_id p))) by (apply Hmeta; left).
    assert (Hrest : ∀ q, q ∈ proposals → is_Some (recipient self (op_id q)))
      by (intros q Hq; apply Hmeta; by right).
    destruct (IH (audit_step self logs results p) Hrest) as (Hf & Hm & Hd).
    rewrite Hf, Hm, Hd. clear IH Hf Hm Hd.
    destruct (appears p) eqn:Happ; cbn [negb length fmap list_fmap].
    + destruct (audit_step_found results p Hp Happ) as (-> & -> & ->).
      split_and!; [lia|done|done].
    + destruct (audit_step_missing results p Hp Happ)
        as (-> & -> & detail & -> & Hid & _).
      rewrite fmap_app. cbn [fmap list_fmap]. rewrite Hid, <- app_assoc.
      split_and!; [done|lia|done].
Qed.

End AuditLoop.

(** The log that [get_last_llm_log_for_customer] returns belongs to the
    customer and no log of the customer has a larger index. *)
Lemma get_last_llm_log_most_recent logs customer llm_log timestamp :
  get_last_llm_log_for_customer logs customer = Some (llm_log, timestamp) →
  ∃ row, row ∈ logs ∧ lr_agent_id row = Some customer ∧
    lr_llm_call row = Some llm_log ∧ lr_created_at row = timestamp ∧
    ∀ row', row' ∈ logs → lr_agent_id row' = Some customer →
      is_Some (lr_llm_call row') → (lr_index row' ≤ lr_index row)%Z.
Proof.
  unfold get_last_llm_log_for_customer.
  set (pick := λ log_row : LogRow, _).
  set (key := λ x : Z * LLMCallLog * string, x.1.1).
  intros Hlast.
  destruct (last (sort_by_key key (omap pick logs))) as [[[i l] ts]|] eqn:Hl;
    [|done].
  injection Hlast as -> ->.
  assert (Hin : (i, llm_log, timestamp) ∈ omap pick logs).
  { apply (elem_of_sort_by_key key). apply last_Some in Hl as [l' ->].
    apply elem_of_app. right. by left. }
  apply list_elem_of_omap in Hin as (row & Hrow & Hpick).
  unfold pick in Hpick. case_bool_decide as Hc; [|done].
  destruct (lr_llm_call row) as [llm|] eqn:Hllm; [|done].
  injection Hpick as <- <- <-.
  exists row. split_and!; [done..|].
  intros row' Hrow' Hc' [llm' Hllm'].
  assert (Hin' : (lr_index row', llm', lr_created_at row') ∈
                 sort_by_key key (omap pick logs)).
  { apply elem_of_sort_by_key, list_elem_of_omap. exists row'.
    split; [done|]. unfold pick. rewrite bool_decide_true by done.
    by rewrite Hllm'. }
  pose proof (sort_by_key_sorted key (omap pick logs)) as Hsorted.
  apply last_Some in Hl as [l' Hl']. rewrite Hl' in Hin', Hsorted.
  apply elem_of_app in Hin' as [Hin'|Hin'].
  - unfold key_sorted in Hsorted.
    apply StronglySorted_app in Hsorted as (Hle & _ & _).
    apply (Hle _ (lr_index row, llm, lr_created_at row) Hin'). by left.
  - apply list_elem_of_singleton in Hin'. by injection Hin' as ->.
Qed.

(** No log is returned exactly when the customer has no log. *)
Lemma get_last_llm_log_None logs customer :
  get_last_llm_log_for_customer logs customer = None ↔
  ∀ row, row ∈ logs → ¬ log_of customer row.
Proof.
  unfold get_last_llm_log_for_customer.
  set (pick := λ log_row : LogRow, _).
  set (key := λ x : Z * LLMCallLog * string, x.1.1).
  assert (Hpick : ∀ row, pick row = None ↔ ¬ log_of customer row).
  { intros row. unfold pick, log_of. case_bool_decide as Hc.
    - destruct (lr_llm_call row) as [llm|]; cbn.
      + split; [done|]. intros Hn. destruct Hn. split; [done|by eexists].
      + split; [|done]. intros _ [_ [? ?]]. done.
    - split; [|done]. by intros _ [? _]. }
  rewrite fmap_None, last_None.
  split.
  - intros Hnil row Hrow Hlog. apply (Hpick row); [|done].
    destruct (pick row) as [t|] eqn:Ht; [|done].
    assert (Hin : t ∈ sort_by_key key (omap pick logs)).
    { apply elem_of_sort_by_key, list_elem_of_omap. by exists row. }
    rewrite Hnil in Hin. by apply elem_of_nil in Hin.
  - intros Hnone.
    destruct (sort_by_key key (omap pick logs)) as [|t l] eqn:Hs; [done|].
    assert (Hin : t ∈ sort_by_key key (omap pick logs))
      by (rewrite Hs; by left).
    apply elem_of_sort_by_key, list_elem_of_omap in Hin
      as (row & Hrow & Ht).
    apply Hnone in Hrow. apply Hpick in Hrow. congruence.
Qed.

(** The log returned is that of the most recent log row of the customer. *)
Lemma get_last_llm_log_latest logs customer row llm_log :
  most_recent_log logs customer row →
  lr_llm_call row = Some llm_log →
  get_last_llm_log_for_customer logs customer
    = Some (llm_log, lr_created_at row).
Proof.
  intros (earlier & later & -> & [Hagent _] & Hnewer) Hllm.
  unfold get_last_llm_log_for_customer.
  set (pick := λ log_row : LogRow, _).
  set (key := λ x : Z * LLMCallLog * string, x.1.1).
  assert (Hrow : pick row = Some (lr_index row, llm_log, lr_created_at row)).
  { unfold pick. rewrite bool_decide_true by done. by rewrite Hllm. }
  assert (Hother : ∀ t, t ∈ omap pick (earlier ++ later) →
                        (key t < lr_index row)%Z).
  { intros t Ht. apply list_elem_of_omap in Ht as (row' & Hin & Hpick).
    unfold pick in Hpick. case_bool_decide as Hc; [|done].
    destruct (lr_llm_call row') as [llm'|] eqn:Hllm'; [|done].
    injection Hpick as <-. unfold key. cbn [fst].
    apply Hnewer; [done|]. split; [done|by eexists]. }
  assert (Hin : (lr_index row, llm_log, lr_created_at row)
                ∈ sort_by_key key (omap pick (earlier ++ row :: later))).
  { apply elem_of_sort_by_key, list_elem_of_omap. exists row.
    split; [|done]. apply elem_of_app. right. by left. }
  pose proof (sort_by_key_sorted key (omap pick (earlier ++ row :: later)))
    as Hsorted.
  destruct (last (sort_by_key key (omap pick (earlier ++ row :: later))))
    as [t|] eqn:Hlast.
  2:{ apply last_None in Hlast. rewrite Hlast in Hin.
      by apply elem_of_nil in Hin. }
  assert (Hmax : (lr_index row ≤ key t)%Z).
  { apply last_Some in Hlast as [l' Hl']. rewrite Hl' in Hin, Hsorted.
    apply elem_of_app in Hin as [Hin|Hin].
    - unfold key_sorted in Hsorted.
      apply StronglySorted_app in Hsorted as (Hle & _ & _).
      apply (Hle (lr_index row, llm_log, lr_created_at row) t Hin).
      by left.
    - apply list_elem_of_singleton in Hin as <-. done. }
  assert (Ht : t ∈ omap pick (earlier ++ row :: later)).
  { apply (elem_of_sort_by_key key). apply last_Some in Hlast as [l' ->].
    apply elem_of_app. right. by left. }
  rewrite omap_app in Ht. cbn [omap list_omap] in Ht. rewrite Hrow in Ht.
  apply elem_of_app in Ht as [Ht|Ht].
  - assert (key t < lr_index row)%Z; [|lia].
    apply Hother. rewrite omap_app. apply elem_of_app. by left.
  - apply elem_of_cons in Ht as [->|Ht]; [done|].
    assert (key t < lr_index row)%Z; [|lia].
    apply Hother. rewrite omap_app. apply elem_of_app. by right.
Qed.

Section Found.
Variable self : MarketplaceAudit.
Variable logs : list LogRow.

(** A proposal with metadata is found exactly when its id occurs in a
    searched text of the log returned for its customer. *)
Lemma appears_in_last_log_spec p :
  appears_in_last_log self logs p = true ↔
  ∃ customer llm_log timestamp t,
    recipient self (op_id p) = Some customer ∧
    get_last_llm_log_for_customer logs customer = Some (llm_log, timestamp) ∧
    t ∈ searched_texts llm_log ∧ occurs_in (op_id p) t.
Proof.
  split.
  - intros Happ. unfold appears_in_last_log in Happ.
    destruct (recipient self (op_id p)) as [customer|]; [|done].
    destruct (get_last_llm_log_for_customer logs customer)
      as [[llm_log timestamp]|] eqn:Hlog; [|done].
    apply check_proposal_in_log_spec in Happ as (t & Ht & Hocc).
    by exists customer, llm_log, timestamp, t.
  - intros (customer & llm_log & timestamp & t & Hrec & Hlog & Ht & Hocc).
    unfold appears_in_last_log. rewrite Hrec, Hlog.
    apply check_proposal_in_log_spec. by exists t.
Qed.

(** With the most recent log of the customer at hand, the proposal is
    found exactly when its id occurs in a searched text of that log. *)
Lemma appears_in_most_recent_log p customer row llm_log :
  recipient self (op_id p) = Some customer →
  most_recent_log logs customer row →
  lr_llm_call row = Some llm_log →
  appears_in_last_log self logs p = true ↔
  ∃ t, t ∈ searched_texts llm_log ∧ occurs_in (op_id p) t.
Proof.
  intros Hrec Hrecent Hllm.
  pose proof (get_last_llm_log_latest logs customer row llm_log Hrecent Hllm)
    as Hlast.
  rewrite appears_in_last_log_spec. split.
  - intros (customer' & llm_log' & timestamp & t & Hrec' & Hlog & Ht & Hocc).
    assert (customer' = customer) as -> by congruence.
    assert (llm_log' = llm_log) as -> by congruence.
    by exists t.
  - intros (t & Ht & Hocc). by exists customer, llm_log, (lr_created_at row), t.
Qed.

Lemma appears_without_log p customer :
  recipient self (op_id p) = Some customer →
  (∀ row, row ∈ logs → ¬ log_of customer row) →
  appears_in_last_log self logs p = false.
Proof.
  intros Hrec Hnone. unfold appears_in_last_log. rewrite Hrec.
  by rewrite (proj2 (get_last_llm_log_None logs customer) Hnone).
Qed.

End Found.

(** C8: over the state the loader builds, [audit_proposals] counts under
    [proposals_found] exactly the proposals whose id occurs, as an exact
    substring, in a searched text (the prompt or the response) of the most
    recent LLM call log of the customer the proposal is recorded for, counts
    every other proposal under [proposals_missing] and appends a detail
    record for it to [missing_details].  The customer recorded for a
    proposal id is the recipient of the last proposal sent with that id.
    The log consulted is the one with the largest index among that
    customer's LLM call logs: such a log is always returned when the
    customer has one, a proposal whose id occurs in it is found and one
    whose id does not is missing, and so is every proposal of a customer
    without a log. *)
Theorem audit_proposals_complete
  (isoformat : Z → string) (rows : list ActionRow) (logs : list LogRow) :
  let self := load_data isoformat rows in
  let results := audit_proposals self logs in
  let found := List.filter (appears_in_last_log self logs) (order_proposals self) in
  let missing :=
    List.filter (λ p, negb (appears_in_last_log self logs p))
                (order_proposals self) in
  proposals_found results = length found ∧
  proposals_missing results = length missing ∧
  md_proposal_id <$> missing_details results = op_id <$> missing ∧
  (∀ p, p ∈ order_proposals self →
     (p ∈ found ∨ p ∈ missing) ∧
     (p ∈ found ↔
      ∃ customer llm_log timestamp t,
        recipient self (op_id p) = Some customer ∧
        get_last_llm_log_for_customer logs customer
          = Some (llm_log, timestamp) ∧
        t ∈ searched_texts llm_log ∧ occurs_in (op_id p) t)) ∧
  (∀ earlier row later a p,
     rows = earlier ++ row :: later →
     ar_request row = ActSendMessage a →
     is_error (ar_result row) = false →
     message a = MsgOrderProposal p →
     (∀ r, r ∈ later → ¬ carries (op_id p) r) →
     recipient self (op_id p) = Some (to_agent_id a)) ∧
  (∀ customer llm_log timestamp,
     get_last_llm_log_for_customer logs customer = Some (llm_log, timestamp) →
     ∃ row, row ∈ logs ∧ lr_agent_id row = Some customer ∧
       lr_llm_call row = Some llm_log ∧
       ∀ row', row' ∈ logs → lr_agent_id row' = Some customer →
         is_Some (lr_llm_call row') → (lr_index row' ≤ lr_index row)%Z) ∧
  (∀ customer,
     get_last_llm_log_for_customer logs customer = None ↔
     ∀ row, row ∈ logs → ¬ log_of customer row) ∧
  (∀ customer row llm_log,
     most_recent_log logs customer row →
     lr_llm_call row = Some llm_log →
     get_last_llm_log_for_customer logs customer
       = Some (llm_log, lr_created_at row)) ∧
  (∀ p customer row llm_log,
     p ∈ order_proposals self →
     recipient self (op_id p) = Some customer →
     most_recent_log logs customer row →
     lr_llm_call row = Some llm_log →
     (p ∈ found ↔ ∃ t, t ∈ searched_texts llm_log ∧ occurs_in (op_id p) t) ∧
     (p ∈ missing ↔
      ¬ ∃ t, t ∈ searched_texts llm_log ∧ occurs_in (op_id p) t)) ∧
  (∀ p customer,
     p ∈ order_proposals self →
     recipient self (op_id p) = Some customer →
     (∀ row, row ∈ logs → ¬ log_of customer row) →
     p ∈ missing).
Proof.
  cbv zeta. set (self := load_data isoformat rows).
  destruct (audit_loop self logs (order_proposals self)
              {| total_proposals := length (order_proposals self);
                 proposals_found := 0; proposals_missing := 0;
                 customers_without_logs := ∅; unique_customers := ∅;
                 unique_businesses := ∅; missing_details := [] |})
    as (Hf & Hm & Hd).
  { intros p Hp. by apply load_data_metadata. }
  split_and!; [exact Hf|exact Hm|exact Hd| | | | | | |].
  - intros p Hp.
    rewrite !list_elem_of_In, !List.filter_In, <- !list_elem_of_In.
    split.
    + destruct (appears_in_last_log self logs p); [left|right]; done.
    + rewrite <- appears_in_last_log_spec. split; [by intros [_ ?]|done].
  - intros earlier row later a p -> Hreq Herr Hmsg Hlater.
    by apply load_data_recipient.
  - intros customer llm_log timestamp Hlast.
    destruct (get_last_llm_log_most_recent logs customer llm_log timestamp
                Hlast) as (row & ? & ? & ? & _ & ?).
    by exists row.
  - apply get_last_llm_log_None.
  - apply get_last_llm_log_latest.
  - intros p customer row llm_log Hp Hrec Hrecent Hllm.
    rewrite !list_elem_of_In, !List.filter_In, <- !list_elem_of_In.
    rewrite <- (appears_in_most_recent_log self logs p customer row llm_log)
      by done.
    split; [split; [by intros [_ ?]|done]|].
    destruct (appears_in_last_log self logs p); cbn [negb]; split.
    + by intros [_ ?].
    + by intros [].
    + done.
    + done.
  - intros p customer Hp Hrec Hnone.
    rewrite list_elem_of_In, List.filter_In, <- list_elem_of_In.
    split; [done|].
    by rewrite (appears_without_log self logs p customer Hrec Hnone).
Qed.

End AuditFacts.

(** ** Fuzzy matching of proposal items *)

Module AnalyticsFacts.
Import Messaging PyOrder Analytics PyOrderFacts Examples.

#[export] Instance cand_le_po : PartialOrder cand_le.
Proof. unfold cand_le. apply _. Qed.

#[export] Instance cand_le_total : Total cand_le.
Proof. unfold cand_le. apply _. Qed.

Lemma elem_of_iteration set_iter (X : gset string) x :
  iteration_order set_iter → x ∈ set_iter X ↔ x ∈ X.
Proof. intros Hit. by rewrite (Hit X), elem_of_elements. Qed.

Lemma NoDup_iteration set_iter (X : gset string) :
  iteration_order set_iter → NoDup (set_iter X).
Proof. intros Hit. rewrite (Hit X). apply NoDup_elements. Qed.

Section Matching.
Variable lower : string → string.
Variable self : MarketplaceAnalytics.

Lemma fuzzy_distances_perm it1 it2 menu_items proposal_items :
  iteration_order it1 → iteration_order it2 →
  fuzzy_distances lower it1 self menu_items proposal_items ≡ₚ
  fuzzy_distances lower it2 self menu_items proposal_items.
Proof.
  intros H1 H2. unfold fuzzy_distances. apply flat_map_perm.
  - intros menu_item. apply flat_map_perm; [done|].
    by rewrite (H1 proposal_items), (H2 proposal_items).
  - by rewrite (H1 menu_items), (H2 menu_items).
Qed.

Lemma elem_of_fuzzy_distances set_iter menu_items proposal_items d m p :
  iteration_order set_iter →
  (d, m, p) ∈ fuzzy_distances lower set_iter self menu_items proposal_items ↔
  m ∈ menu_items ∧ p ∈ proposal_items ∧
  d = levenshtein_distance (lower m) (lower p) ∧
  (Z.of_nat d ≤ fuzzy_match_distance self)%Z.
Proof.
  intros Hit. unfold fuzzy_distances.
  rewrite list_elem_of_In, in_flat_map. setoid_rewrite in_flat_map.
  setoid_rewrite <- list_elem_of_In.
  setoid_rewrite (elem_of_iteration set_iter _ _ Hit). split.
  - intros (m' & Hm & p' & Hp & Hin). case_decide as Hle.
    + apply list_elem_of_singleton in Hin. by injection Hin as -> -> ->.
    + by apply elem_of_nil in Hin.
  - intros (Hm & Hp & -> & Hle). exists m. split; [done|].
    exists p. split; [done|]. rewrite decide_True by done. by left.
Qed.

(** What the greedy loop does on a sorted list of candidates. *)
Lemma greedy_spec candidates :
  StronglySorted cand_le candidates →
  ∀ (menu_items proposal_items matched_items : gset string)
    (fuzzy_matches : list cand),
  ∃ new,
    foldl greedy_step
      (menu_items, proposal_items, matched_items, fuzzy_matches) candidates =
      (menu_items ∖ list_to_set (match_menu_item <$> new),
       proposal_items ∖ list_to_set (match_proposal_item <$> new),
       matched_items ∪ list_to_set (match_menu_item <$> new),
       fuzzy_matches ++ new) ∧
    NoDup (match_menu_item <$> new) ∧
    NoDup (match_proposal_item <$> new) ∧
    (∀ x, x ∈ new →
       candidate_of x ∈ candidates ∧ match_menu_item x ∈ menu_items ∧
       match_proposal_item x ∈ proposal_items) ∧
    StronglySorted (λ x y, cand_le (candidate_of x) (candidate_of y)) new ∧
    (∀ d m p, (d, m, p) ∈ candidates → m ∈ menu_items → p ∈ proposal_items →
       (d, p, m) ∈ new ∨
       ∃ x, x ∈ new ∧ (match_menu_item x = m ∨ match_proposal_item x = p) ∧
            cand_le (candidate_of x) (d, m, p)).
Proof.
  induction 1 as [|[[d0 m0] p0] candidates Hsorted IH Hall];
    intros menu_items proposal_items matched_items fuzzy_matches.
  { exists []. cbn [foldl fmap list_fmap list_to_set foldr].
    rewrite !difference_empty_L, union_empty_r_L, app_nil_r.
    split_and!; [done|constructor|constructor| |constructor|].
    - intros x Hx. by apply elem_of_nil in Hx.
    - intros d m p Hin. by apply elem_of_nil in Hin. }
  rewrite Forall_forall in Hall. cbn [foldl]. unfold greedy_step at 2.
  case_decide as Havail.
  - destruct Havail as [Hm0 Hp0].
    destruct (IH (menu_items ∖ {[m0]}) (proposal_items ∖ {[p0]})
                (matched_items ∪ {[m0]}) (fuzzy_matches ++ [(d0, p0, m0)]))
      as (new & -> & Hnd1 & Hnd2 & Hin & Hs & Hblocked).
    exists ((d0, p0, m0) :: new). cbn [fmap list_fmap list_to_set foldr].
    change (match_menu_item (d0, p0, m0)) with m0.
    change (match_proposal_item (d0, p0, m0)) with p0.
    split_and!.
    + rewrite <- app_assoc. cbn [app].
      rewrite !difference_difference_l_L, <- !(assoc_L (∪)). done.
    + constructor; [|done]. intros (x & Hx & Hxin)%list_elem_of_fmap.
      destruct (Hin x Hxin) as (_ & Hxm & _). rewrite <- Hx in Hxm.
      apply elem_of_difference in Hxm as [_ Hne]. apply Hne.
      by apply elem_of_singleton.
    + constructor; [|done]. intros (x & Hx & Hxin)%list_elem_of_fmap.
      destruct (Hin x Hxin) as (_ & _ & Hxp). rewrite <- Hx in Hxp.
      apply elem_of_difference in Hxp as [_ Hne]. apply Hne.
      by apply elem_of_singleton.
    + intros x [->|Hx]%elem_of_cons.
      * split_and!; [by left|done..].
      * destruct (Hin x Hx) as (Hc & Hxm & Hxp).
        apply elem_of_difference in Hxm as [Hxm _].
        apply elem_of_difference in Hxp as [Hxp _].
        split_and!; [by right|done..].
    + constructor; [done|]. apply Forall_forall. intros x Hx.
      destruct (Hin x Hx) as (Hc & _). by apply Hall.
    + intros d m p [[= -> -> ->]|Hc]%elem_of_cons Hm Hp.
      { left. by left. }
      destruct (decide (m = m0 ∨ p = p0)) as [Hshare|Hnot].
      * right. exists (d0, p0, m0). split_and!; [by left| |by apply Hall].
        destruct Hshare as [-> | ->]; [by left|by right].
      * assert (Hm' : m ∈ menu_items ∖ {[m0]}).
        { apply elem_of_difference. split; [done|].
          rewrite elem_of_singleton. intros ->. apply Hnot. by left. }
        assert (Hp' : p ∈ proposal_items ∖ {[p0]}).
        { apply elem_of_difference. split; [done|].
          rewrite elem_of_singleton. intros ->. apply Hnot. by right. }
        destruct (Hblocked d m p Hc Hm' Hp')
          as [Hchosen|(x & Hx & Hsh & Hle)].
        -- left. by right.
        -- right. exists x. split_and!; [by right|done..].
  - destruct (IH menu_items proposal_items matched_items fuzzy_matches)
      as (new & -> & Hnd1 & Hnd2 & Hin & Hs & Hblocked).
    exists new. split_and!; [done..| |done|].
    + intros x Hx. destruct (Hin x Hx) as (Hc & ? & ?).
      split_and!; [by right|done..].
    + intros d m p [[= -> -> ->]|Hc]%elem_of_cons Hm Hp; [|by eauto].
      by destruct Havail.
Qed.

Lemma cand_le_distance (x y : cand) : cand_le x y → x.1.1 ≤ y.1.1.
Proof.
  destruct x as [[d1 m1] p1], y as [[d2 m2] p2]. unfold cand_le, lex_le. simpl.
  intros [[_ [[_ ?]|[-> _]]]|[[= -> _] _]]; lia.
Qed.

Lemma StronglySorted_weaken {A} (R1 R2 : relation A) (l : list A) :
  (∀ x y, R1 x y → R2 x y) → StronglySorted R1 l → StronglySorted R2 l.
Proof.
  intros Himpl. induction 1 as [|x l _ IH Hall]; constructor; [done|].
  eapply Forall_impl; [exact Hall|]. auto.
Qed.

(** The result of [filter_valid_proposal_items] for a known business. *)
Lemma filter_valid_proposal_items_spec set_iter business_agent_id proposal
    business :
  iteration_order set_iter →
  business_agents self !! business_agent_id = Some business →
  let exact := exact_matches business proposal in
  let menu := dom (b_menu_features business) ∖ exact in
  let proposed :=
    (list_to_set (item_name <$> items proposal) : gset string) ∖ exact in
  ∃ fuzzy_matches,
    filter_valid_proposal_items lower set_iter self business_agent_id proposal =
      Some (exact ∪ list_to_set (match_menu_item <$> fuzzy_matches),
            fuzzy_matches) ∧
    NoDup (match_menu_item <$> fuzzy_matches) ∧
    NoDup (match_proposal_item <$> fuzzy_matches) ∧
    (∀ x, x ∈ fuzzy_matches →
       match_menu_item x ∈ menu ∧ match_proposal_item x ∈ proposed ∧
       match_distance x =
         levenshtein_distance (lower (match_menu_item x))
                              (lower (match_proposal_item x)) ∧
       (Z.of_nat (match_distance x) ≤ fuzzy_match_distance self)%Z) ∧
    StronglySorted (λ x y, match_distance x ≤ match_distance y)
                   fuzzy_matches ∧
    (∀ m p, m ∈ menu → p ∈ proposed →
       (0 < fuzzy_match_distance self)%Z →
       (Z.of_nat (levenshtein_distance (lower m) (lower p))
        ≤ fuzzy_match_distance self)%Z →
       (levenshtein_distance (lower m) (lower p), p, m) ∈ fuzzy_matches ∨
       ∃ x, x ∈ fuzzy_matches ∧
            (match_menu_item x = m ∨ match_proposal_item x = p) ∧
            cand_le (candidate_of x)
                    (levenshtein_distance (lower m) (lower p), m, p)).
Proof.
  intros Hit Hb. cbv zeta. unfold filter_valid_proposal_items. rewrite Hb.
  cbn [mbind option_bind]. fold (exact_matches business proposal).
  set (exact := exact_matches business proposal).
  case_decide as Hfuzzy.
  - set (menu := dom (b_menu_features business) ∖ exact).
    set (proposed := list_to_set (item_name <$> items proposal) ∖ exact).
    set (candidates :=
           merge_sort cand_le (fuzzy_distances lower set_iter self menu proposed)).
    assert (Hsorted : StronglySorted cand_le candidates)
      by (apply StronglySorted_merge_sort; apply _).
    destruct (greedy_spec candidates Hsorted menu proposed exact [])
      as (new & -> & Hnd1 & Hnd2 & Hin & Hs & Hblocked).
    exists new. cbn [app]. split_and!; [done..| | |].
    + intros x Hx. destruct (Hin x Hx) as (Hc & Hm & Hp).
      unfold candidates in Hc. rewrite merge_sort_Permutation in Hc.
      destruct x as [[d p] m].
      apply (elem_of_fuzzy_distances set_iter) in Hc as (_ & _ & Hd & Hle);
        done.
    + eapply StronglySorted_weaken; [|exact Hs].
      intros x y Hle. by apply cand_le_distance in Hle.
    + intros m p Hm Hp _ Hle. apply Hblocked; [|done..].
      unfold candidates. rewrite merge_sort_Permutation.
      by apply (elem_of_fuzzy_distances set_iter).
  - exists []. cbn [fmap list_fmap list_to_set foldr].
    rewrite union_empty_r_L.
    split_and!; [done|constructor|constructor| |constructor|done].
    intros x Hx. by apply elem_of_nil in Hx.
Qed.

End Matching.

(** C5: for a fixed menu, proposal and threshold the result of
    [filter_valid_proposal_items] does not depend on the order in which the
    sets are iterated; the fuzzy matches are listed by non-decreasing
    Levenshtein distance, each within the threshold; a candidate pair within
    the threshold that was not picked shares its menu item or its proposal
    item with a picked pair that comes no later in the sorted order; and no
    menu item and no proposal item occurs in two matches, exact matches
    included. *)
Theorem filter_valid_proposal_items_deterministic
  (lower : string → string) (it1 it2 : gset string → list string)
  (self : MarketplaceAnalytics) (business_agent_id : string)
  (proposal : OrderProposal) :
  iteration_order it1 → iteration_order it2 →
  filter_valid_proposal_items lower it1 self business_agent_id proposal =
  filter_valid_proposal_items lower it2 self business_agent_id proposal ∧
  ∀ business,
    business_agents self !! business_agent_id = Some business →
    let exact := exact_matches business proposal in
    let menu := dom (b_menu_features business) ∖ exact in
    let proposed :=
      (list_to_set (item_name <$> items proposal) : gset string) ∖ exact in
    ∃ fuzzy_matches,
      filter_valid_proposal_items lower it1 self business_agent_id proposal =
        Some (exact ∪ list_to_set (match_menu_item <$> fuzzy_matches),
              fuzzy_matches) ∧
      NoDup (match_menu_item <$> fuzzy_matches) ∧
      NoDup (match_proposal_item <$> fuzzy_matches) ∧
      (∀ x, x ∈ fuzzy_matches →
         match_menu_item x ∈ menu ∧ match_proposal_item x ∈ proposed ∧
         match_distance x =
           levenshtein_distance (lower (match_menu_item x))
                                (lower (match_proposal_item x)) ∧
         (Z.of_nat (match_distance x) ≤ fuzzy_match_distance self)%Z) ∧
      StronglySorted (λ x y, match_distance x ≤ match_distance y)
                     fuzzy_matches ∧
      (∀ m p, m ∈ menu → p ∈ proposed →
         (0 < fuzzy_match_distance self)%Z →
         (Z.of_nat (levenshtein_distance (lower m) (lower p))
          ≤ fuzzy_match_distance self)%Z →
         (levenshtein_distance (lower m) (lower p), p, m) ∈ fuzzy_matches ∨
         ∃ x, x ∈ fuzzy_matches ∧
              (match_menu_item x = m ∨ match_proposal_item x = p) ∧
              cand_le (candidate_of x)
                      (levenshtein_distance (lower m) (lower p), m, p)).
Proof.
  intros H1 H2. split.
  - unfold filter_valid_proposal_items.
    destruct (business_agents self !! business_agent_id) as [business|];
      [|done].
    cbn [mbind option_bind]. case_decide; [|done].
    by rewrite (merge_sort_perm cand_le _ _
                  (fuzzy_distances_perm lower self it1 it2 _ _ H1 H2)).
  - intros business Hb.
    by apply (filter_valid_proposal_items_spec lower self it1).
Qed.

(** ** Customer utility *)

Section Utility.
Variable lower : string → string.
Variable set_iter : gset string → list string.
Variable py_sum : list Q → Q.
Variable self : MarketplaceAnalytics.

Lemma find_business_registered proposal_id business_agent_id :
  senders_registered self →
  _find_business_for_proposal self proposal_id = Some business_agent_id →
  is_Some (business_agents self !! business_agent_id).
Proof.
  intros Hreg. unfold _find_business_for_proposal.
  destruct (List.find _ (business_messages self)) as [kv|] eqn:Hfind; [|done].
  intros [= <-]. apply Hreg. apply List.find_some in Hfind as [Hin _].
  by apply list_elem_of_In.
Qed.

Lemma filter_valid_proposal_items_is_Some business_agent_id proposal :
  is_Some (business_agents self !! business_agent_id) →
  is_Some (filter_valid_proposal_items lower set_iter self business_agent_id
             proposal).
Proof.
  intros [business Hb]. unfold filter_valid_proposal_items. rewrite Hb.
  cbn [mbind option_bind]. case_decide; [|by eexists].
  destruct (foldl greedy_step _ _) as [[[? ?] ?] ?]. by eexists.
Qed.

(** [pick] is the function [paid_proposals] maps over the payments.  A
    payment that counts for a proposal of an unregistered business makes
    the step raise [KeyError]. *)
Lemma utility_step_cases customer_agent_id customer proposals_received payment
    total_payments needs_met fuzzy :
  let pick :=
    proposal ← List.find
      (λ p, bool_decide (op_id p = proposal_message_id payment))
      proposals_received;
    business_agent_id ←
      found_business (_find_business_for_proposal self (op_id proposal));
    Some (proposal, business_agent_id) in
  let step :=
    utility_step lower set_iter self customer_agent_id customer
      proposals_received (Some (total_payments, needs_met, fuzzy)) payment in
  match pick with
  | None => step = Some (total_payments, needs_met, fuzzy)
  | Some paid =>
      match business_agents self !! paid.2 with
      | Some _ =>
          ∃ fuzzy',
            step =
            Some (PyFloat.add total_payments (total_price paid.1),
                  needs_met ||
                    meets_needs lower set_iter self customer_agent_id
                      customer paid,
                  fuzzy')
      | None => step = None
      end
  end.
Proof.
  cbv zeta. unfold utility_step. cbn [mbind option_bind].
  destruct (List.find _ proposals_received) as [proposal|];
    cbn [mbind option_bind]; [|done].
  destruct (_find_business_for_proposal self (op_id proposal))
    as [business_agent_id|] eqn:Hb;
    cbn [found_business mbind option_bind]; [|done].
  case_bool_decide as Hempty; cbn [mbind option_bind]; [done|].
  unfold meets_needs. cbn [fst snd].
  destruct (business_agents self !! business_agent_id) as [business|] eqn:Hreg.
  - destruct (filter_valid_proposal_items_is_Some business_agent_id proposal)
      as [[proposal_items fuzzy_matches] ->]; [by eexists|].
    cbn [mbind option_bind]. case_decide as Hsub.
    + rewrite bool_decide_true by done. cbn [andb].
      destruct (check_amenity_match self customer_agent_id business_agent_id);
        eexists; by rewrite ?orb_true_r, ?orb_false_r.
    + rewrite bool_decide_false by done. cbn [andb].
      eexists; by rewrite ?orb_false_r.
  - unfold filter_valid_proposal_items. by rewrite Hreg.
Qed.

Lemma utility_loop_raised customer_agent_id customer proposals_received
    payments :
  foldl (utility_step lower set_iter self customer_agent_id customer
           proposals_received) None payments = None.
Proof. by induction payments. Qed.

Lemma utility_loop_cases customer_agent_id customer proposals_received
    payments total_payments needs_met fuzzy :
  let pick := λ payment : Payment,
    proposal ← List.find
      (λ p, bool_decide (op_id p = proposal_message_id payment))
      proposals_received;
    business_agent_id ←
      found_business (_find_business_for_proposal self (op_id proposal));
    Some (proposal, business_agent_id) in
  let loop :=
    foldl (utility_step lower set_iter self customer_agent_id customer
             proposals_received)
          (Some (total_payments, needs_met, fuzzy)) payments in
  let registered := λ paid : OrderProposal * string,
    is_Some (business_agents self !! paid.2) in
  (Forall registered (omap pick payments) →
   ∃ fuzzy',
     loop =
     Some (fold_left PyFloat.add (total_price <$> (omap pick payments).*1)
             total_payments,
           needs_met ||
             existsb (meets_needs lower set_iter self customer_agent_id
                        customer)
                     (omap pick payments),
           fuzzy')) ∧
  (¬ Forall registered (omap pick payments) → loop = None).
Proof.
  intros pick. cbv zeta. revert total_payments needs_met fuzzy.
  induction payments as [|payment payments IH];
    intros total_payments needs_met fuzzy.
  { split; [|by intros []]. intros _. exists fuzzy. simpl.
    by rewrite orb_false_r. }
  cbn [foldl omap list_omap].
  pose proof (utility_step_cases customer_agent_id customer proposals_received
                payment total_payments needs_met fuzzy) as Hstep.
  cbv zeta in Hstep. fold (pick payment) in Hstep |- *.
  destruct (pick payment) as [paid|].
  - destruct (business_agents self !! paid.2) as [business|] eqn:Hreg.
    + destruct Hstep as [fuzzy1 ->].
      destruct (IH (PyFloat.add total_payments (total_price paid.1))
                   (needs_met ||
                      meets_needs lower set_iter self customer_agent_id
                        customer paid) fuzzy1) as [IHsome IHnone].
      split.
      * intros Hall. apply Forall_cons in Hall as [_ Hall].
        destruct (IHsome Hall) as [fuzzy' ->]. exists fuzzy'.
        cbn [fmap list_fmap fst fold_left existsb]. by rewrite orb_assoc.
      * intros Hnot. apply IHnone. intros Hall. apply Hnot.
        apply Forall_cons. split; [by rewrite Hreg|done].
    + rewrite Hstep, utility_loop_raised. split; [|done].
      intros Hall. apply Forall_cons in Hall as [[? Hsome] _].
      by rewrite Hreg in Hsome.
  - rewrite Hstep. apply IH.
Qed.

(** The utility of a registered customer: a [KeyError] when a payment
    that counts is for a proposal of an unregistered business, and
    otherwise the rounded difference of match score and payments. *)
Lemma calculate_customer_utility_cases customer_agent_id customer :
  customer_agents self !! customer_agent_id = Some customer →
  let paid := paid_proposals self customer_agent_id in
  let needs_met :=
    existsb (meets_needs lower set_iter self customer_agent_id customer) paid in
  let match_score :=
    if needs_met then match_score_of set_iter py_sum customer else 0%Q in
  (paid_to_registered self customer_agent_id →
   ∃ fuzzy,
     calculate_customer_utility lower set_iter py_sum self customer_agent_id =
       Some (PyFloat.round
               (PyFloat.sub match_score
                  (total_payments_of self customer_agent_id)) 2,
             needs_met, fuzzy)) ∧
  (¬ paid_to_registered self customer_agent_id →
   calculate_customer_utility lower set_iter py_sum self customer_agent_id
     = None).
Proof.
  intros Hc. cbv zeta. unfold calculate_customer_utility. rewrite Hc.
  edestruct (utility_loop_cases customer_agent_id customer) as [Hsome Hnone].
  split.
  - intros Hall. destruct (Hsome Hall) as [fuzzy ->]. by exists fuzzy.
  - intros Hnot. by rewrite (Hnone Hnot).
Qed.

Lemma senders_registered_paid customer_agent_id :
  senders_registered self → paid_to_registered self customer_agent_id.
Proof.
  intros Hreg. apply Forall_forall. intros [proposal business_agent_id] Hin.
  unfold paid_proposals in Hin.
  apply list_elem_of_omap in Hin as (payment & _ & Hpick).
  destruct (List.find _ _) as [p|]; cbn [mbind option_bind] in Hpick; [|done].
  destruct (_find_business_for_proposal self (op_id p)) as [b|] eqn:Hb;
    cbn [found_business mbind option_bind] in Hpick; [|done].
  case_bool_decide; cbn [mbind option_bind] in Hpick; [done|].
  injection Hpick as <- <-. by apply (find_business_registered (op_id p)).
Qed.

(** The utility when every sender is registered. *)
Lemma calculate_customer_utility_spec customer_agent_id customer :
  senders_registered self →
  customer_agents self !! customer_agent_id = Some customer →
  let paid := paid_proposals self customer_agent_id in
  let needs_met :=
    existsb (meets_needs lower set_iter self customer_agent_id customer) paid in
  let match_score :=
    if needs_met then match_score_of set_iter py_sum customer else 0%Q in
  ∃ fuzzy,
    calculate_customer_utility lower set_iter py_sum self customer_agent_id =
      Some (PyFloat.round
              (PyFloat.sub match_score
                 (total_payments_of self customer_agent_id)) 2,
            needs_met, fuzzy).
Proof.
  intros Hreg Hc.
  apply (calculate_customer_utility_cases customer_agent_id customer Hc).
  by apply senders_registered_paid.
Qed.

End Utility.

Lemma iteration_order_elements : iteration_order elements.
Proof. intros X. reflexivity. Qed.

Lemma iteration_order_backwards : iteration_order backwards.
Proof. intros X. apply reverse_Permutation. Qed.

Lemma filter_valid_proposal_items_deterministic_witness :
  iteration_order elements ∧ iteration_order backwards ∧
  filter_valid_proposal_items lower_ascii elements
    (paid_once 2 true typo_proposal) "business-1" typo_proposal =
  filter_valid_proposal_items lower_ascii backwards
    (paid_once 2 true typo_proposal) "business-1" typo_proposal.
Proof.
  split; [exact iteration_order_elements|].
  split; [exact iteration_order_backwards|].
  apply (filter_valid_proposal_items_deterministic lower_ascii elements
           backwards (paid_once 2 true typo_proposal) "business-1"
           typo_proposal iteration_order_elements iteration_order_backwards).
Defined.

Lemma senders_registered_paid_once threshold wifi proposal :
  senders_registered (paid_once threshold wifi proposal).
Proof.
  intros kv Hkv. apply list_elem_of_singleton in Hkv as ->. by eexists.
Qed.

(** C3, as the specification states it, fails: the customer pays 0.125 for a
    proposal of a business without wifi, the needs are not met, and the
    utility returned is not minus the payment but the float -0.12. *)
Lemma utility_is_rounded :
  ∃ utility fuzzy,
    calculate_customer_utility lower_ascii elements PyFloat.sum_left
      (paid_once 0 false cheap_proposal) "customer-1" =
      Some (utility, false, fuzzy) ∧
    total_payments_of (paid_once 0 false cheap_proposal) "customer-1"
      == 1 # 8 ∧
    utility == PyFloat.literal (- (12 # 100)) ∧
    ¬ utility == - (1 # 8).
Proof.
  eexists _, _. split; [vm_compute; reflexivity|].
  split; [vm_compute; reflexivity|].
  split; [vm_compute; reflexivity|]. vm_compute. discriminate.
Qed.

(** The payments are added as floats: after payments of 0.001 and 0.014
    the total is the float below 0.015 and the utility the float -0.01,
    where exact decimal arithmetic would round -0.015 to -0.02. *)
Lemma utility_of_sub_cent_payments :
  ∀ py_sum : list Q → Q,
  ∃ utility needs_met fuzzy,
    calculate_customer_utility lower_ascii elements py_sum
      (Scenarios.paid_twice Scenarios.tenth_of_a_cent
         Scenarios.cent_and_a_half) "customer-1" =
      Some (utility, needs_met, fuzzy) ∧
    utility == PyFloat.literal (- (1 # 100)) ∧
    PyOrder.round2 (- ((1 # 1000) + (14 # 1000))) == - (2 # 100).
Proof.
  intros py_sum. eexists _, _, _. split; [vm_compute; reflexivity|].
  split; vm_compute; reflexivity.
Qed.

(** C3 (amended): [calculate_customer_utility] returns [(0.0, False)] for
    an unknown customer.  For a registered customer it raises [KeyError]
    when a payment that counts (one for a proposal the customer received
    and whose sending business is found) is for a proposal of an
    unregistered business.  Otherwise it returns [needs_met], true exactly
    when some paid proposal meets the customer's needs, and the utility
    [round(match_score - total_payments, 2)] in floating-point arithmetic:
    [total_payments] is the float sum, in the order of the payments, of the
    total prices of the paid proposals, and [match_score] is
    [2 * sum(willingness to pay)] when [needs_met] is true and [0]
    otherwise.  For the customer with menu features taco 10 and burrito 15
    and required amenity wifi, an exactly matching business with wifi and
    one correctly priced payment of 25 the result is utility 25 and
    [needs_met] true. *)
Theorem calculate_customer_utility_formula :
  (∀ (lower : string → string) (set_iter : gset string → list string)
     (py_sum : list Q → Q) (self : MarketplaceAnalytics)
     (customer_agent_id : string),
     customer_agents self !! customer_agent_id = None →
     calculate_customer_utility lower set_iter py_sum self customer_agent_id
       = Some (0%Q, false, purchased_proposal_fuzzy_matches self)) ∧
  (∀ (lower : string → string) (set_iter : gset string → list string)
     (py_sum : list Q → Q) (self : MarketplaceAnalytics)
     (customer_agent_id : string) (customer : Customer),
     customer_agents self !! customer_agent_id = Some customer →
     let paid := paid_proposals self customer_agent_id in
     let needs_met :=
       existsb (meets_needs lower set_iter self customer_agent_id customer)
               paid in
     let match_score :=
       if needs_met
       then PyFloat.mul (PyFloat.of_int 2)
              (py_sum (PyFloat.values set_iter (c_menu_features customer)))
       else 0%Q in
     let total_payments :=
       fold_left PyFloat.add (total_price <$> paid.*1) 0%Q in
     (Forall (λ paid, is_Some (business_agents self !! paid.2)) paid →
      ∃ fuzzy,
        calculate_customer_utility lower set_iter py_sum self
          customer_agent_id =
        Some (PyFloat.round (PyFloat.sub match_score total_payments) 2,
              needs_met, fuzzy)) ∧
     (¬ Forall (λ paid, is_Some (business_agents self !! paid.2)) paid →
      calculate_customer_utility lower set_iter py_sum self
        customer_agent_id = None)) ∧
  (∃ utility fuzzy,
     calculate_customer_utility lower_ascii elements PyFloat.sum_left
       (paid_once 0 true exact_proposal) "customer-1" =
       Some (utility, true, fuzzy) ∧
     utility == 25).
Proof.
  split_and!.
  - intros lower set_iter py_sum self customer_agent_id Hc.
    unfold calculate_customer_utility. by rewrite Hc.
  - intros lower set_iter py_sum self customer_agent_id customer Hc.
    apply (calculate_customer_utility_cases lower set_iter py_sum self
             customer_agent_id customer Hc).
  - eexists _, _. split; vm_compute; reflexivity.
Qed.

Lemma calculate_customer_utility_formula_witness :
  customer_agents (paid_once 0 true exact_proposal) !! "customer-1"
    = Some hungry_customer ∧
  Forall (λ paid : OrderProposal * string,
            is_Some (business_agents (paid_once 0 true exact_proposal)
                       !! paid.2))
         (paid_proposals (paid_once 0 true exact_proposal) "customer-1") ∧
  (∃ fuzzy,
     calculate_customer_utility lower_ascii elements PyFloat.sum_left
       (paid_once 0 true exact_proposal) "customer-1" =
     Some (PyFloat.round
             (PyFloat.sub
                (if existsb
                      (meets_needs lower_ascii elements
                         (paid_once 0 true exact_proposal) "customer-1"
                         hungry_customer)
                      (paid_proposals (paid_once 0 true exact_proposal)
                         "customer-1")
                 then PyFloat.mul (PyFloat.of_int 2)
                        (PyFloat.sum_left
                           (PyFloat.values elements
                              (c_menu_features hungry_customer)))
                 else 0%Q)
                (fold_left PyFloat.add
                   (total_price <$>
                      (paid_proposals (paid_once 0 true exact_proposal)
                         "customer-1").*1) 0%Q)) 2,
           existsb
             (meets_needs lower_ascii elements
                (paid_once 0 true exact_proposal) "customer-1"
                hungry_customer)
             (paid_proposals (paid_once 0 true exact_proposal) "customer-1"),
           fuzzy)) ∧
  customer_agents (Scenarios.sender_unregistered exact_proposal)
    !! "customer-1" = Some hungry_customer ∧
  ¬ Forall (λ paid : OrderProposal * string,
              is_Some (business_agents
                         (Scenarios.sender_unregistered exact_proposal)
                         !! paid.2))
           (paid_proposals (Scenarios.sender_unregistered exact_proposal)
              "customer-1") ∧
  calculate_customer_utility lower_ascii elements PyFloat.sum_left
    (Scenarios.sender_unregistered exact_proposal) "customer-1" = None.
Proof.
  assert (Hc : customer_agents (paid_once 0 true exact_proposal)
                 !! "customer-1" = Some hungry_customer) by reflexivity.
  assert (Hreg : Forall (λ paid : OrderProposal * string,
            is_Some (business_agents (paid_once 0 true exact_proposal)
                       !! paid.2))
         (paid_proposals (paid_once 0 true exact_proposal) "customer-1")).
  { apply Forall_cons. split; [by eexists|apply Forall_nil_2]. }
  assert (Hc' : customer_agents (Scenarios.sender_unregistered exact_proposal)
                  !! "customer-1" = Some hungry_customer) by reflexivity.
  assert (Hnot : ¬ Forall (λ paid : OrderProposal * string,
              is_Some (business_agents
                         (Scenarios.sender_unregistered exact_proposal)
                         !! paid.2))
           (paid_proposals (Scenarios.sender_unregistered exact_proposal)
              "customer-1")).
  { intros Hall. apply Forall_cons in Hall as [[business Hb] _].
    discriminate Hb. }
  split; [exact Hc|]. split; [exact Hreg|].
  split.
  - exact (proj1 (proj1 (proj2 calculate_customer_utility_formula)
             lower_ascii elements PyFloat.sum_left
             (paid_once 0 true exact_proposal) "customer-1" hungry_customer
             Hc) Hreg).
  - split; [exact Hc'|]. split; [exact Hnot|].
    exact (proj2 (proj1 (proj2 calculate_customer_utility_formula)
             lower_ascii elements PyFloat.sum_left
             (Scenarios.sender_unregistered exact_proposal) "customer-1"
             hungry_customer Hc') Hnot).
Defined.

(** ** Detection of an invalid menu item *)

(** C6, as the specification states it, fails: "buritto" is at distance 2
    from "burrito", the error reports distance 2, and with threshold 1 the
    item is not matched. *)
Lemma buritto_is_two_edits_away :
  ¬ (levenshtein_distance "buritto" "burrito" = 1 ∧
     check_proposal_errors lower_ascii elements
       (paid_once 0 true typo_proposal) typo_proposal "business-1"
       "customer-1" =
       Some [InvalidMenuItem "p1" "business-1" "customer-1" "buritto"
               "burrito" 1] ∧
     ∃ matched fuzzy,
       filter_valid_proposal_items lower_ascii elements
         (paid_once 1 true typo_proposal) "business-1" typo_proposal =
         Some (matched, fuzzy) ∧ "burrito" ∈ matched).
Proof. intros [Hd _]. vm_compute in Hd. discriminate. Qed.

(** C6 (amended): "buritto" is at Levenshtein distance 2 from "burrito".
    For a proposal listing "buritto" against a menu with "burrito",
    [check_proposal_errors] flags [InvalidMenuItem] with closest menu item
    "burrito" at distance 2, whatever the threshold; with
    [fuzzy_match_distance] 0 or 1 [filter_valid_proposal_items] does not
    match the item, with [fuzzy_match_distance] 2 it matches it to
    "burrito". *)
Theorem buritto_detection :
  levenshtein_distance "buritto" "burrito" = 2 ∧
  (∀ threshold : Z,
     check_proposal_errors lower_ascii elements
       (paid_once threshold true typo_proposal) typo_proposal "business-1"
       "customer-1" =
     Some [InvalidMenuItem "p1" "business-1" "customer-1" "buritto"
             "burrito" 2]) ∧
  filter_valid_proposal_items lower_ascii elements
    (paid_once 0 true typo_proposal) "business-1" typo_proposal =
    Some ({["taco"]}, []) ∧
  filter_valid_proposal_items lower_ascii elements
    (paid_once 1 true typo_proposal) "business-1" typo_proposal =
    Some ({["taco"]}, []) ∧
  filter_valid_proposal_items lower_ascii elements
    (paid_once 2 true typo_proposal) "business-1" typo_proposal =
    Some ({["taco"; "burrito"]}, [(2, "buritto", "burrito")]).
Proof.
  split_and!.
  - vm_compute. reflexivity.
  - intros threshold. vm_compute. reflexivity.
  - vm_compute. reflexivity.
  - vm_compute. reflexivity.
  - vm_compute. reflexivity.
Qed.

End AnalyticsFacts.

(** ** The edit distance is a metric *)

Module LevenshteinMetric.
Import Levenshtein LevenshteinFacts.

Section Generic.
Context {A : Type} `{EqDecision A}.
Implicit Types (s t u : list A).

Lemma lev_triangle s t u : lev s u ≤ lev s t + lev t u.
Proof.
  apply lev_le_edits. eapply edits_trans; apply edits_lev.
Qed.

Lemma lev_le_max s t : lev s t ≤ Nat.max (length s) (length t).
Proof.
  revert t. induction s as [|a s IH]; intros t.
  { rewrite lev_nil_l. cbn [length]. lia. }
  destruct t as [|b t].
  { rewrite lev_nil_r. cbn [length]. lia. }
  rewrite lev_cons. specialize (IH t). pose proof (neq_cost_le a b).
  cbn [length]. lia.
Qed.

(** X1: [levenshtein_distance] satisfies the triangle inequality, is at
    most the length of the longer string and at least the difference of the
    two lengths. *)
Theorem levenshtein_distance_metric (s1 s2 s3 : list A) :
  levenshtein_distance s1 s3 ≤
    levenshtein_distance s1 s2 + levenshtein_distance s2 s3
  ∧ levenshtein_distance s1 s2 ≤ Nat.max (length s1) (length s2)
  ∧ length s1 - length s2 ≤ levenshtein_distance s1 s2
  ∧ length s2 - length s1 ≤ levenshtein_distance s1 s2.
Proof.
  rewrite !levenshtein_distance_lev. split_and!.
  - apply lev_triangle.
  - apply lev_le_max.
  - apply lev_length_diff.
  - rewrite lev_sym. apply lev_length_diff.
Qed.

End Generic.
End LevenshteinMetric.

(** ** Sorting by a price, sums and rounding *)

Module PySortFacts.
Import PyOrder PySort.

Section SortByQkey.
Context {A : Type} (key : A → Q).

Lemma insert_by_Qkey_perm x l : insert_by_Qkey key x l ≡ₚ x :: l.
Proof.
  induction l as [|y l IH]; simpl; [done|].
  destruct (Qle_bool (key x) (key y)); [done|].
  by rewrite IH, Permutation_swap.
Qed.

Lemma sort_by_Qkey_perm l : sort_by_Qkey key l ≡ₚ l.
Proof.
  induction l as [|x l IH]; [done|].
  cbn [sort_by_Qkey foldr]. fold (sort_by_Qkey key l).
  by rewrite insert_by_Qkey_perm, IH.
Qed.

Lemma insert_by_Qkey_sorted x l :
  Qkey_sorted key l → Qkey_sorted key (insert_by_Qkey key x l).
Proof.
  unfold Qkey_sorted. induction 1 as [|y l Hs IH Hall]; simpl.
  - repeat constructor.
  - destruct (Qle_bool (key x) (key y)) eqn:Hxy.
    + apply Qle_bool_iff in Hxy.
      constructor; [by constructor|]. constructor; [done|].
      eapply Forall_impl; [exact Hall|]. simpl. intros z Hz.
      by apply Qle_trans with (key y).
    + assert (Hyx : (key y <= key x)%Q).
      { apply Qlt_le_weak, Qnot_le_lt. intros Hle.
        apply Qle_bool_iff in Hle. congruence. }
      constructor; [done|].
      rewrite (insert_by_Qkey_perm x l). by constructor.
Qed.

Lemma sort_by_Qkey_sorted l : Qkey_sorted key (sort_by_Qkey key l).
Proof.
  induction l as [|x l IH]; [constructor|].
  cbn [sort_by_Qkey foldr]. by apply insert_by_Qkey_sorted.
Qed.

End SortByQkey.

(** The sum of a list of amounts, whatever the order of addition. *)
Lemma fold_left_Qplus (l : list Q) (a : Q) :
  (fold_left Qplus l a == a + foldr Qplus 0 l)%Q.
Proof.
  revert a. induction l as [|x l IH]; intros a; cbn [fold_left foldr].
  - ring.
  - rewrite IH. ring.
Qed.

Lemma foldr_Qplus_perm (l1 l2 : list Q) :
  l1 ≡ₚ l2 → (foldr Qplus 0 l1 == foldr Qplus 0 l2)%Q.
Proof.
  induction 1 as [|x l1 l2 _ IH|x y l|l1 l2 l3 _ IH1 _ IH2]; cbn [foldr].
  - reflexivity.
  - by rewrite IH.
  - ring.
  - by rewrite IH1.
Qed.

Lemma Qsum_perm (l1 l2 : list Q) : l1 ≡ₚ l2 → (Qsum l1 == Qsum l2)%Q.
Proof.
  intros Hp. unfold Qsum. rewrite !fold_left_Qplus.
  by rewrite (foldr_Qplus_perm l1 l2).
Qed.

(** Rounding does not depend on how the amount is written as a fraction. *)
Lemma round_half_even_proper (q1 q2 : Q) :
  (q1 == q2)%Q → round_half_even q1 = round_half_even q2.
Proof.
  intros Hq. unfold round_half_even.
  assert (Hf : Qfloor q1 = Qfloor q2) by (by rewrite Hq).
  rewrite Hf.
  assert (Hc : Qcompare (q1 - inject_Z (Qfloor q2))%Q (1 # 2)%Q =
               Qcompare (q2 - inject_Z (Qfloor q2))%Q (1 # 2)%Q).
  { by rewrite Hq. }
  by rewrite Hc.
Qed.

Lemma round2_proper (q1 q2 : Q) : (q1 == q2)%Q → round2 q1 = round2 q2.
Proof.
  intros Hq. unfold round2. f_equal. f_equal.
  apply round_half_even_proper. by rewrite Hq.
Qed.

End PySortFacts.

(** ** Menu matches and the optimal business *)

Module MenuMatchesFacts.
Import Messaging PyOrder PySort Analytics MenuMatches PySortFacts.

Lemma elem_of_iter set_iter (X : gset string) x :
  iteration_order set_iter → x ∈ set_iter X ↔ x ∈ X.
Proof. intros Hit. by rewrite (Hit X), elem_of_elements. Qed.

Lemma NoDup_iter set_iter (X : gset string) :
  iteration_order set_iter → NoDup (set_iter X).
Proof. intros Hit. rewrite (Hit X). apply NoDup_elements. Qed.

Lemma price_requested_spec menu_features requested_items total_price :
  let result := price_requested menu_features requested_items total_price in
  (result.2 = true ↔
   ∀ item_name, item_name ∈ requested_items →
                is_Some (menu_features !! item_name)) ∧
  (result.2 = true →
   (result.1 ==
      total_price +
      foldr Qplus 0 ((λ item_name, default 0 (menu_features !! item_name))
                       <$> requested_items))%Q).
Proof.
  revert total_price.
  induction requested_items as [|item_name rest IH]; intros total_price.
  { cbn. split; [split; [|done]|].
    - intros _ i Hi. by apply elem_of_nil in Hi.
    - intros _. ring. }
  cbn [price_requested].
  destruct (menu_features !! item_name) as [price|] eqn:Hprice.
  - destruct (IH (total_price + price)%Q) as [IH1 IH2]. cbv zeta. split.
    + rewrite IH1. split.
      * intros Hall i Hi. apply elem_of_cons in Hi as [->|Hi]; [by eexists|].
        by apply Hall.
      * intros Hall i Hi. apply Hall. by right.
    + intros Hok. rewrite (IH2 Hok). cbn [fmap list_fmap foldr].
      rewrite Hprice. change (default 0%Q (Some price)) with price. ring.
  - cbn. split; [split; [done|]|done].
    intros Hall. destruct (Hall item_name) as [x Hx]; [by left|]. congruence.
Qed.

Section Matches.
Variable set_iter : gset string → list string.
Variable agent_iter : gset string → list string.
Variable customer_agents : gmap string Customer.
Variable business_agents : gmap string Business.
Hypothesis set_iter_order : iteration_order set_iter.
Hypothesis agent_iter_order : iteration_order agent_iter.

Lemma price_requested_customer customer business :
  let result :=
    price_requested (b_menu_features business)
      (set_iter (dom (c_menu_features customer))) 0%Q in
  (result.2 = true ↔ can_fulfill customer business) ∧
  (result.2 = true → round2 result.1 = round2 (menu_price customer business)).
Proof.
  destruct (price_requested_spec (b_menu_features business)
              (set_iter (dom (c_menu_features customer))) 0%Q) as [H1 H2].
  cbv zeta in *. split.
  - rewrite H1. unfold can_fulfill. split.
    + intros Hall i Hi. apply elem_of_dom. apply Hall.
      by apply elem_of_iter.
    + intros Hsub i Hi. apply elem_of_dom, Hsub.
      by apply elem_of_iter in Hi.
  - intros Hok. apply round2_proper. rewrite (H2 Hok). unfold menu_price, Qsum.
    rewrite fold_left_Qplus. apply Qplus_comp; [reflexivity|].
    apply foldr_Qplus_perm. apply fmap_Permutation, set_iter_order.
Qed.

Lemma elem_of_calculate_menu_matches customer_agent_id customer
    business_agent_id price :
  customer_agents !! customer_agent_id = Some customer →
  (business_agent_id, price) ∈
    calculate_menu_matches set_iter agent_iter customer_agents business_agents
      customer_agent_id ↔
  ∃ business, business_agents !! business_agent_id = Some business ∧
    can_fulfill customer business ∧
    price = round2 (menu_price customer business).
Proof.
  intros Hc. unfold calculate_menu_matches. rewrite Hc.
  rewrite sort_by_Qkey_perm, list_elem_of_omap. split.
  - intros (b & Hb & Hsome).
    destruct (business_agents !! b) as [business|] eqn:Hbus; [|done].
    cbn in Hsome.
    destruct (price_requested_customer customer business) as [H1 H2].
    cbv zeta in *.
    destruct (price_requested _ _ _) as [total ok]. destruct ok; [|done].
    injection Hsome as <- <-. exists business. split_and!; [done| |].
    + by apply H1.
    + by apply H2.
  - intros (business & Hbus & Hful & ->). exists business_agent_id. split.
    + apply elem_of_iter; [done|]. apply elem_of_dom. by eexists.
    + rewrite Hbus. cbn.
      destruct (price_requested_customer customer business) as [H1 H2].
      cbv zeta in *.
      destruct (price_requested _ _ _) as [total ok]. cbn in *.
      apply H1 in Hful. subst ok. by rewrite H2.
Qed.

Lemma NoDup_calculate_menu_matches customer_agent_id :
  NoDup (calculate_menu_matches set_iter agent_iter customer_agents
           business_agents customer_agent_id).*1.
Proof.
  unfold calculate_menu_matches.
  destruct (customer_agents !! customer_agent_id) as [customer|];
    [|apply NoDup_nil_2].
  rewrite sort_by_Qkey_perm.
  pose proof (NoDup_iter agent_iter (dom business_agents) agent_iter_order)
    as Hnd.
  induction Hnd as [|b l Hnotin Hnd IH]; [apply NoDup_nil_2|].
  cbn [omap list_omap].
  destruct (business_agents !! b) as [business|]; [|exact IH]. cbn.
  destruct (price_requested _ _ _) as [total ok]. destruct ok; [|exact IH].
  cbn [fmap list_fmap fst]. apply NoDup_cons. split; [|exact IH].
  intros Hin. apply Hnotin. apply list_elem_of_fmap in Hin as ([b' q] & -> & Hin).
  apply list_elem_of_omap in Hin as (b'' & Hb'' & Hsome).
  destruct (business_agents !! b'') as [business'|]; [|done]. cbn in Hsome.
  destruct (price_requested _ _ _) as [total' ok']. destruct ok'; [|done].
  by injection Hsome as <- <-.
Qed.

Lemma check_amenity_match_spec customer_agent_id business_agent_id
    customer business :
  customer_agents !! customer_agent_id = Some customer →
  business_agents !! business_agent_id = Some business →
  check_amenity_match customer_agents business_agents customer_agent_id
    business_agent_id = true ↔
  has_amenities customer business.
Proof.
  intros Hc Hb. unfold check_amenity_match. rewrite Hc, Hb.
  rewrite bool_decide_eq_true. unfold has_amenities. split.
  - intros Hsub amenity Hin.
    assert (Hd : amenity ∈ dom (filter (λ kv, kv.2 = true)
                                  (b_amenity_features business))).
    { apply Hsub. by apply elem_of_list_to_set. }
    apply elem_of_dom in Hd as [v Hv].
    apply map_lookup_filter_Some in Hv as [Hv Ht]. cbn in Ht. by subst v.
  - intros Hall amenity Hin. apply elem_of_list_to_set in Hin.
    apply elem_of_dom. exists true. apply map_lookup_filter_Some.
    split; [by apply Hall|done].
Qed.

End Matches.



(** The first element of a sorted list that passes a test is smallest
    among those that pass. *)
Lemma find_sorted_least {A} (R : relation A) `{!Reflexive R}
    (P : A → bool) (l : list A) (x : A) :
  StronglySorted R l → List.find P l = Some x →
  x ∈ l ∧ P x = true ∧ ∀ y, y ∈ l → P y = true → R x y.
Proof.
  induction 1 as [|z l Hs IH Hall]; cbn [List.find]; [done|].
  destruct (P z) eqn:Hz.
  - intros [= ->]. split_and!; [by left|done|].
    intros y Hy _. apply elem_of_cons in Hy as [->|Hy]; [done|].
    rewrite Forall_forall in Hall. by apply Hall.
  - intros Hfind. destruct (IH Hfind) as (Hin & HP & Hleast).
    split_and!; [by right|done|].
    intros y Hy HPy. apply elem_of_cons in Hy as [->|Hy]; [congruence|].
    by apply Hleast.
Qed.

Lemma find_none_iff {A} (P : A → bool) (l : list A) :
  List.find P l = None ↔ ∀ y, y ∈ l → P y = false.
Proof.
  induction l as [|z l IH]; cbn [List.find].
  - split; [|done]. intros _ y Hy. by apply elem_of_nil in Hy.
  - destruct (P z) eqn:Hz.
    + split; [done|]. intros Hall. specialize (Hall z). rewrite Hz in Hall.
      discriminate Hall. by left.
    + rewrite IH. split.
      * intros Hall y Hy. apply elem_of_cons in Hy as [->|Hy]; [done|].
        by apply Hall.
      * intros Hall y Hy. apply Hall. by right.
Qed.



End MenuMatchesFacts.

(** ** Proposal validation *)

Module ProposalChecksFacts.
Import Messaging PyOrder Analytics ProposalChecks PyOrderFacts AnalyticsFacts.

#[export] Instance dist_le_po : PartialOrder dist_le.
Proof. unfold dist_le. apply _. Qed.

#[export] Instance dist_le_total : Total dist_le.
Proof. unfold dist_le. apply _. Qed.

Lemma dist_le_distance (x y : nat * string) : dist_le x y → x.1 ≤ y.1.
Proof. intros [[_ Hle]|[Heq _]]; [done|]. by rewrite Heq. Qed.

(** The head of a sorted list is a least element of the list. *)
Lemma head_merge_sort_least {A} (R : relation A) `{!RelDecision R}
    `{!PartialOrder R, !Total R} (l : list A) (x : A) :
  head (merge_sort R l) = Some x → x ∈ l ∧ ∀ y, y ∈ l → R x y.
Proof.
  intros Hhead.
  pose proof (StronglySorted_merge_sort R l) as Hsorted.
  pose proof (merge_sort_Permutation R l) as Hperm.
  destruct (merge_sort R l) as [|z sorted]; [done|].
  injection Hhead as ->. split.
  - rewrite <- Hperm. by left.
  - intros y Hy. rewrite <- Hperm in Hy.
    apply elem_of_cons in Hy as [->|Hy]; [done|].
    apply StronglySorted_inv in Hsorted as [_ Hall].
    rewrite Forall_forall in Hall. by apply Hall.
Qed.

Lemma head_merge_sort_None {A} (R : relation A) `{!RelDecision R}
    (l : list A) :
  head (merge_sort R l) = None ↔ l = [].
Proof.
  pose proof (merge_sort_Permutation R l) as Hperm. split.
  - intros Hhead. destruct (merge_sort R l); [|done].
    by apply Permutation_nil_l in Hperm.
  - intros ->. apply Permutation_nil_r in Hperm. by rewrite Hperm.
Qed.

Lemma Qle_bool_false (x y : Q) : Qle_bool x y = false ↔ (y < x)%Q.
Proof.
  split.
  - intros Hb. apply Qnot_le_lt. intros Hle. apply Qle_bool_iff in Hle.
    congruence.
  - intros Hlt. apply not_true_is_false. intros Hb.
    apply Qle_bool_iff in Hb. by apply Qlt_not_le in Hlt.
Qed.

Section Checks.
Variable lower : string → string.
Variable set_iter : gset string → list string.

Lemma check_item_spec business_menu proposal_id business_agent_id
    customer_agent_id proposed_total errors item :
  match check_item lower set_iter business_menu proposal_id business_agent_id
          customer_agent_id (Some (proposed_total, errors)) item with
  | Some (proposed_total', errors') =>
      proposed_total' =
        PyFloat.add proposed_total
          (PyFloat.mul (unit_price item) (PyFloat.of_int (quantity item))) ∧
      ((errors' = errors ∧ priced_as_on_menu business_menu item) ∨
       (∃ e, errors' = errors ++ [e] ∧
             ¬ priced_as_on_menu business_menu item ∧
             reports lower set_iter business_menu proposal_id business_agent_id
               customer_agent_id item e))
  | None =>
      business_menu !! item_name item = None ∧
      set_iter (dom business_menu) = []
  end.
Proof.
  unfold check_item, reports, priced_as_on_menu, within_a_cent.
  cbn [mbind option_bind].
  destruct (business_menu !! item_name item) as [actual_price|] eqn:Hprice.
  - destruct (Qle_bool (PyFloat.literal (1 # 100))
                (Qabs (PyFloat.sub (unit_price item) actual_price)))
      eqn:Hfar.
    + split; [done|]. right. eexists. split; [done|].
      apply Qle_bool_iff in Hfar. split.
      * intros (p & [= <-] & Hlt). by apply Qlt_not_le in Hlt.
      * split; [done|]. intros Hlt. by apply Qlt_not_le in Hlt.
    + split; [done|]. left. split; [done|]. exists actual_price.
      split; [done|]. by apply Qle_bool_false.
  - destruct (head (merge_sort dist_le _)) as [[d m]|] eqn:Hhead; cbn.
    + apply head_merge_sort_least in Hhead as [Hin Hleast]; [|apply _..].
      apply list_elem_of_fmap in Hin as (m' & [= -> ->] & Hin).
      split; [done|]. right. eexists. split; [done|].
      split; [by intros (p & ? & _)|].
      eexists _, _. split_and!; [done..|].
      intros menu_item Hmenu.
      apply (dist_le_distance
               (levenshtein_distance (lower (item_name item)) (lower m'), m')
               (levenshtein_distance (lower (item_name item))
                  (lower menu_item), menu_item)).
      apply Hleast. apply list_elem_of_fmap. by exists menu_item.
    + split; [done|]. apply head_merge_sort_None in Hhead.
      by apply fmap_nil_inv in Hhead.
Qed.

Lemma check_item_None business_menu proposal_id business_agent_id
    customer_agent_id l :
  foldl (check_item lower set_iter business_menu proposal_id
           business_agent_id customer_agent_id) None l = None.
Proof. by induction l. Qed.

(** The loop over the items of a proposal. *)
Lemma check_items_spec business_menu proposal_id business_agent_id
    customer_agent_id l proposed_total errors :
  match foldl (check_item lower set_iter business_menu proposal_id
                 business_agent_id customer_agent_id)
              (Some (proposed_total, errors)) l with
  | Some (proposed_total', errors') =>
      proposed_total' =
        fold_left (λ total item,
                     PyFloat.add total
                       (PyFloat.mul (unit_price item)
                                    (PyFloat.of_int (quantity item))))
                  l proposed_total ∧
      ∃ new, errors' = errors ++ new ∧
        (new = [] ↔ Forall (priced_as_on_menu business_menu) l) ∧
        (∀ e, e ∈ new →
           ∃ item, item ∈ l ∧
             reports lower set_iter business_menu proposal_id
               business_agent_id customer_agent_id item e) ∧
        (∀ item, item ∈ l → ¬ priced_as_on_menu business_menu item →
           ∃ e, e ∈ new ∧
             reports lower set_iter business_menu proposal_id
               business_agent_id customer_agent_id item e)
  | None =>
      set_iter (dom business_menu) = [] ∧
      ∃ item, item ∈ l ∧ business_menu !! item_name item = None
  end.
Proof.
  revert proposed_total errors.
  induction l as [|item l IH]; intros proposed_total errors.
  { cbn. split; [done|]. exists []. rewrite app_nil_r.
    split_and!; [done|done| |].
    - intros e He. by apply elem_of_nil in He.
    - intros item Hin. by apply elem_of_nil in Hin. }
  cbn [foldl fold_left].
  pose proof (check_item_spec business_menu proposal_id business_agent_id
                customer_agent_id proposed_total errors item) as Hitem.
  destruct (check_item _ _ _ _ _ _ _ item) as [[total1 errors1]|].
  - destruct Hitem as [-> Hcase]. specialize (IH
      (PyFloat.add proposed_total
         (PyFloat.mul (unit_price item) (PyFloat.of_int (quantity item))))
      errors1).
    destruct (foldl _ _ l) as [[total2 errors2]|].
    + destruct IH as (-> & new & -> & Hnil & Hrep & Hall). split; [done|].
      destruct Hcase as [[-> Hok]|(e & -> & Hbad & He)].
      * exists new. split_and!; [done| | |].
        -- rewrite Hnil. split; [by constructor|].
           intros Hfa. by apply Forall_cons in Hfa as [_ ?].
        -- intros e He. destruct (Hrep e He) as (item' & Hin & Hr).
           exists item'. split; [by right|done].
        -- intros item' Hin Hbad.
           apply elem_of_cons in Hin as [->|Hin]; [done|]. by apply Hall.
      * exists (e :: new). split_and!.
        -- by rewrite <- app_assoc.
        -- split; [done|]. intros Hfa.
           by apply Forall_cons in Hfa as [? _].
        -- intros e' He'. apply elem_of_cons in He' as [->|He'].
           ++ exists item. split; [by left|done].
           ++ destruct (Hrep e' He') as (item' & Hin & Hr).
              exists item'. split; [by right|done].
        -- intros item' Hin Hbad'. apply elem_of_cons in Hin as [->|Hin].
           ++ exists e. split; [by left|done].
           ++ destruct (Hall item' Hin Hbad') as (e' & He' & Hr).
              exists e'. split; [by right|done].
    + destruct IH as (Hempty & item' & Hin & Hnone). split; [done|].
      exists item'. split; [by right|done].
  - rewrite check_item_None. destruct Hitem as [Hnone Hempty].
    split; [done|]. exists item. split; [by left|done].
Qed.

Lemma check_proposal_errors_cases self proposal business_agent_id
    customer_agent_id business :
  business_agents self !! business_agent_id = Some business →
  let before :=
    match customer_agents self !! customer_agent_id with
    | Some _ => []
    | None => [InvalidCustomer (op_id proposal) business_agent_id
                 customer_agent_id]
    end in
  let after :=
    if Qle_bool (PyFloat.literal (1 # 100))
         (Qabs (PyFloat.sub (total_price proposal)
                            (calculated_total proposal)))
    then [InvalidTotalPrice (op_id proposal) business_agent_id
            customer_agent_id (total_price proposal)
            (calculated_total proposal)]
    else [] in
  match check_proposal_errors lower set_iter self proposal business_agent_id
          customer_agent_id with
  | Some errors =>
      ∃ new, errors = before ++ new ++ after ∧
        (new = [] ↔
         Forall (priced_as_on_menu (b_menu_features business))
                (items proposal)) ∧
        (∀ e, e ∈ new →
           ∃ item, item ∈ items proposal ∧
             reports lower set_iter (b_menu_features business) (op_id proposal)
               business_agent_id customer_agent_id item e) ∧
        (∀ item, item ∈ items proposal →
           ¬ priced_as_on_menu (b_menu_features business) item →
           ∃ e, e ∈ new ∧
             reports lower set_iter (b_menu_features business) (op_id proposal)
               business_agent_id customer_agent_id item e)
  | None =>
      set_iter (dom (b_menu_features business)) = [] ∧
      ∃ item, item ∈ items proposal ∧
        b_menu_features business !! item_name item = None
  end.
Proof.
  intros Hb. cbv zeta. unfold check_proposal_errors. rewrite Hb.
  cbn [mbind option_bind].
  pose proof (check_items_spec (b_menu_features business) (op_id proposal)
                business_agent_id customer_agent_id (items proposal) 0%Q
                (match customer_agents self !! customer_agent_id with
                 | Some _ => []
                 | None => [] ++ [InvalidCustomer (op_id proposal)
                                    business_agent_id customer_agent_id]
                 end)) as Hloop.
  destruct (foldl _ _ (items proposal)) as [[total errors]|]; [|exact Hloop].
  destruct Hloop as (-> & new & -> & Hnil & Hrep & Hall).
  fold (calculated_total proposal). cbn [mbind option_bind].
  destruct (Qle_bool _ _); exists new;
    destruct (customer_agents self !! customer_agent_id);
    cbn [app]; rewrite ?app_nil_r, <- ?app_assoc; done.
Qed.

End Checks.

(** A taco offered at 10.01 where the menu says 10 is accepted: the float
    difference of the two prices is below the float 0.01, although the
    decimal difference is a cent. *)
Lemma a_cent_more_is_accepted :
  check_proposal_errors lower_ascii elements
    (Examples.paid_once 0 true Scenarios.a_cent_more) Scenarios.a_cent_more
    "business-1" "customer-1" = Some [] ∧
  (Qabs (PyFloat.sub (PyFloat.literal (1001 # 100)) 10)
   < PyFloat.literal (1 # 100))%Q ∧
  ((1001 # 100) - 10 == 1 # 100)%Q.
Proof. split_and!; vm_compute; reflexivity. Qed.


Lemma check_proposal_errors_None
  (lower : string → string) (set_iter : gset string → list string)
  (self : MarketplaceAnalytics) (proposal : OrderProposal)
  (business_agent_id customer_agent_id : string) :
  iteration_order set_iter →
  check_proposal_errors lower set_iter self proposal business_agent_id
    customer_agent_id = None ↔
  ∃ business,
    business_agents self !! business_agent_id = Some business ∧
    b_menu_features business = ∅ ∧ items proposal ≠ [].
Proof.
  intros Hit.
  assert (Hempty : ∀ m : gmap string Q, set_iter (dom m) = [] ↔ m = ∅).
  { intros m. split.
    - intros Hnil. apply dom_empty_iff_L. apply leibniz_equiv.
      apply elements_empty_iff. apply Permutation_nil_r.
      rewrite <- (Hit (dom m)). by rewrite Hnil.
    - intros ->. apply Permutation_nil_r. rewrite (Hit _).
      by rewrite dom_empty_L, elements_empty. }
  destruct (business_agents self !! business_agent_id) as [business|] eqn:Hb.
  - pose proof (check_proposal_errors_cases lower set_iter self proposal
                  business_agent_id customer_agent_id business Hb) as Hcases.
    cbv zeta in Hcases. split.
    + intros Hnone. rewrite Hnone in Hcases.
      destruct Hcases as (Hnil & item & Hin & _).
      exists business. split_and!; [done|by apply Hempty|].
      intros Heq. rewrite Heq in Hin. by apply elem_of_nil in Hin.
    + intros (business' & [= <-] & Hmenu & Hitems).
      destruct (check_proposal_errors _ _ _ _ _ _) as [errors|]; [|done].
      exfalso. destruct Hcases as (new & _ & _ & _ & Hall).
      destruct (items proposal) as [|item rest] eqn:Hi; [done|].
      destruct (Hall item) as (e & _ & Hrep); [by left| |].
      * intros (price & Hsome & _). rewrite Hmenu in Hsome.
        by rewrite lookup_empty in Hsome.
      * unfold reports in Hrep. rewrite Hmenu, lookup_empty in Hrep.
        destruct Hrep as (d & m & _ & Hin & _).
        assert (Hnil : set_iter (dom (∅ : gmap string Q)) = [])
          by (by apply Hempty).
        rewrite Hnil in Hin.
        by apply elem_of_nil in Hin.
  - split.
    + unfold check_proposal_errors. rewrite Hb.
      destruct (customer_agents self !! customer_agent_id); discriminate.
    + by intros (business & ? & _).
Qed.



(** X6: every [InvalidMenuItem] error that [check_proposal_errors] returns
    is about an item of the proposal that is not on the menu of the sending
    business, and names a menu item whose distance to it (after
    lower-casing) is the distance recorded and is the least over the whole
    menu; conversely every item that is not on the menu is reported. *)
Theorem invalid_menu_item_names_closest
  (lower : string → string) (set_iter : gset string → list string)
  (self : MarketplaceAnalytics) (proposal : OrderProposal)
  (business_agent_id customer_agent_id : string)
  (errors : list OrderProposalError) :
  iteration_order set_iter →
  check_proposal_errors lower set_iter self proposal business_agent_id
    customer_agent_id = Some errors →
  (∀ proposal_id business_id customer_id proposed closest distance,
     InvalidMenuItem proposal_id business_id customer_id proposed closest
       distance ∈ errors →
     ∃ business item,
       business_agents self !! business_agent_id = Some business ∧
       item ∈ items proposal ∧ item_name item = proposed ∧
       proposal_id = op_id proposal ∧ business_id = business_agent_id ∧
       customer_id = customer_agent_id ∧
       b_menu_features business !! proposed = None ∧
       is_Some (b_menu_features business !! closest) ∧
       distance = levenshtein_distance (lower proposed) (lower closest) ∧
       ∀ menu_item, is_Some (b_menu_features business !! menu_item) →
         distance ≤ levenshtein_distance (lower proposed) (lower menu_item)) ∧
  (∀ business item,
     business_agents self !! business_agent_id = Some business →
     item ∈ items proposal →
     b_menu_features business !! item_name item = None →
     ∃ closest distance,
       InvalidMenuItem (op_id proposal) business_agent_id customer_agent_id
         (item_name item) closest distance ∈ errors).
Proof.
  intros Hit Herrors.
  destruct (business_agents self !! business_agent_id) as [business|] eqn:Hb.
  - pose proof (check_proposal_errors_cases lower set_iter self proposal
                  business_agent_id customer_agent_id business Hb) as Hcases.
    cbv zeta in Hcases. rewrite Herrors in Hcases.
    destruct Hcases as (new & -> & _ & Hrep & Hall). split.
    + intros pid bid cid proposed closest d Hin.
      assert (Hnew : InvalidMenuItem pid bid cid proposed closest d ∈ new).
      { apply elem_of_app in Hin as [Hin|Hin].
        - destruct (customer_agents self !! customer_agent_id).
          + by apply elem_of_nil in Hin.
          + by apply list_elem_of_singleton in Hin.
        - apply elem_of_app in Hin as [Hin|Hin]; [done|].
          destruct (Qle_bool _ _).
          + by apply list_elem_of_singleton in Hin.
          + by apply elem_of_nil in Hin. }
      destruct (Hrep _ Hnew) as (item & Hitem & Hr). unfold reports in Hr.
      destruct (b_menu_features business !! item_name item) eqn:Hmenu.
      { by destruct Hr as [? _]. }
      destruct Hr as (d' & m & [= -> -> -> -> -> ->] & Hm & -> & Hleast).
      exists business, item. split_and!; [done..| | |].
      * apply elem_of_dom. by apply (elem_of_iteration set_iter) in Hm.
      * done.
      * intros menu_item Hsome. apply Hleast.
        apply (elem_of_iteration set_iter); [done|]. by apply elem_of_dom.
    + intros business' item [= <-] Hitem Hnone.
      destruct (Hall item Hitem) as (e & He & Hr).
      { intros (price & Hsome & _). congruence. }
      unfold reports in Hr. rewrite Hnone in Hr.
      destruct Hr as (d & m & -> & _). exists m, d.
      apply elem_of_app. right. apply elem_of_app. by left.
  - split; [|done].
    intros pid bid cid proposed closest d Hin. exfalso.
    unfold check_proposal_errors in Herrors. rewrite Hb in Herrors.
    injection Herrors as <-.
    destruct (customer_agents self !! customer_agent_id); cbn in Hin.
    + by apply list_elem_of_singleton in Hin.
    + apply elem_of_cons in Hin as [Hin|Hin]; [done|].
      by apply list_elem_of_singleton in Hin.
Qed.

Lemma invalid_menu_item_names_closest_witness :
  iteration_order elements ∧
  check_proposal_errors lower_ascii elements
    (Examples.paid_once 0 true Examples.typo_proposal) Examples.typo_proposal
    "business-1" "customer-1" =
    Some [InvalidMenuItem "p1" "business-1" "customer-1" "buritto"
            "burrito" 2] ∧
  ∃ closest distance,
    InvalidMenuItem "p1" "business-1" "customer-1" "buritto" closest distance
      ∈ [InvalidMenuItem "p1" "business-1" "customer-1" "buritto"
           "burrito" 2].
Proof.
  assert (Herrors :
    check_proposal_errors lower_ascii elements
      (Examples.paid_once 0 true Examples.typo_proposal)
      Examples.typo_proposal "business-1" "customer-1" =
      Some [InvalidMenuItem "p1" "business-1" "customer-1" "buritto"
              "burrito" 2]) by (vm_compute; reflexivity).
  split; [exact AnalyticsFacts.iteration_order_elements|].
  split; [exact Herrors|].
  apply (proj2 (invalid_menu_item_names_closest lower_ascii elements
                  (Examples.paid_once 0 true Examples.typo_proposal)
                  Examples.typo_proposal "business-1" "customer-1" _
                  AnalyticsFacts.iteration_order_elements Herrors)
               (Examples.taqueria true)
               (Examples.order_item "buritto" 15)).
  - reflexivity.
  - right. left.
  - vm_compute. reflexivity.
Defined.

End ProposalChecksFacts.

(** ** Raising the fuzzy-match threshold *)

Module FuzzyThresholdFacts.
Import Messaging PyOrder Analytics FuzzyThreshold PyOrderFacts AnalyticsFacts
  PySortFacts PyFloatFacts.

Section Threshold.
Variable lower : string → string.
Variable set_iter : gset string → list string.
Variable self : MarketplaceAnalytics.

(** The candidates under a threshold are those of a larger threshold that
    are within the smaller one, in the same order. *)
Lemma fuzzy_distances_filter t1 t2 menu_items proposal_items :
  (t1 ≤ t2)%Z →
  fuzzy_distances lower set_iter (with_fuzzy_match_distance t1 self)
    menu_items proposal_items =
  filter (λ c : cand, (Z.of_nat c.1.1 ≤ t1)%Z)
    (fuzzy_distances lower set_iter (with_fuzzy_match_distance t2 self)
       menu_items proposal_items).
Proof.
  intros Hle. unfold fuzzy_distances.
  cbn [fuzzy_match_distance with_fuzzy_match_distance].
  generalize (set_iter proposal_items). intros ps.
  induction (set_iter menu_items) as [|m ms IHm]; [done|].
  cbn [flat_map]. rewrite filter_app, <- IHm. f_equal. clear IHm.
  induction ps as [|p ps IHp]; [done|].
  cbn [flat_map]. rewrite filter_app, <- IHp. f_equal.
  repeat case_decide; rewrite ?filter_cons, ?filter_nil; cbn [fst snd];
    repeat case_decide; try done; lia.
Qed.

(** Sorting puts the candidates within a threshold before the others. *)
Lemma merge_sort_by_distance (t : Z) (L : list cand) :
  merge_sort cand_le L =
  merge_sort cand_le (filter (λ c : cand, (Z.of_nat c.1.1 ≤ t)%Z) L) ++
  merge_sort cand_le (filter (λ c : cand, ¬ (Z.of_nat c.1.1 ≤ t)%Z) L).
Proof.
  apply (StronglySorted_unique cand_le).
  - apply StronglySorted_merge_sort; apply _.
  - apply StronglySorted_app_2.
    + intros [[d1 m1] p1] [[d2 m2] p2] H1 H2.
      rewrite merge_sort_Permutation in H1, H2.
      apply list_elem_of_filter in H1 as [H1 _].
      apply list_elem_of_filter in H2 as [H2 _]. cbn in H1, H2.
      left. cbn. split; [intros [= ? ?]; lia|].
      left. cbn. split; lia.
    + apply StronglySorted_merge_sort; apply _.
    + apply StronglySorted_merge_sort; apply _.
  - rewrite !merge_sort_Permutation. by rewrite filter_app_complement.
Qed.

End Threshold.

Lemma filter_valid_proposal_items_grows
  (lower : string → string) (set_iter : gset string → list string)
  (self : MarketplaceAnalytics) (t1 t2 : Z) (business_agent_id : string)
  (proposal : OrderProposal) :
  (t1 ≤ t2)%Z →
  match filter_valid_proposal_items lower set_iter
          (with_fuzzy_match_distance t1 self) business_agent_id proposal with
  | Some (matched_items, fuzzy_matches) =>
      ∃ more,
        filter_valid_proposal_items lower set_iter
          (with_fuzzy_match_distance t2 self) business_agent_id proposal =
        Some (matched_items ∪ list_to_set (match_menu_item <$> more),
              fuzzy_matches ++ more)
  | None =>
      filter_valid_proposal_items lower set_iter
        (with_fuzzy_match_distance t2 self) business_agent_id proposal = None
  end.
Proof.
  intros Hle. unfold filter_valid_proposal_items.
  cbn [business_agents fuzzy_match_distance with_fuzzy_match_distance].
  destruct (business_agents self !! business_agent_id) as [business|];
    [|done].
  cbn [mbind option_bind].
  set (exact := list_to_set (item_name <$> items proposal)
                ∩ dom (b_menu_features business)).
  set (menu := dom (b_menu_features business) ∖ exact).
  set (proposed := list_to_set (item_name <$> items proposal) ∖ exact).
  destruct (decide (0 < t1)%Z) as [H1|H1].
  - rewrite (decide_True (P := (0 < t2)%Z)) by lia.
    rewrite (merge_sort_by_distance t1
               (fuzzy_distances lower set_iter
                  (with_fuzzy_match_distance t2 self) menu proposed)).
    rewrite <- (fuzzy_distances_filter lower set_iter self t1 t2) by done.
    rewrite foldl_app.
    destruct (foldl greedy_step (menu, proposed, exact, []) _)
      as [[[menu1 proposed1] matched1] fuzzy1].
    match goal with |- context [foldl greedy_step _ ?l] =>
      destruct (greedy_spec l
                  ltac:(apply StronglySorted_merge_sort; apply _)
                  menu1 proposed1 matched1 fuzzy1)
        as (more & -> & _)
    end.
    by exists more.
  - destruct (decide (0 < t2)%Z) as [H2|H2].
    + match goal with |- context [foldl greedy_step _ ?l] =>
        destruct (greedy_spec l
                    ltac:(apply StronglySorted_merge_sort; apply _)
                    menu proposed exact [])
          as (more & -> & _)
      end.
      by exists more.
    + exists []. cbn. by rewrite union_empty_r_L.
Qed.


(** X7: raising [fuzzy_match_distance] only adds matches: what
    [filter_valid_proposal_items] returns under a threshold is kept under
    every larger threshold, the matched items as a subset and the fuzzy
    matches as the first entries of the list. *)
Theorem filter_valid_proposal_items_monotone
  (lower : string → string) (set_iter : gset string → list string)
  (self : MarketplaceAnalytics) (t1 t2 : Z) (business_agent_id : string)
  (proposal : OrderProposal) :
  (t1 ≤ t2)%Z →
  match filter_valid_proposal_items lower set_iter
          (with_fuzzy_match_distance t1 self) business_agent_id proposal with
  | Some (matched_items, fuzzy_matches) =>
      ∃ more,
        filter_valid_proposal_items lower set_iter
          (with_fuzzy_match_distance t2 self) business_agent_id proposal =
        Some (matched_items ∪ list_to_set (match_menu_item <$> more),
              fuzzy_matches ++ more)
  | None =>
      filter_valid_proposal_items lower set_iter
        (with_fuzzy_match_distance t2 self) business_agent_id proposal = None
  end.
Proof. apply filter_valid_proposal_items_grows. Qed.

Lemma filter_valid_proposal_items_monotone_witness :
  (0 ≤ 2)%Z ∧
  ∃ more,
    filter_valid_proposal_items lower_ascii elements
      (with_fuzzy_match_distance 2
         (Examples.paid_once 0 true Examples.typo_proposal))
      "business-1" Examples.typo_proposal =
    Some ({["taco"]} ∪ list_to_set (match_menu_item <$> more), [] ++ more).
Proof.
  split; [lia|].
  assert (Hzero :
    filter_valid_proposal_items lower_ascii elements
      (with_fuzzy_match_distance 0
         (Examples.paid_once 0 true Examples.typo_proposal))
      "business-1" Examples.typo_proposal = Some ({["taco"]}, []))
    by (vm_compute; reflexivity).
  pose proof (filter_valid_proposal_items_monotone lower_ascii elements
                (Examples.paid_once 0 true Examples.typo_proposal) 0 2
                "business-1" Examples.typo_proposal ltac:(lia)) as Hmono.
  rewrite Hzero in Hmono. exact Hmono.
Defined.

Section Utility.
Variable lower : string → string.
Variable set_iter : gset string → list string.
Variable self : MarketplaceAnalytics.

Lemma meets_needs_grows t1 t2 customer_agent_id customer paid :
  (t1 ≤ t2)%Z →
  meets_needs lower set_iter (with_fuzzy_match_distance t1 self)
    customer_agent_id customer paid = true →
  meets_needs lower set_iter (with_fuzzy_match_distance t2 self)
    customer_agent_id customer paid = true.
Proof.
  intros Hle. unfold meets_needs.
  pose proof (filter_valid_proposal_items_grows lower set_iter self t1 t2
                paid.2 paid.1 Hle) as Hgrow.
  destruct (filter_valid_proposal_items lower set_iter
              (with_fuzzy_match_distance t1 self) paid.2 paid.1)
    as [[matched1 fuzzy1]|]; [|done].
  destruct Hgrow as (more & ->).
  rewrite !andb_true_iff, !bool_decide_eq_true.
  intros [Hsub Ham]. split; [|exact Ham].
  intros x Hx. apply elem_of_union. left. by apply Hsub.
Qed.

Lemma existsb_impl {A} (f g : A → bool) (l : list A) :
  (∀ x, f x = true → g x = true) → existsb f l = true → existsb g l = true.
Proof.
  intros Himpl. rewrite !existsb_exists.
  intros (x & Hin & Hf). exists x. split; [done|]. by apply Himpl.
Qed.

End Utility.

(** X8: raising [fuzzy_match_distance] never turns [needs_met] from true
    to false and, for a registered customer whose match score
    [2 * sum(willingness to pay)] is not negative, never lowers the utility
    that [calculate_customer_utility] returns; a call that raises
    [KeyError] under one threshold raises it under the other. *)
Theorem calculate_customer_utility_monotone
  (lower : string → string) (set_iter : gset string → list string)
  (py_sum : list Q → Q)
  (self : MarketplaceAnalytics) (t1 t2 : Z) (customer_agent_id : string)
  (customer : Customer) :
  customer_agents self !! customer_agent_id = Some customer →
  (0 <= match_score_of set_iter py_sum customer)%Q →
  (t1 ≤ t2)%Z →
  match calculate_customer_utility lower set_iter py_sum
          (with_fuzzy_match_distance t1 self) customer_agent_id with
  | Some (utility1, needs_met1, _) =>
      ∃ utility2 needs_met2 fuzzy2,
        calculate_customer_utility lower set_iter py_sum
          (with_fuzzy_match_distance t2 self) customer_agent_id =
          Some (utility2, needs_met2, fuzzy2) ∧
        (needs_met1 = true → needs_met2 = true) ∧
        (utility1 <= utility2)%Q
  | None =>
      calculate_customer_utility lower set_iter py_sum
        (with_fuzzy_match_distance t2 self) customer_agent_id = None
  end.
Proof.
  intros Hc Hpos Hle.
  destruct (calculate_customer_utility_cases lower set_iter py_sum
              (with_fuzzy_match_distance t1 self) customer_agent_id customer
              Hc) as [Hsome1 Hnone1].
  destruct (calculate_customer_utility_cases lower set_iter py_sum
              (with_fuzzy_match_distance t2 self) customer_agent_id customer
              Hc) as [Hsome2 Hnone2].
  cbv zeta in Hsome1, Hsome2.
  change (paid_to_registered (with_fuzzy_match_distance t1 self)
            customer_agent_id)
    with (paid_to_registered self customer_agent_id) in *.
  change (paid_to_registered (with_fuzzy_match_distance t2 self)
            customer_agent_id)
    with (paid_to_registered self customer_agent_id) in *.
  change (total_payments_of (with_fuzzy_match_distance t1 self)
            customer_agent_id)
    with (total_payments_of self customer_agent_id) in *.
  change (total_payments_of (with_fuzzy_match_distance t2 self)
            customer_agent_id)
    with (total_payments_of self customer_agent_id) in *.
  change (paid_proposals (with_fuzzy_match_distance t1 self) customer_agent_id)
    with (paid_proposals self customer_agent_id) in *.
  change (paid_proposals (with_fuzzy_match_distance t2 self) customer_agent_id)
    with (paid_proposals self customer_agent_id) in *.
  destruct (decide (paid_to_registered self customer_agent_id)) as [Hreg|Hnot].
  2:{ rewrite (Hnone1 Hnot). by apply Hnone2. }
  destruct (Hsome1 Hreg) as [fuzzy1 ->]. destruct (Hsome2 Hreg) as [fuzzy2 ->].
  set (n1 := existsb (meets_needs lower set_iter
                        (with_fuzzy_match_distance t1 self)
                        customer_agent_id customer)
                     (paid_proposals self customer_agent_id)) in *.
  set (n2 := existsb (meets_needs lower set_iter
                        (with_fuzzy_match_distance t2 self)
                        customer_agent_id customer)
                     (paid_proposals self customer_agent_id)) in *.
  assert (Hneeds : n1 = true → n2 = true).
  { apply existsb_impl. intros paid. by apply meets_needs_grows. }
  eexists _, _, _. split; [reflexivity|]. split; [exact Hneeds|].
  apply round_mono, sub_mono_l.
  destruct n1, n2; [apply Qle_refl| |exact Hpos|apply Qle_refl].
  discriminate (Hneeds eq_refl).
Qed.

Lemma calculate_customer_utility_monotone_witness :
  customer_agents (Examples.paid_once 0 true Examples.typo_proposal)
    !! "customer-1" = Some Examples.hungry_customer ∧
  (0 <= match_score_of elements PyFloat.sum_left Examples.hungry_customer)%Q ∧
  (0 ≤ 2)%Z ∧
  ∃ utility2 needs_met2 fuzzy2,
    calculate_customer_utility lower_ascii elements PyFloat.sum_left
      (with_fuzzy_match_distance 2
         (Examples.paid_once 0 true Examples.typo_proposal)) "customer-1" =
      Some (utility2, needs_met2, fuzzy2) ∧
    (false = true → needs_met2 = true) ∧
    (PyFloat.literal (- 25) <= utility2)%Q.
Proof.
  assert (Hc : customer_agents
                 (Examples.paid_once 0 true Examples.typo_proposal)
                 !! "customer-1" = Some Examples.hungry_customer)
    by reflexivity.
  assert (Hpos : (0 <= match_score_of elements PyFloat.sum_left
                         Examples.hungry_customer)%Q)
    by (apply Qle_bool_iff; vm_compute; reflexivity).
  assert (H02 : (0 ≤ 2)%Z) by lia.
  split; [exact Hc|]. split; [exact Hpos|]. split; [exact H02|].
  pose proof (calculate_customer_utility_monotone lower_ascii elements
                PyFloat.sum_left
                (Examples.paid_once 0 true Examples.typo_proposal) 0 2
                "customer-1" Examples.hungry_customer Hc Hpos H02) as Hmono.
  assert (Hzero :
    calculate_customer_utility lower_ascii elements PyFloat.sum_left
      (with_fuzzy_match_distance 0
         (Examples.paid_once 0 true Examples.typo_proposal)) "customer-1" =
    Some (PyFloat.literal (- 25), false, ∅))
    by (vm_compute; reflexivity).
  rewrite Hzero in Hmono. exact Hmono.
Defined.

End FuzzyThresholdFacts.

(** ** The analytics engine on a loaded action log *)

Module AnalyticsActionsFacts.
Import Messaging PyOrder PyDict Platform Analytics AnalyticsActions
  AnalyticsFacts ProposalChecksFacts.

Lemma elem_of_append_at {V} (key : string) (v : V) d kv :
  kv ∈ append_at key v d → kv.1 = key ∨ ∃ kv', kv' ∈ d ∧ kv'.1 = kv.1.
Proof.
  induction d as [|[k vs] d IH]; cbn [append_at].
  - intros Hin. apply list_elem_of_singleton in Hin as ->. by left.
  - destruct (decide (k = key)) as [->|Hne].
    + intros Hin. apply elem_of_cons in Hin as [->|Hin]; [by left|].
      right. exists kv. split; [by right|done].
    + intros Hin. apply elem_of_cons in Hin as [->|Hin].
      * right. exists (k, vs). split; [by left|done].
      * destruct (IH Hin) as [?|(kv' & Hin' & Heq)]; [by left|].
        right. exists kv'. split; [by right|done].
Qed.

Section Loading.
Variable lower : string → string.
Variable set_iter : gset string → list string.

(** The agent dictionaries and the threshold are only read. *)
Lemma process_action_row_agents st action_row :
  let st' := _process_action_row lower set_iter st action_row in
  customer_agents st'.1 = customer_agents st.1 ∧
  business_agents st'.1 = business_agents st.1 ∧
  fuzzy_match_distance st'.1 = fuzzy_match_distance st.1.
Proof.
  cbv zeta. unfold _process_action_row, _process_send_message.
  destruct st as [self tally].
  destruct (ar_request action_row) as [action| |]; [|done..].
  destruct (is_error (ar_result action_row)); [done|].
  cbn [fst].
  destruct (Platform.message action) as [text|proposal|payment];
    repeat case_decide; try done;
    destruct (check_proposal_errors _ _ _ _ _ _); repeat case_decide; done.
Qed.

Lemma analyze_actions_agents st actions :
  let st' := analyze_actions lower set_iter st actions in
  customer_agents st'.1 = customer_agents st.1 ∧
  business_agents st'.1 = business_agents st.1 ∧
  fuzzy_match_distance st'.1 = fuzzy_match_distance st.1.
Proof.
  cbv zeta. unfold analyze_actions. revert st.
  induction actions as [|row actions IH]; intros st; [done|].
  cbn [foldl].
  destruct (IH (_process_action_row lower set_iter st row)) as (-> & -> & ->).
  apply process_action_row_agents.
Qed.

(** A business message is filed under the id of a registered business
    when the sender acts under its own id. *)
Lemma process_action_row_senders st action_row :
  (∀ action, ar_request action_row = ActSendMessage action →
             from_agent_id action = ar_agent_id action_row) →
  senders_registered st.1 →
  senders_registered (_process_action_row lower set_iter st action_row).1.
Proof.
  intros Hself Hreg. unfold _process_action_row.
  destruct st as [self tally]. cbn [fst] in *.
  destruct (ar_request action_row) as [action| |] eqn:Hreq; [|done..].
  specialize (Hself action eq_refl).
  unfold _process_send_message.
  destruct (is_error (ar_result action_row)); [done|].
  assert (Hadd : _get_agent_type self (ar_agent_id action_row) = "business" →
            senders_registered
              (add_business_message (from_agent_id action)
                 (Platform.message action) self)).
  { unfold _get_agent_type. repeat case_decide; try done. intros _.
    intros kv Hin. cbn in Hin |- *.
    apply elem_of_append_at in Hin as [->|(kv' & Hin & <-)].
    - by rewrite Hself.
    - by apply Hreg. }
  destruct (Platform.message action) as [text|proposal|payment];
    repeat case_decide; try done;
    try (by apply Hadd);
    destruct (check_proposal_errors _ _ _ _ _ _); repeat case_decide;
    try done; by apply Hadd.
Qed.

Lemma analyze_actions_senders st actions :
  senders_act_as_themselves actions →
  senders_registered st.1 →
  senders_registered (analyze_actions lower set_iter st actions).1.
Proof.
  unfold analyze_actions. revert st.
  induction actions as [|row actions IH]; intros st Hself Hreg; [done|].
  cbn [foldl]. apply IH.
  - intros r a Hin. apply Hself. by right.
  - apply process_action_row_senders; [|done].
    intros a Ha. apply Hself; [by left|done].
Qed.

End Loading.

(** X9: on the state [analyze_actions] builds from a log in which every
    message was sent under the id of the acting agent,
    [calculate_customer_utility] returns for every customer id: the business
    it looks up for a paid proposal is always a registered one, so the
    lookup in [filter_valid_proposal_items] does not raise [KeyError]. *)
Theorem analysed_log_utility_returns
  (lower : string → string) (set_iter : gset string → list string)
  (py_sum : list Q → Q) (threshold : Z) (customers : gmap string Customer)
  (businesses : gmap string Business) (actions : list ActionRow)
  (customer_agent_id : string) :
  senders_act_as_themselves actions →
  let self :=
    (analyze_actions lower set_iter (loaded threshold customers businesses)
       actions).1 in
  customer_agents self = customers ∧
  business_agents self = businesses ∧
  (∀ business_agent_id proposal_id,
     _find_business_for_proposal self proposal_id = Some business_agent_id →
     is_Some (businesses !! business_agent_id)) ∧
  is_Some (calculate_customer_utility lower set_iter py_sum self
             customer_agent_id).
Proof.
  intros Hself. cbv zeta.
  destruct (analyze_actions_agents lower set_iter
              (loaded threshold customers businesses) actions)
    as (Hc & Hb & _).
  cbn [loaded fst customer_agents business_agents] in Hc, Hb.
  assert (Hreg : senders_registered
            (analyze_actions lower set_iter
               (loaded threshold customers businesses) actions).1).
  { apply analyze_actions_senders; [done|].
    intros kv Hin. by apply elem_of_nil in Hin. }
  split_and!; [done|done| |].
  - intros b pid Hfind. rewrite <- Hb.
    by apply (find_business_registered _ pid).
  - destruct (customer_agents
                (analyze_actions lower set_iter
                   (loaded threshold customers businesses) actions).1
                !! customer_agent_id) as [customer|] eqn:Hcust.
    + destruct (calculate_customer_utility_spec lower set_iter py_sum _
                  customer_agent_id customer Hreg Hcust) as (fuzzy & ->).
      by eexists.
    + unfold calculate_customer_utility. rewrite Hcust. by eexists.
Qed.

Lemma analysed_log_utility_returns_witness :
  senders_act_as_themselves Scenarios.proposal_then_payment ∧
  is_Some
    (calculate_customer_utility lower_ascii elements PyFloat.sum_left
       (analyze_actions lower_ascii elements
          (loaded 0 {["customer-1" := Examples.hungry_customer]}
             {["business-1" := Examples.taqueria true]})
          Scenarios.proposal_then_payment).1 "customer-1").
Proof.
  assert (Hself : senders_act_as_themselves Scenarios.proposal_then_payment).
  { intros row a Hin Hreq.
    apply elem_of_cons in Hin as [->|Hin].
    { by injection Hreq as <-. }
    apply list_elem_of_singleton in Hin as ->. by injection Hreq as <-. }
  split; [exact Hself|].
  apply (analysed_log_utility_returns lower_ascii elements PyFloat.sum_left 0
           {["customer-1" := Examples.hungry_customer]}
           {["business-1" := Examples.taqueria true]}
           Scenarios.proposal_then_payment "customer-1" Hself).
Defined.

(** X10: an order proposal sent by a registered business whose menu is
    empty makes [check_proposal_errors] raise inside the [try] block of
    [_process_send_message]; the exception is swallowed, so the proposal is
    counted in [order_proposals] but is neither linked to the receiving
    customer in [customer_orders] nor recorded in [invalid_proposals]. *)
Theorem proposal_of_empty_menu_is_not_linked
  (lower : string → string) (set_iter : gset string → list string)
  (st : MarketplaceAnalytics * Tally) (action_row : ActionRow)
  (action : SendMessage) (proposal : OrderProposal) (business : Business) :
  iteration_order set_iter →
  ar_request action_row = ActSendMessage action →
  is_error (ar_result action_row) = false →
  Platform.message action = MsgOrderProposal proposal →
  business_agents st.1 !! from_agent_id action = Some business →
  b_menu_features business = ∅ →
  items proposal ≠ [] →
  let st' := _process_action_row lower set_iter st action_row in
  order_proposals st'.2 = order_proposals st.2 ++ [proposal] ∧
  customer_orders st'.1 = customer_orders st.1 ∧
  customer_payments st'.1 = customer_payments st.1 ∧
  invalid_proposals st'.2 = invalid_proposals st.2.
Proof.
  intros Hit Hreq Herr Hmsg Hb Hmenu Hitems. cbv zeta.
  unfold _process_action_row, _process_send_message.
  destruct st as [self tally]. cbn [fst snd] in *.
  rewrite Hreq, Herr, Hmsg.
  assert (Hraise : ∀ self',
            business_agents self' = business_agents self →
            check_proposal_errors lower set_iter self' proposal
              (from_agent_id action) (to_agent_id action) = None).
  { intros self' Hsame.
    apply (check_proposal_errors_None lower set_iter self'
             proposal (from_agent_id action) (to_agent_id action) Hit).
    exists business. by rewrite Hsame. }
  repeat case_decide; rewrite Hraise by done; done.
Qed.

Lemma proposal_of_empty_menu_is_not_linked_witness :
  let st := loaded 0 {["customer-1" := Examples.hungry_customer]}
              {["business-1" := Scenarios.closed_kitchen]} in
  let action_row :=
    Scenarios.sent 1 "business-1" "customer-1"
      (MsgOrderProposal Examples.exact_proposal) in
  iteration_order elements ∧
  is_error (ar_result action_row) = false ∧
  business_agents st.1 !! "business-1" = Some Scenarios.closed_kitchen ∧
  b_menu_features Scenarios.closed_kitchen = ∅ ∧
  items Examples.exact_proposal ≠ [] ∧
  order_proposals (_process_action_row lower_ascii elements st action_row).2
    = order_proposals st.2 ++ [Examples.exact_proposal] ∧
  customer_orders (_process_action_row lower_ascii elements st action_row).1
    = customer_orders st.1.
Proof.
  cbv zeta.
  assert (Hb : business_agents
                 (loaded 0 {["customer-1" := Examples.hungry_customer]}
                    {["business-1" := Scenarios.closed_kitchen]}).1
                 !! "business-1" = Some Scenarios.closed_kitchen)
    by reflexivity.
  assert (Hitems : items Examples.exact_proposal ≠ []) by discriminate.
  split; [exact iteration_order_elements|].
  split; [reflexivity|]. split; [exact Hb|]. split; [reflexivity|].
  split; [exact Hitems|].
  destruct (proposal_of_empty_menu_is_not_linked lower_ascii elements
              (loaded 0 {["customer-1" := Examples.hungry_customer]}
                 {["business-1" := Scenarios.closed_kitchen]})
              (Scenarios.sent 1 "business-1" "customer-1"
                 (MsgOrderProposal Examples.exact_proposal))
              _ Examples.exact_proposal Scenarios.closed_kitchen
              iteration_order_elements eq_refl eq_refl eq_refl Hb eq_refl
              Hitems) as (Hp & Ho & _).
  split; [exact Hp|exact Ho].
Defined.

End AnalyticsActionsFacts.

(** ** Revenue and payments that do not count *)

Module AnalyticsRevenueFacts.
Import Messaging PyOrder Analytics AnalyticsRevenue AnalyticsFacts
  PySortFacts PyOrderFacts.

Section Revenue.
Variable self : MarketplaceAnalytics.
Variable business_agent_id : string.

Local Abbreviation pick := (pick self).
Local Abbreviation amount := (amount business_agent_id).
Local Abbreviation total_of := (total_of business_agent_id).

Lemma credit_spec customer_agent_id business_utilities payment :
  let after := credit self customer_agent_id business_utilities payment in
  (amount after ==
     amount business_utilities +
     total_of (option_list (pick customer_agent_id payment)))%Q ∧
  (is_Some (after !! business_agent_id) ↔
   is_Some (business_utilities !! business_agent_id) ∨
   ∃ proposal,
     pick customer_agent_id payment = Some (proposal, business_agent_id)).
Proof.
  cbv zeta. unfold credit, pick, amount, total_of.
  destruct (List.find _ _) as [proposal|]; cbn [mbind option_bind].
  2:{ cbn. split; [ring|]. split; [by left|].
      by intros [?|[? ?]]. }
  destruct (found_business _) as [b|]; cbn [mbind option_bind option_list].
  2:{ cbn. split; [ring|]. split; [by left|].
      by intros [?|[? ?]]. }
  change (option_list (Some (proposal, b))) with [(proposal, b)].
  rewrite filter_cons, filter_nil. cbn [snd].
  destruct (decide (b = business_agent_id)) as [->|Hne].
  - rewrite lookup_insert_eq. cbn. split; [ring|].
    split; [|by eexists]. intros _. right. by exists proposal.
  - rewrite lookup_insert_ne by done. cbn. split; [ring|].
    split; [by left|]. intros [?|[? [= _ ?]]]; [done|congruence].
Qed.

Lemma total_of_app l1 l2 :
  (total_of (l1 ++ l2) == total_of l1 + total_of l2)%Q.
Proof.
  unfold total_of. rewrite filter_app, !fmap_app.
  induction ((total_price <$> (filter _ l1).*1)) as [|q l IH];
    cbn [app foldr]; [ring|].
  rewrite IH. ring.
Qed.

Lemma credit_loop customer_agent_id payments business_utilities :
  let after :=
    foldl (credit self customer_agent_id) business_utilities payments in
  (amount after ==
     amount business_utilities +
     total_of (omap (pick customer_agent_id) payments))%Q ∧
  (is_Some (after !! business_agent_id) ↔
   is_Some (business_utilities !! business_agent_id) ∨
   ∃ proposal,
     (proposal, business_agent_id) ∈ omap (pick customer_agent_id) payments).
Proof.
  cbv zeta. revert business_utilities.
  induction payments as [|payment payments IH]; intros business_utilities.
  { cbn. split; [unfold total_of; cbn; ring|]. split; [by left|].
    intros [?|[? Hin]]; [done|]. by apply elem_of_nil in Hin. }
  cbn [foldl].
  destruct (IH (credit self customer_agent_id business_utilities payment))
    as [IH1 IH2].
  destruct (credit_spec customer_agent_id business_utilities payment)
    as [H1 H2]. cbv zeta in H1, H2.
  split.
  - rewrite IH1, H1. cbn [omap list_omap].
    destruct (pick customer_agent_id payment) as [paid|].
    + change (option_list (Some paid)) with [paid].
      change (paid :: omap (pick customer_agent_id) payments)
        with ([paid] ++ omap (pick customer_agent_id) payments).
      rewrite total_of_app. ring.
    + change (option_list None) with (@nil (OrderProposal * string)).
      unfold total_of at 1. cbn. ring.
  - rewrite IH2, H2. cbn [omap list_omap]. split.
    + intros [[?|[proposal Hp]]|[proposal Hin]].
      * by left.
      * right. exists proposal. rewrite Hp. by left.
      * right. exists proposal.
        destruct (pick customer_agent_id payment); [by right|done].
    + intros [?|[proposal Hin]]; [by left; left|].
      destruct (pick customer_agent_id payment) as [paid|] eqn:Hp.
      * apply elem_of_cons in Hin as [<-|Hin].
        -- left. right. by exists proposal.
        -- right. by exists proposal.
      * right. by exists proposal.
Qed.

Lemma customers_loop customers business_utilities :
  let after :=
    foldl (λ business_utilities customer_agent_id,
             foldl (credit self customer_agent_id) business_utilities
               (default [] (customer_payments self !! customer_agent_id)))
          business_utilities customers in
  (amount after ==
     amount business_utilities +
     foldr Qplus 0
       (total_price <$> flat_map (paid_to self business_agent_id) customers))%Q
  ∧
  (is_Some (after !! business_agent_id) ↔
   is_Some (business_utilities !! business_agent_id) ∨
   ∃ customer_agent_id proposal,
     customer_agent_id ∈ customers ∧
     (proposal, business_agent_id) ∈ paid_proposals self customer_agent_id).
Proof.
  cbv zeta. revert business_utilities.
  induction customers as [|c customers IH]; intros business_utilities.
  { cbn. split; [ring|]. split; [by left|].
    intros [?|(? & ? & Hin & _)]; [done|]. by apply elem_of_nil in Hin. }
  cbn [foldl flat_map].
  destruct (IH (foldl (credit self c) business_utilities
                  (default [] (customer_payments self !! c)))) as [IH1 IH2].
  destruct (credit_loop c (default [] (customer_payments self !! c))
              business_utilities) as [H1 H2]. cbv zeta in H1, H2.
  split.
  - rewrite IH1, H1. rewrite fmap_app.
    assert (Happ : ∀ l1 l2 : list Q,
              (foldr Qplus 0 (l1 ++ l2) ==
               foldr Qplus 0 l1 + foldr Qplus 0 l2)%Q).
    { intros l1 l2. induction l1 as [|q l1 IHl]; cbn [app foldr]; [ring|].
      rewrite IHl. ring. }
    rewrite Happ. unfold total_of, paid_to, paid_proposals, pick. ring.
  - rewrite IH2, H2. split.
    + intros [[?|[proposal Hin]]|(c' & proposal & Hc' & Hin)].
      * by left.
      * right. exists c, proposal. split; [by left|exact Hin].
      * right. exists c', proposal. split; [by right|done].
    + intros [?|(c' & proposal & Hc' & Hin)]; [by left; left|].
      apply elem_of_cons in Hc' as [->|Hc'].
      * left. right. by exists proposal.
      * right. by exists c', proposal.
Qed.

End Revenue.



Section Ignored.
Variable lower : string → string.
Variable set_iter : gset string → list string.
Variable self : MarketplaceAnalytics.

Lemma utility_step_ignores customer_agent_id customer proposals_received acc
    payment :
  (∀ p, p ∈ proposals_received → op_id p ≠ proposal_message_id payment) →
  utility_step lower set_iter self customer_agent_id customer
    proposals_received acc payment = acc.
Proof.
  intros Hnone. unfold utility_step.
  destruct acc as [[[total_payments needs_met] fuzzy]|]; [|done].
  cbn [mbind option_bind].
  destruct (List.find _ proposals_received) as [p|] eqn:Hfind; [|done].
  apply find_some in Hfind as [Hin Heq].
  apply bool_decide_eq_true in Heq. apply list_elem_of_In in Hin.
  by destruct (Hnone p Hin).
Qed.

Lemma credit_ignores customer_agent_id business_utilities payment :
  (∀ p, p ∈ default [] (customer_orders self !! customer_agent_id) →
        op_id p ≠ proposal_message_id payment) →
  credit self customer_agent_id business_utilities payment
  = business_utilities.
Proof.
  intros Hnone. unfold credit.
  destruct (List.find _ _) as [p|] eqn:Hfind; [|done].
  apply find_some in Hfind as [Hin Heq].
  apply bool_decide_eq_true in Heq. apply list_elem_of_In in Hin.
  by destruct (Hnone p Hin).
Qed.

End Ignored.

(** X12: a payment for a proposal id that is not among the proposals the
    paying customer received counts for nothing: with or without it,
    [calculate_customer_utility] returns the same for every customer and
    [_calculate_business_utilities] the same revenues. *)
Theorem payment_for_unreceived_proposal_is_ignored
  (lower : string → string) (set_iter agent_iter : gset string → list string)
  (py_sum : list Q → Q)
  (self : MarketplaceAnalytics) (customer_agent_id : string)
  (before after : list Payment) (payment : Payment) :
  (∀ p, p ∈ default [] (customer_orders self !! customer_agent_id) →
        op_id p ≠ proposal_message_id payment) →
  (∀ other,
     calculate_customer_utility lower set_iter py_sum
       (with_payments customer_agent_id (before ++ payment :: after) self)
       other =
     calculate_customer_utility lower set_iter py_sum
       (with_payments customer_agent_id (before ++ after) self) other) ∧
  _calculate_business_utilities agent_iter
    (with_payments customer_agent_id (before ++ payment :: after) self) =
  _calculate_business_utilities agent_iter
    (with_payments customer_agent_id (before ++ after) self).
Proof.
  intros Hnone. split.
  - intros other. unfold calculate_customer_utility.
    cbn [customer_agents customer_payments customer_orders with_payments
         purchased_proposal_fuzzy_matches].
    destruct (customer_agents self !! other) as [customer|]; [|done].
    destruct (decide (customer_agent_id = other)) as [->|Hne].
    + rewrite !lookup_insert_eq. cbn [default]. unfold id.
      rewrite !foldl_app. cbn [foldl].
      rewrite (utility_step_ignores lower set_iter
                 (with_payments other (before ++ payment :: after) self))
        by done.
      assert (Hsame : ∀ l acc,
        foldl (utility_step lower set_iter
                 (with_payments other (before ++ payment :: after) self)
                 other customer (default [] (customer_orders self !! other)))
              acc l =
        foldl (utility_step lower set_iter
                 (with_payments other (before ++ after) self)
                 other customer (default [] (customer_orders self !! other)))
              acc l).
      { intros l. induction l as [|x l IH]; intros acc; [done|].
        cbn [foldl]. by rewrite IH. }
      by rewrite !Hsame.
    + rewrite !lookup_insert_ne by done.
      assert (Hsame : ∀ l acc,
        foldl (utility_step lower set_iter
                 (with_payments customer_agent_id
                    (before ++ payment :: after) self)
                 other customer (default [] (customer_orders self !! other)))
              acc l =
        foldl (utility_step lower set_iter
                 (with_payments customer_agent_id (before ++ after) self)
                 other customer (default [] (customer_orders self !! other)))
              acc l).
      { intros l. induction l as [|x l IH]; intros acc; [done|].
        cbn [foldl]. by rewrite IH. }
      by rewrite Hsame.
  - unfold _calculate_business_utilities.
    cbn [customer_payments with_payments].
    rewrite !dom_insert_L.
    generalize (agent_iter ({[customer_agent_id]} ∪ dom (customer_payments self))).
    intros customers. generalize (∅ : gmap string Q).
    induction customers as [|c customers IH]; intros bu; [done|].
    cbn [foldl]. rewrite <- IH. f_equal.
    destruct (decide (customer_agent_id = c)) as [->|Hne].
    + rewrite !lookup_insert_eq. cbn [default]. unfold id.
      rewrite !foldl_app. cbn [foldl].
      change (credit (with_payments c (before ++ payment :: after) self))
        with (credit self).
      change (credit (with_payments c (before ++ after) self))
        with (credit self).
      by rewrite (credit_ignores self c _ payment).
    + rewrite !lookup_insert_ne by done. done.
Qed.

Lemma payment_for_unreceived_proposal_is_ignored_witness :
  let self := Examples.paid_once 0 true Examples.exact_proposal in
  (∀ p, p ∈ default [] (customer_orders self !! "customer-1") →
        op_id p ≠ proposal_message_id (pay "p9")) ∧
  calculate_customer_utility lower_ascii elements PyFloat.sum_left
    (with_payments "customer-1" ([pay "p1"] ++ pay "p9" :: []) self)
    "customer-1" =
  calculate_customer_utility lower_ascii elements PyFloat.sum_left
    (with_payments "customer-1" ([pay "p1"] ++ []) self) "customer-1".
Proof.
  cbv zeta.
  assert (Hnone : ∀ p,
    p ∈ default [] (customer_orders
                      (Examples.paid_once 0 true Examples.exact_proposal)
                      !! "customer-1") →
    op_id p ≠ proposal_message_id (pay "p9")).
  { intros p Hin. change (p ∈ [Examples.exact_proposal]) in Hin.
    apply list_elem_of_singleton in Hin as ->. discriminate. }
  split; [exact Hnone|].
  apply (proj1 (payment_for_unreceived_proposal_is_ignored lower_ascii
                  elements elements PyFloat.sum_left
                  (Examples.paid_once 0 true Examples.exact_proposal)
                  "customer-1" [pay "p1"] [] (pay "p9") Hnone)).
Defined.

End AnalyticsRevenueFacts.

(** ** The customer agent's payments *)

Module CustomerAgentFacts.
Import Messaging Platform SendMessageProtocol CustomerAgent.
Import BusinessAgent (ProposalStatus, ProposalRecord, add_proposal,
                      get_proposal, update_proposal_status).

Lemma process_new_messages_id self messages :
  ca_id (_process_new_messages self messages) = ca_id self.
Proof.
  unfold _process_new_messages. revert self.
  induction messages as [|m messages IH]; intros self; [done|].
  cbn [foldl]. rewrite IH. by destruct (rm_message m).
Qed.

(** Storing what was received keeps the ledger backed by the log. *)
Lemma process_new_messages_backed database self messages :
  ledger_backed database (ca_proposal_storage self) →
  (∀ m, m ∈ messages → on_the_log database m) →
  ledger_backed database
    (ca_proposal_storage (_process_new_messages self messages)).
Proof.
  unfold _process_new_messages. revert self.
  induction messages as [|m messages IH]; intros self Hbacked Hlog; [done|].
  cbn [foldl]. apply IH; [|intros m' Hm'; apply Hlog; by right].
  destruct (rm_message m) as [text|p|payment] eqn:Hmsg; [done| |done].
  cbn [ca_proposal_storage]. unfold add_proposal.
  intros proposal_id stored Hstored.
  apply lookup_insert_Some in Hstored as [[<- <-]|[_ Hstored]];
    [|by apply Hbacked].
  cbn. split; [done|].
  destruct (Hlog m) as (row & a & Hrow & Hreq & Hfrom & Ha); [by left|].
  exists (to_agent_id a), row, a. rewrite Hmsg in Ha. by split_and!.
Qed.

Lemma proposal_sent_later database later business recipient p :
  (∀ row, row ∈ actions database → row ∈ actions later) →
  proposal_sent database business recipient p →
  proposal_sent later business recipient p.
Proof.
  intros Hgrow (row & a & Hrow & Hrest). exists row, a.
  split; [by apply Hgrow|done].
Qed.

(** X13: a payment that the customer agent builds for a proposal of its
    ledger is addressed to the business the proposal came from, whatever
    business the pay request names, and so passes the validation of the
    platform: when every message the agent received is on the action log,
    [execute_send_message] accepts the payment, now and on every later state
    of the log, exactly when that business is a registered agent. *)
Theorem stored_proposal_payment_is_valid
  (str_of_nat : nat → string) (database later : Database)
  (self : CustomerAgent) (messages : list ReceivedMessage)
  (pay_message : AssistantPayMessageRequest) (stored : ProposalRecord)
  (time : Z) :
  ledger_backed database (ca_proposal_storage self) →
  (∀ m, m ∈ messages → on_the_log database m) →
  (∀ row, row ∈ actions database → row ∈ actions later) →
  let self' := _process_new_messages self messages in
  get_proposal (pm_proposal_message_id pay_message)
    (ca_proposal_storage self') = Some stored →
  let action :=
    {| from_agent_id := ca_id self';
       to_agent_id := BusinessAgent.business_id stored;
       created_at := time;
       message := MsgPayment (payment_for str_of_nat pay_message stored) |} in
  _validate_message_content action later = None ∧
  (is_error (execute_send_message action later) = false ↔
   BusinessAgent.business_id stored ∈ agents later).
Proof.
  intros Hbacked Hlog Hgrow. cbv zeta. intros Hstored.
  pose proof (process_new_messages_backed database self messages Hbacked Hlog)
    as Hb.
  destruct (Hb _ _ Hstored) as (Hid & recipient & Hsent).
  assert (Hvalid :
    _validate_message_content
      {| from_agent_id := ca_id (_process_new_messages self messages);
         to_agent_id := BusinessAgent.business_id stored;
         created_at := time;
         message := MsgPayment (payment_for str_of_nat pay_message stored) |}
      later = None).
  { match goal with |- _validate_message_content ?act _ = _ =>
      apply (proj1 (SendMessageFacts.validate_payment later act
               (payment_for str_of_nat pay_message stored) eq_refl))
    end.
    exists (BusinessAgent.proposal stored), recipient. split; [done|].
    by apply (proposal_sent_later database). }
  split; [exact Hvalid|].
  unfold execute_send_message. rewrite Hvalid. cbn [to_agent_id].
  case_decide; cbn [is_error]; split; done.
Qed.

Lemma stored_proposal_payment_is_valid_witness :
  ledger_backed Examples.database_p1
    (ca_proposal_storage Scenarios.customer_one) ∧
  (∀ m, m ∈ [Scenarios.received_p1] → on_the_log Examples.database_p1 m) ∧
  (∀ row, row ∈ actions Examples.database_p1 →
          row ∈ actions Examples.database_p1) ∧
  get_proposal "p1"
    (ca_proposal_storage
       (_process_new_messages Scenarios.customer_one
          [Scenarios.received_p1])) = Some Scenarios.stored_p1 ∧
  is_error
    (execute_send_message
       {| from_agent_id := "customer-1"; to_agent_id := "business-1";
          created_at := 2;
          message :=
            MsgPayment (payment_for (λ _, "1") Scenarios.pay_p1
                          Scenarios.stored_p1) |}
       Examples.database_p1) = false.
Proof.
  assert (Hbacked : ledger_backed Examples.database_p1
                      (ca_proposal_storage Scenarios.customer_one)).
  { intros proposal_id stored Hstored. cbn in Hstored.
    by rewrite lookup_empty in Hstored. }
  assert (Hlog : ∀ m, m ∈ [Scenarios.received_p1] →
                      on_the_log Examples.database_p1 m).
  { intros m Hm. apply list_elem_of_singleton in Hm as ->.
    eexists _, Examples.send_p1. split; [by left|]. by split_and!. }
  assert (Hstored :
    get_proposal "p1"
      (ca_proposal_storage
         (_process_new_messages Scenarios.customer_one
            [Scenarios.received_p1])) = Some Scenarios.stored_p1)
    by reflexivity.
  split; [exact Hbacked|]. split; [exact Hlog|]. split; [done|].
  split; [exact Hstored|].
  apply (proj2 (stored_proposal_payment_is_valid (λ _, "1")
                  Examples.database_p1 Examples.database_p1
                  Scenarios.customer_one [Scenarios.received_p1]
                  Scenarios.pay_p1 Scenarios.stored_p1 2 Hbacked Hlog
                  (λ row H, H) Hstored)).
  set_solver.
Defined.

Section Sending.
Variable World : Type.
Variable execute_action :
  World → SendMessage → World * option ActionExecutionResult.
Variable now : World → Z.
Variable str_content : Content → string.
Variable format_exc : string.
Variable str_of_nat : nat → string.

Local Abbreviation send_text :=
  (send_text World execute_action now str_content format_exc).
Local Abbreviation send_payment :=
  (send_payment World execute_action now str_content format_exc str_of_nat).

Lemma send_text_loop self_id texts world results :
  length (foldl (send_text self_id) (world, results) texts).2 =
  length results + length texts.
Proof.
  revert world results.
  induction texts as [|text texts IH]; intros world results;
    cbn [foldl length snd]; [lia|].
  destruct (send_text self_id (world, results) text) as [world' results']
    eqn:Hstep.
  rewrite IH. unfold CustomerAgent.send_text in Hstep.
  destruct (send_message _ _ _ _ _ _ _) as [w [result|]];
    [destruct (is_error result)|];
    injection Hstep as <- <-; rewrite length_app; cbn [length]; lia.
Qed.

(** What handling one pay request does. *)
Lemma send_payment_spec self world results pay_message :
  ∃ self' world' outcome,
    send_payment (self, world, results) pay_message =
      (self', world', results ++ [outcome]) ∧
    ca_id self' = ca_id self ∧
    completed_transactions self' =
      completed_transactions self ++
      (if outcome.1 then [pm_proposal_message_id pay_message] else []) ∧
    (outcome.1 = true →
     BusinessAgent.status <$>
       ca_proposal_storage self' !! pm_proposal_message_id pay_message
     = Some BusinessAgent.accepted) ∧
    (∀ q, BusinessAgent.status <$> ca_proposal_storage self !! q
          = Some BusinessAgent.accepted →
          BusinessAgent.status <$> ca_proposal_storage self' !! q
          = Some BusinessAgent.accepted).
Proof.
  unfold CustomerAgent.send_payment, get_proposal.
  destruct (ca_proposal_storage self !! pm_proposal_message_id pay_message)
    as [stored|] eqn:Hstored.
  2:{ eexists _, _, _. split; [done|]. cbn. rewrite app_nil_r.
      split_and!; done. }
  destruct (send_message _ _ _ _ _ _ _) as [world' [result|]].
  2:{ eexists _, _, _. split; [done|]. cbn. rewrite app_nil_r.
      split_and!; done. }
  destruct (is_error result).
  { eexists _, _, _. split; [done|]. cbn. rewrite app_nil_r.
    split_and!; done. }
  unfold update_proposal_status. rewrite Hstored.
  eexists _, _, _. split; [done|]. cbn. split_and!; [done|done| |].
  - intros _. by rewrite lookup_insert_eq.
  - intros q Hq.
    destruct (decide (q = pm_proposal_message_id pay_message)) as [->|Hne].
    + by rewrite lookup_insert_eq.
    + by rewrite lookup_insert_ne.
Qed.

Lemma send_payment_loop pay_requests self world results :
  ∃ self' world' outcomes,
    foldl send_payment (self, world, results) pay_requests =
      (self', world', results ++ outcomes) ∧
    length outcomes = length pay_requests ∧
    ca_id self' = ca_id self ∧
    completed_transactions self' =
      completed_transactions self ++
      omap (λ x, if (x.2 : bool * string).1
                 then Some (pm_proposal_message_id x.1) else None)
           (zip pay_requests outcomes) ∧
    ∀ q, (BusinessAgent.status <$> ca_proposal_storage self !! q
          = Some BusinessAgent.accepted ∨
          q ∈ omap (λ x, if (x.2 : bool * string).1
                         then Some (pm_proposal_message_id x.1) else None)
                   (zip pay_requests outcomes)) →
         BusinessAgent.status <$> ca_proposal_storage self' !! q
         = Some BusinessAgent.accepted.
Proof.
  revert self world results.
  induction pay_requests as [|pay_message pay_requests IH];
    intros self world results.
  { exists self, world, []. cbn. rewrite !app_nil_r. split_and!; [done..|].
    intros q [Hq|Hq]; [done|]. by apply elem_of_nil in Hq. }
  cbn [foldl].
  destruct (send_payment_spec self world results pay_message)
    as (self1 & world1 & outcome & -> & Hid1 & Hdone1 & Hacc1 & Hkeep1).
  destruct (IH self1 world1 (results ++ [outcome]))
    as (self2 & world2 & outcomes & -> & Hlen & Hid2 & Hdone2 & Hacc2).
  exists self2, world2, (outcome :: outcomes).
  split; [by rewrite <- app_assoc|].
  cbn [length zip zip_with omap list_omap fst snd].
  split_and!; [by rewrite Hlen|congruence| |].
  - rewrite Hdone2, Hdone1, <- app_assoc. f_equal.
    by destruct (outcome.1).
  - intros q [Hq|Hq]; apply Hacc2.
    + left. by apply Hkeep1.
    + destruct (outcome.1) eqn:Hok.
      * apply elem_of_cons in Hq as [->|Hq]; [left; by apply Hacc1|by right].
      * by right.
Qed.

End Sending.

(** X14: when the customer agent executes a [send_messages] action it
    records exactly one result per text message and one per pay request, in
    order (so the prompt formatter's [zip(..., strict=True)] over messages
    and results never fails); [completed_transactions] grows by the proposal
    ids of the pay requests whose result is a success, in order, and each of
    these proposals is marked accepted in the agent's ledger. *)
Theorem send_messages_records_every_outcome
  (World : Type)
  (execute_action : World → SendMessage → World * option ActionExecutionResult)
  (now : World → Z) (str_content : Content → string) (format_exc : string)
  (str_of_nat : nat → string)
  (self : CustomerAgent) (world : World) (messages : Messages) :
  let '(self', world', results) :=
    send_messages World execute_action now str_content format_exc str_of_nat
      self world messages in
  let paid :=
    omap (λ x, if (x.2 : bool * string).1
               then Some (pm_proposal_message_id x.1) else None)
         (zip (pay_messages messages) (pay_message_results results)) in
  length (text_message_results results) = length (text_messages messages) ∧
  length (pay_message_results results) = length (pay_messages messages) ∧
  ca_id self' = ca_id self ∧
  completed_transactions self' = completed_transactions self ++ paid ∧
  ∀ proposal_id, proposal_id ∈ paid →
    BusinessAgent.status <$> ca_proposal_storage self' !! proposal_id
    = Some BusinessAgent.accepted.
Proof.
  unfold send_messages.
  pose proof (send_text_loop World execute_action now str_content format_exc
                (ca_id self) (text_messages messages) world []) as Htexts.
  destruct (foldl _ (world, []) (text_messages messages))
    as [world1 text_results].
  destruct (send_payment_loop World execute_action now str_content format_exc
              str_of_nat (pay_messages messages) self world1 [])
    as (self' & world' & outcomes & -> & Hlen & Hid & Hdone & Hacc).
  cbn [app text_message_results pay_message_results].
  split_and!; [exact Htexts|exact Hlen|exact Hid|exact Hdone|].
  intros proposal_id Hin. apply Hacc. by right.
Qed.

End CustomerAgentFacts.

(** ** The business agent's step *)

Module BusinessStepFacts.
Import Messaging Platform PyDict BusinessAgent BusinessStep.

Lemma append_at_keys {V} (key : string) (v : V) d :
  (append_at key v d).*1 =
  if decide (key ∈ d.*1) then d.*1 else d.*1 ++ [key].
Proof.
  induction d as [|[k vs] d IH]; cbn [append_at].
  - rewrite decide_False; [done|]. apply not_elem_of_nil.
  - destruct (decide (k = key)) as [->|Hne].
    + rewrite decide_True; [done|]. rewrite fmap_cons. by left.
    + rewrite !fmap_cons, IH. cbn [fst].
      destruct (decide (key ∈ d.*1)) as [Hin|Hnotin].
      * rewrite decide_True; [done|]. by right.
      * rewrite decide_False; [done|].
        intros Hin. apply elem_of_cons in Hin as [->|Hin]; done.
Qed.

Lemma elem_of_append_at_inv {V} (key : string) (v : V) d s g :
  NoDup d.*1 →
  (s, g) ∈ append_at key v d →
  (s ≠ key ∧ (s, g) ∈ d) ∨
  (s = key ∧ ((∃ g0, (key, g0) ∈ d ∧ g = g0 ++ [v]) ∨
              ((key ∉ d.*1) ∧ g = [v]))).
Proof.
  induction d as [|[k vs] d IH]; cbn [append_at]; intros Hnd.
  - intros Hin. apply list_elem_of_singleton in Hin as [= -> ->].
    right. split; [done|]. right. split; [apply not_elem_of_nil|done].
  - rewrite fmap_cons in Hnd. apply NoDup_cons in Hnd as [Hk Hnd].
    cbn [fst] in Hk. destruct (decide (k = key)) as [->|Hne].
    + intros Hin. apply elem_of_cons in Hin as [[= -> ->]|Hin].
      * right. split; [done|]. left. exists vs. split; [by left|done].
      * left. split; [|by right]. intros ->. apply Hk.
        apply list_elem_of_fmap. by exists (key, g).
    + intros Hin. apply elem_of_cons in Hin as [[= -> ->]|Hin].
      * left. split; [done|by left].
      * destruct (IH Hnd Hin) as [[Hs Hd]|[-> [(g0 & Hg0 & ->)|[Hnot ->]]]].
        -- left. split; [done|by right].
        -- right. split; [done|]. left. exists g0. split; [by right|done].
        -- right. split; [done|]. right. split; [|done].
           rewrite fmap_cons. intros Hin'.
           apply elem_of_cons in Hin' as [Heq|Hin']; [by subst|done].
Qed.

(** X15: in a step of the business agent the fetched messages are split
    by sender: no sender has two groups, the group of a sender holds exactly
    the messages of that sender, in the order in which they were fetched, and
    every message is in the group of its sender.  So each customer's
    messages are handled by one call of [_handle_new_customer_messages]. *)
Theorem new_messages_by_customer_partitions
  (messages : list ReceivedMessage) :
  let by_customer := new_messages_by_customer messages in
  NoDup by_customer.*1 ∧
  (∀ customer_id new_messages,
     (customer_id, new_messages) ∈ by_customer →
     new_messages ≠ [] ∧
     new_messages =
       filter (λ m, rm_from_agent_id m = customer_id) messages) ∧
  (∀ m, m ∈ messages → rm_from_agent_id m ∈ by_customer.*1).
Proof.
  cbv zeta. unfold new_messages_by_customer.
  induction messages as [|m messages IH] using rev_ind.
  { cbn. split_and!; [constructor| |].
    - intros c g Hin. by apply elem_of_nil in Hin.
    - intros m Hin. by apply elem_of_nil in Hin. }
  rewrite foldl_snoc. destruct IH as (Hnd & Hgroups & Hall).
  set (d := foldl _ [] messages) in *.
  split_and!.
  - rewrite append_at_keys. case_decide as Hin; [done|].
    apply NoDup_app. split_and!; [done| |apply NoDup_singleton].
    intros s Hs Hs'. apply list_elem_of_singleton in Hs' as ->. done.
  - intros c g Hin.
    apply elem_of_append_at_inv in Hin
      as [[Hc Hd]|[-> [(g0 & Hg0 & ->)|[Hnot ->]]]]; [| | |done].
    + destruct (Hgroups c g Hd) as [Hne ->]. split; [done|].
      rewrite filter_app, filter_cons, decide_False by done.
      by rewrite filter_nil, app_nil_r.
    + destruct (Hgroups _ g0 Hg0) as [Hne ->]. split.
      * intros Heq. by apply app_eq_nil in Heq as [_ ?].
      * rewrite filter_app, filter_cons, decide_True by done.
        by rewrite filter_nil.
    + split; [done|].
      rewrite filter_app, filter_cons, decide_True by done.
      rewrite filter_nil.
      assert (Hempty :
        filter (λ m0, rm_from_agent_id m0 = rm_from_agent_id m) messages
        = []).
      { destruct (filter _ messages) as [|m' rest] eqn:Hf; [done|].
        assert (Hm' : m' ∈ filter
                  (λ m0, rm_from_agent_id m0 = rm_from_agent_id m) messages)
          by (rewrite Hf; by left).
        apply list_elem_of_filter in Hm' as [Heq Hm'].
        destruct Hnot. rewrite <- Heq. by apply Hall. }
      by rewrite Hempty.
  - intros m' Hm'. rewrite append_at_keys.
    apply elem_of_app in Hm' as [Hm'|Hm'].
    + case_decide; [by apply Hall|]. apply elem_of_app. left. by apply Hall.
    + apply list_elem_of_singleton in Hm' as ->.
      case_decide; [done|]. apply elem_of_app. right. by left.
Qed.

Section Handler.
Variable World : Type.
Variable generate_payment_confirmation : string → Q → TextMessage.
Variable generate_proposal_not_found_error : string → TextMessage.
Variable generate_response_to_inquiry :
  World → string → list string → World * Message.
Variable execute_action :
  World → SendMessage → World * option ActionExecutionResult.
Variable now : World → Z.
Variable model_dump : Message → string.
Variable str_content : Content → string.
Variable str_exception : string.
Variable self_id : string.

Local Abbreviation run_all :=
  (run generate_payment_confirmation generate_proposal_not_found_error
     self_id).
Local Abbreviation receive :=
  (receive_step generate_payment_confirmation
     generate_proposal_not_found_error model_dump).
Local Abbreviation send :=
  (send_step World execute_action now model_dump str_content str_exception
     self_id).

Lemma run_app self events1 events2 :
  run_all self (events1 ++ events2) =
  ((run_all (run_all self events1).1 events2).1,
   (run_all self events1).2 ++ (run_all (run_all self events1).1 events2).2).
Proof.
  revert self. induction events1 as [|e events1 IH]; intros self.
  { cbn. by destruct (run_all self events2). }
  destruct e as [p customer|customer payment]; cbn [app run].
  - apply IH.
  - destruct (_handle_payment _ _ self customer payment) as [self1 reply].
    rewrite IH. destruct (run_all self1 events1) as [final replies].
    cbn [fst snd]. by destruct (run_all final events2).
Qed.

Lemma add_to_history_lookup histories customer_id entry who other :
  add_to_history model_dump histories customer_id entry who !! other =
  if decide (other = customer_id)
  then Some (default [] (histories !! customer_id) ++
             [match who, entry with
              | _, _ =>
                  (if decide (who = "customer") then "Customer" else "You")
                  +:+ ": " +:+
                  match entry with
                  | EntryText text => text
                  | EntryMessage (MsgText m) => Messaging.content m
                  | EntryMessage m => model_dump m
                  end
              end])
  else histories !! other.
Proof.
  unfold add_to_history, append_in.
  destruct (decide (other = customer_id)) as [->|Hne].
  - rewrite lookup_insert_eq. do 2 f_equal.
    by destruct entry as [[?|?|?]|?].
  - by rewrite lookup_insert_ne.
Qed.

Lemma add_to_history_length histories customer_id entry who :
  length (default [] (add_to_history model_dump histories customer_id entry
                        who !! customer_id)) =
  S (length (default [] (histories !! customer_id))) ∧
  ∀ other, other ≠ customer_id →
    add_to_history model_dump histories customer_id entry who !! other =
    histories !! other.
Proof.
  split.
  - rewrite add_to_history_lookup, decide_True by done. cbn [default].
    unfold id. rewrite length_app. cbn [length]. lia.
  - intros other Hne. by rewrite add_to_history_lookup, decide_False.
Qed.

Lemma receive_loop customer_id new_messages self histories to_send last :
  ∃ histories' last',
    foldl (receive customer_id) (self, histories, to_send, last) new_messages
    = ((run_all self (Pay customer_id <$> payments_of new_messages)).1,
       histories',
       to_send ++
       ((λ r, (customer_id, MsgText r)) <$>
          (run_all self (Pay customer_id <$> payments_of new_messages)).2),
       last') ∧
    (is_Some last' ↔ is_Some last ∨ has_text new_messages) ∧
    length (default [] (histories' !! customer_id)) =
      length (default [] (histories !! customer_id)) + length new_messages ∧
    ∀ other, other ≠ customer_id → histories' !! other = histories !! other.
Proof.
  revert self histories to_send last.
  induction new_messages as [|m new_messages IH];
    intros self histories to_send last.
  { exists histories, last. cbn. rewrite app_nil_r.
    split_and!; [done| |lia|done].
    split; [by left|]. intros [?|(m & text & Hin & _)]; [done|].
    by apply elem_of_nil in Hin. }
  cbn [foldl]. unfold receive_step at 2.
  destruct (add_to_history_length histories customer_id
              (EntryMessage (rm_message m)) "customer") as [Hlen Hother].
  destruct (rm_message m) as [text|p|payment] eqn:Hmsg.
  - destruct (IH self
               (add_to_history model_dump histories customer_id
                  (EntryMessage (MsgText text)) "customer")
               to_send (Some text))
      as (histories' & last' & -> & Hlast & Hlen' & Hother').
    exists histories', last'.
    assert (Hp : payments_of (m :: new_messages) = payments_of new_messages).
    { unfold payments_of. cbn [omap list_omap]. by rewrite Hmsg. }
    rewrite Hp. split_and!; [done| | |].
    + rewrite Hlast. split.
      * intros _. right. exists m, text. split; [by left|done].
      * intros _. left. by eexists.
    + rewrite Hlen', Hlen. cbn [length]. lia.
    + intros other Hne. rewrite Hother' by done. by apply Hother.
  - destruct (IH self
               (add_to_history model_dump histories customer_id
                  (EntryMessage (MsgOrderProposal p)) "customer")
               to_send last)
      as (histories' & last' & -> & Hlast & Hlen' & Hother').
    exists histories', last'.
    assert (Hp : payments_of (m :: new_messages) = payments_of new_messages).
    { unfold payments_of. cbn [omap list_omap]. by rewrite Hmsg. }
    rewrite Hp. split_and!; [done| | |].
    + rewrite Hlast. split.
      * intros [?|(m' & text & Hin & Ht)]; [by left|].
        right. exists m', text. split; [by right|done].
      * intros [?|(m' & text & Hin & Ht)]; [by left|].
        apply elem_of_cons in Hin as [->|Hin]; [congruence|].
        right. by exists m', text.
    + rewrite Hlen', Hlen. cbn [length]. lia.
    + intros other Hne. rewrite Hother' by done. by apply Hother.
  - destruct (_handle_payment _ _ self customer_id payment)
      as [self1 reply] eqn:Hpay.
    destruct (IH self1
               (add_to_history model_dump histories customer_id
                  (EntryMessage (MsgPayment payment)) "customer")
               (to_send ++ [(customer_id, MsgText reply)]) last)
      as (histories' & last' & -> & Hlast & Hlen' & Hother').
    exists histories', last'.
    assert (Hp : payments_of (m :: new_messages)
                 = payment :: payments_of new_messages).
    { unfold payments_of. cbn [omap list_omap]. by rewrite Hmsg. }
    rewrite Hp. cbn [fmap list_fmap run]. rewrite Hpay.
    destruct (run_all self1 _) as [final replies]. cbn [fst snd].
    split_and!.
    + by rewrite <- app_assoc.
    + rewrite Hlast. split.
      * intros [?|(m' & text & Hin & Ht)]; [by left|].
        right. exists m', text. split; [by right|done].
      * intros [?|(m' & text & Hin & Ht)]; [by left|].
        apply elem_of_cons in Hin as [->|Hin]; [congruence|].
        right. by exists m', text.
    + rewrite Hlen', Hlen. cbn [length]. lia.
    + intros other Hne. rewrite Hother' by done. by apply Hother.
Qed.

Lemma send_loop customer_id to_send self histories world submitted :
  ∃ histories' world' actions,
    foldl send (self, histories, world, submitted)
          ((λ m, (customer_id, m)) <$> to_send)
    = ((run_all self
          (flat_map (λ m, reply_events customer_id (Some m)) to_send)).1,
       histories', world', submitted ++ actions) ∧
    Platform.message <$> actions = to_send ∧
    Forall (λ a, from_agent_id a = self_id ∧ to_agent_id a = customer_id)
           actions ∧
    length (default [] (histories' !! customer_id)) =
      length (default [] (histories !! customer_id)) + length to_send ∧
    ∀ other, other ≠ customer_id → histories' !! other = histories !! other.
Proof.
  revert self histories world submitted.
  induction to_send as [|m to_send IH];
    intros self histories world submitted.
  { exists histories, world, []. cbn. rewrite app_nil_r.
    split_and!; [done|done|constructor|lia|done]. }
  cbn [fmap list_fmap foldl flat_map]. unfold send_step at 2.
  set (action := {| from_agent_id := self_id; to_agent_id := customer_id;
                    created_at := now world; message := m |}).
  set (self1 := match m with
                | MsgOrderProposal p =>
                    {| proposal_storage :=
                         add_proposal p self_id customer_id
                           (proposal_storage self);
                       confirmed_orders := confirmed_orders self |}
                | _ => self
                end).
  assert (Hrun : ∀ events,
            (run_all self (reply_events customer_id (Some m) ++ events)).1
            = (run_all self1 events).1).
  { intros events. unfold self1. by destruct m. }
  rewrite Hrun.
  assert (Hstep : ∃ histories1 world1,
            (let '(world, result) := execute_action world action in
             match result with
             | Some result =>
                 if is_error result then
                   (self1,
                    add_to_history model_dump histories customer_id
                      (EntryText ("Error: Failed to send message to "
                                  +:+ customer_id +:+ ": "
                                  +:+ str_content (Platform.content result)))
                      "business", world, submitted ++ [action])
                 else
                   (self1,
                    add_to_history model_dump histories customer_id
                      (EntryMessage m) "business", world,
                    submitted ++ [action])
             | None =>
                 (self1,
                  add_to_history model_dump histories customer_id
                    (EntryText ("Error: Failed to send message to "
                                +:+ customer_id +:+ ": " +:+ str_exception))
                    "business", world, submitted ++ [action])
             end) = (self1, histories1, world1, submitted ++ [action]) ∧
            length (default [] (histories1 !! customer_id)) =
              S (length (default [] (histories !! customer_id))) ∧
            ∀ other, other ≠ customer_id →
              histories1 !! other = histories !! other).
  { destruct (execute_action world action) as [world1 [result|]];
      [destruct (is_error result)|];
      eexists _, _; (split; [reflexivity|]); apply add_to_history_length. }
  destruct Hstep as (histories1 & world1 & -> & Hlen & Hother).
  destruct (IH self1 histories1 world1 (submitted ++ [action]))
    as (histories' & world' & actions & -> & Hmsgs & Hall & Hlen' & Hother').
  exists histories', world', (action :: actions).
  split_and!.
  - by rewrite <- app_assoc.
  - cbn [fmap list_fmap]. by rewrite Hmsgs.
  - by constructor.
  - rewrite Hlen', Hlen. cbn [length]. lia.
  - intros other Hne. rewrite Hother' by done. by apply Hother.
Qed.

End Handler.

(** X16: what [_handle_new_customer_messages] does to the ledger of the
    business agent is a run of ledger events: one payment event per payment
    received, in order, followed by the storing of the proposal when the
    reply to the inquiry is an order proposal.  The agent submits one reply
    per payment, in order, and after them the reply to the inquiry, which
    exists exactly when a text message was received; all are sent under the
    agent's id to this customer, whatever the outcome of sending; the
    customer's history grows by one line per message received and one per
    message submitted, and no other history changes. *)
Theorem handle_new_customer_messages_is_a_run
  (World : Type)
  (generate_payment_confirmation : string → Q → TextMessage)
  (generate_proposal_not_found_error : string → TextMessage)
  (generate_response_to_inquiry :
     World → string → list string → World * Message)
  (execute_action : World → SendMessage → World * option ActionExecutionResult)
  (now : World → Z) (model_dump : Message → string)
  (str_content : Content → string) (str_exception : string)
  (self_id : string) (self : BusinessAgent)
  (histories : gmap string (list string)) (world : World)
  (customer_id : string) (new_messages : list ReceivedMessage) :
  let '(self', histories', world', submitted) :=
    _handle_new_customer_messages World generate_payment_confirmation
      generate_proposal_not_found_error generate_response_to_inquiry
      execute_action now model_dump str_content str_exception self_id
      self histories world customer_id new_messages in
  let run_all :=
    run generate_payment_confirmation generate_proposal_not_found_error
      self_id in
  let payments := Pay customer_id <$> payments_of new_messages in
  ∃ reply : option Message,
    (is_Some reply ↔ has_text new_messages) ∧
    self' = (run_all self (payments ++ reply_events customer_id reply)).1 ∧
    Platform.message <$> submitted =
      (MsgText <$> (run_all self payments).2) ++ option_list reply ∧
    Forall (λ a, from_agent_id a = self_id ∧ to_agent_id a = customer_id)
           submitted ∧
    length (default [] (histories' !! customer_id)) =
      length (default [] (histories !! customer_id))
      + length new_messages + length submitted ∧
    ∀ other, other ≠ customer_id → histories' !! other = histories !! other.
Proof.
  unfold _handle_new_customer_messages.
  destruct (receive_loop generate_payment_confirmation
              generate_proposal_not_found_error model_dump self_id
              customer_id new_messages self histories [] None)
    as (histories1 & last & -> & Hlast & Hlen1 & Hother1).
  cbn [app].
  set (payments := Pay customer_id <$> payments_of new_messages) in *.
  set (ledger1 := (run generate_payment_confirmation
                     generate_proposal_not_found_error self_id self
                     payments).1).
  set (replies := (run generate_payment_confirmation
                     generate_proposal_not_found_error self_id self
                     payments).2).
  assert (Hquiet : ∀ (rs : list TextMessage) ledger,
            (run generate_payment_confirmation
               generate_proposal_not_found_error self_id ledger
               (flat_map (λ m, reply_events customer_id (Some m))
                  (MsgText <$> rs))).1 = ledger).
  { intros rs ledger. by induction rs. }
  destruct last as [text|].
  - destruct (generate_response_to_inquiry world customer_id
                (default [] (histories1 !! customer_id)))
      as [world1 response_message].
    pose proof (send_loop World generate_payment_confirmation
                  generate_proposal_not_found_error execute_action now
                  model_dump str_content str_exception self_id customer_id
                  ((MsgText <$> replies) ++ [response_message])
                  ledger1 histories1 world1 [])
      as (histories' & world' & actions & Heq & Hmsgs & Hall & Hlen &
          Hother).
    rewrite fmap_app, <- list_fmap_compose in Heq. cbn [fmap list_fmap] in Heq.
    unfold compose in Heq. rewrite Heq. cbn [app]. exists (Some response_message).
    split_and!.
    + split; [|by eexists]. intros _.
      destruct Hlast as [Hlast _].
      destruct Hlast as [[? ?]|?]; [by eexists|done|done].
    + rewrite flat_map_app, run_app, Hquiet. cbn [fst flat_map].
      rewrite app_nil_r. rewrite run_app. cbn [fst]. done.
    + done.
    + done.
    + rewrite Hlen, Hlen1.
      rewrite <- (length_fmap Platform.message actions), Hmsgs. lia.
    + intros other Hne. rewrite Hother by done. by apply Hother1.
  - pose proof (send_loop World generate_payment_confirmation
                  generate_proposal_not_found_error execute_action now
                  model_dump str_content str_exception self_id customer_id
                  (MsgText <$> replies) ledger1 histories1 world [])
      as (histories' & world' & actions & Heq & Hmsgs & Hall & Hlen &
          Hother).
    rewrite <- list_fmap_compose in Heq. unfold compose in Heq.
    rewrite Heq. cbn [app].
    exists None. split_and!.
    + split; [by intros [? ?]|]. intros Htext.
      destruct Hlast as [_ Hlast]. destruct Hlast as [? ?]; [by right|done].
    + rewrite Hquiet. cbn [reply_events]. by rewrite app_nil_r.
    + cbn [option_list]. by rewrite app_nil_r.
    + done.
    + rewrite Hlen, Hlen1.
      rewrite <- (length_fmap Platform.message actions), Hmsgs.
      rewrite length_fmap. lia.
    + intros other Hne. rewrite Hother by done. by apply Hother1.
Qed.

End BusinessStepFacts.

(** ** Failing and repeated conversions *)

Module ConverterErrorsFacts.
Import Platform PyOrder Converter ConverterErrors SortFacts ConverterFacts.

Section Tables.
Context {D : Type}.
Implicit Types (rows source_rows : list (Row D)).

(** Verifying rows against their own renumbering can only find an index
    that is off. *)
Lemma verify_renumbered table_name rows n e :
  verify_rows table_name rows (number_from n rows) = Raised e →
  ∃ before r after,
    rows = before ++ r :: after ∧
    e = IndexMismatch table_name (row_id r) (row_index r)
          (Some (n + Z.of_nat (length before))%Z) ∧
    row_index r ≠ Some (n + Z.of_nat (length before))%Z ∧
    row_index <$> before = Some <$> seqZ n (Z.of_nat (length before)).
Proof.
  revert n. induction rows as [|r rows IH]; intros n; [done|].
  cbn [verify_rows number_from row_index row_id].
  case_decide as Hi.
  { intros [= <-]. exists [], r, rows. cbn [length app].
    rewrite Z.add_0_r. split_and!; done. }
  rewrite decide_False by (by intros ?).
  intros Hraise.
  destruct (IH (n + 1)%Z Hraise) as (before & r' & after & -> & -> & Hne & Hb).
  exists (r :: before), r', after. cbn [length app].
  replace (n + Z.of_nat (S (length before)))%Z
    with (n + 1 + Z.of_nat (length before))%Z by lia.
  split_and!; [done..|].
  rewrite fmap_cons, Hi, Hb, Nat2Z.inj_succ.
  rewrite (seqZ_cons n) by lia.
  rewrite fmap_cons, Z.pred_succ. by replace (Z.succ n) with (n + 1)%Z by lia.
Qed.

Lemma verify_copy_raises table_name source_rows e :
  _verify_table table_name source_rows (get_all (copy_table source_rows []))
    = Raised e →
  ∃ position source_id source_index,
    e = IndexMismatch table_name source_id source_index
          (Some (Z.of_nat position + 1)%Z) ∧
    first_misnumbered source_rows position source_id source_index.
Proof.
  unfold _verify_table, get_all.
  rewrite copy_table_number, length_number_from, length_sort_by_key.
  rewrite decide_False by (by intros ?).
  rewrite (sort_by_key_id _ (number_from 1 _)) by apply number_from_sorted.
  intros Hraise.
  apply verify_renumbered in Hraise
    as (before & r & after & Heq & -> & Hne & Hb).
  exists (length before), (row_id r), (row_index r).
  replace (Z.of_nat (length before) + 1)%Z
    with (1 + Z.of_nat (length before))%Z by lia.
  split; [done|]. exists before, r, after.
  replace (Z.of_nat (length before) + 1)%Z
    with (1 + Z.of_nat (length before))%Z by lia.
  split_and!; done.
Qed.

Lemma number_from_idem n rows :
  number_from n (number_from n rows) = number_from n rows.
Proof.
  revert n. induction rows as [|r rows IH]; intros n; [done|].
  cbn [number_from row_id row_created_at row_data]. by rewrite IH.
Qed.

(** Copying a copy changes nothing. *)
Lemma copy_table_idem source_rows :
  copy_table (copy_table source_rows []) [] = copy_table source_rows [].
Proof.
  rewrite !copy_table_number.
  rewrite (sort_by_key_id _ (number_from 1 _)) by apply number_from_sorted.
  apply number_from_idem.
Qed.

Lemma copy_table_numbered source_rows :
  numbered_from_one (copy_table source_rows []).
Proof.
  unfold numbered_from_one. rewrite copy_table_number.
  rewrite (sort_by_key_id _ (number_from 1 _)) by apply number_from_sorted.
  by rewrite indexes_number_from, length_number_from.
Qed.

End Tables.

Lemma convert_raises_cases {A B C : Type}
  (source_db : Tables A B C) (e : ValueError) :
  convert source_db source_db = Raised e →
  ∃ table_name position source_id source_index,
    e = IndexMismatch table_name source_id source_index
          (Some (Z.of_nat position + 1)%Z) ∧
    ((table_name = "agents" ∧
      first_misnumbered (agents_table source_db) position source_id
        source_index) ∨
     (table_name = "actions" ∧
      numbered_from_one (agents_table source_db) ∧
      first_misnumbered (actions_table source_db) position source_id
        source_index) ∨
     (table_name = "logs" ∧
      numbered_from_one (agents_table source_db) ∧
      numbered_from_one (actions_table source_db) ∧
      first_misnumbered (logs_table source_db) position source_id
        source_index)).
Proof.
  unfold convert, _verify_conversion.
  cbn [agents_table actions_table logs_table].
  destruct (_verify_table "agents" _ _) as [[]|e1] eqn:H1.
  2:{ intros [= <-].
      apply verify_copy_raises in H1 as (position & sid & si & -> & Hfirst).
      exists "agents", position, sid, si. split; [done|]. by left. }
  apply verify_table_spec, copy_same_rows in H1.
  destruct (_verify_table "actions" _ _) as [[]|e2] eqn:H2.
  2:{ intros [= <-].
      apply verify_copy_raises in H2 as (position & sid & si & -> & Hfirst).
      exists "actions", position, sid, si. split; [done|]. right. by left. }
  apply verify_table_spec, copy_same_rows in H2.
  destruct (_verify_table "logs" _ _) as [[]|e3] eqn:H3; [done|].
  intros [= <-].
  apply verify_copy_raises in H3 as (position & sid & si & -> & Hfirst).
  exists "logs", position, sid, si. split; [done|]. right. by right.
Qed.

(** X17: when nothing writes to the source during the conversion, a
    conversion can fail in one way only.  The copy has as many rows as the
    source, with the same ids in the same order, so [_verify_conversion]
    raises neither the row-count nor the id error; what [convert] raises
    is the index error, for the first table (agents, actions, logs) that
    is not numbered from one, naming the first row in index order whose
    index is not its position.  When the agents table that the
    verification reads has another number of rows than the one that was
    copied, [convert] raises the row-count error for it. *)
Theorem convert_raises_index_mismatch {A B C : Type}
  (source_db : Tables A B C) :
  (∀ e : ValueError,
     convert source_db source_db = Raised e →
     ∃ table_name position source_id source_index,
       e = IndexMismatch table_name source_id source_index
             (Some (Z.of_nat position + 1)%Z) ∧
       ((table_name = "agents" ∧
         first_misnumbered (agents_table source_db) position source_id
           source_index) ∨
        (table_name = "actions" ∧
         numbered_from_one (agents_table source_db) ∧
         first_misnumbered (actions_table source_db) position source_id
           source_index) ∨
        (table_name = "logs" ∧
         numbered_from_one (agents_table source_db) ∧
         numbered_from_one (actions_table source_db) ∧
         first_misnumbered (logs_table source_db) position source_id
           source_index))) ∧
  (∀ source_read_again : Tables A B C,
     length (agents_table source_read_again)
       ≠ length (agents_table source_db) →
     convert source_db source_read_again =
       Raised (RowCountMismatch "agents"
                 (length (agents_table source_read_again))
                 (length (agents_table source_db)))).
Proof.
  split.
  - apply convert_raises_cases.
  - intros source_read_again Hlen. unfold convert, _verify_conversion.
    cbn [agents_table actions_table logs_table]. unfold _verify_table at 1.
    unfold get_all.
    rewrite copy_table_number, length_number_from, length_sort_by_key.
    by rewrite decide_True.
Qed.

Lemma convert_raises_index_mismatch_witness :
  convert gapped_source gapped_source =
    Raised (IndexMismatch "agents" "business-1" (Some 2%Z) (Some 1%Z)) ∧
  (∃ table_name position source_id source_index,
    IndexMismatch "agents" "business-1" (Some 2%Z) (Some 1%Z) =
      IndexMismatch table_name source_id source_index
        (Some (Z.of_nat position + 1)%Z) ∧
    ((table_name = "agents" ∧
      first_misnumbered (agents_table gapped_source) position source_id
        source_index) ∨
     (table_name = "actions" ∧
      numbered_from_one (agents_table gapped_source) ∧
      first_misnumbered (actions_table gapped_source) position source_id
        source_index) ∨
     (table_name = "logs" ∧
      numbered_from_one (agents_table gapped_source) ∧
      numbered_from_one (actions_table gapped_source) ∧
      first_misnumbered (logs_table gapped_source) position source_id
        source_index))) ∧
  length (agents_table Examples.small_source)
    ≠ length (agents_table gapped_source) ∧
  convert gapped_source Examples.small_source =
    Raised (RowCountMismatch "agents" 2 1).
Proof.
  assert (Hraise : convert gapped_source gapped_source =
            Raised (IndexMismatch "agents" "business-1" (Some 2%Z)
                      (Some 1%Z))) by reflexivity.
  assert (Hlen : length (agents_table Examples.small_source)
                 ≠ length (agents_table gapped_source)) by (cbn; lia).
  split; [exact Hraise|]. split.
  - exact (proj1 (convert_raises_index_mismatch gapped_source) _ Hraise).
  - split; [exact Hlen|].
    exact (proj2 (convert_raises_index_mismatch gapped_source)
             Examples.small_source Hlen).
Defined.

(** X18: a converted database converts to itself: converting the result
    of a conversion, with nothing writing to it, succeeds and returns the
    same three tables. *)
Theorem convert_is_idempotent {A B C : Type}
  (source_db source_read_again target_db : Tables A B C) :
  convert source_db source_read_again = Returned target_db →
  convert target_db target_db = Returned target_db.
Proof.
  intros Hconvert.
  assert (Htarget : target_db =
            {| agents_table := copy_table (agents_table source_db) [];
               actions_table := copy_table (actions_table source_db) [];
               logs_table := copy_table (logs_table source_db) [] |}).
  { unfold convert in Hconvert.
    destruct (_verify_conversion _ _); [|done]. by injection Hconvert. }
  assert (Hnumbered : source_numbered target_db).
  { rewrite Htarget. unfold source_numbered.
    cbn [agents_table actions_table logs_table].
    split_and!; apply copy_table_numbered. }
  apply convert_returns in Hnumbered as [again Hagain].
  rewrite Hagain. f_equal.
  unfold convert in Hagain.
  destruct (_verify_conversion _ _); [|done]. injection Hagain as <-.
  rewrite Htarget. cbn [agents_table actions_table logs_table].
  by rewrite !copy_table_idem.
Qed.

Lemma convert_is_idempotent_witness :
  convert Examples.small_source Examples.small_source
    = Returned Examples.small_target ∧
  convert Examples.small_target Examples.small_target
    = Returned Examples.small_target.
Proof.
  assert (Hconvert : convert Examples.small_source Examples.small_source
                     = Returned Examples.small_target) by reflexivity.
  split; [exact Hconvert|].
  exact (convert_is_idempotent Examples.small_source Examples.small_source
           Examples.small_target Hconvert).
Defined.

End ConverterErrorsFacts.

(** ** Polling delivers every message it is offered *)

Module PollingFacts.
Import Messaging Platform BaseAgent Polling BaseAgentFacts.

Lemma filter_step_seen st message :
  _seen_message_indexes (filter_step st message).1 =
  _seen_message_indexes st.1 ∪ {[rm_index message]}.
Proof.
  destruct st as [self new_messages]. unfold filter_step.
  case_decide as Hin; [done|].
  cbn [fst]. apply set_eq. intros i.
  rewrite elem_of_union, elem_of_singleton. split; [by left|].
  by intros [?| ->].
Qed.

Lemma foldl_filter_step_seen messages st :
  _seen_message_indexes (foldl filter_step st messages).1 =
  _seen_message_indexes st.1 ∪ list_to_set (rm_index <$> messages).
Proof.
  revert st. induction messages as [|message messages IH]; intros st.
  - cbn. by rewrite union_empty_r_L.
  - cbn [foldl fmap list_fmap list_to_set].
    rewrite IH, filter_step_seen. by rewrite (assoc_L (∪)).
Qed.

Lemma foldl_filter_step_sublist messages st :
  ∃ added,
    (foldl filter_step st messages).2 = st.2 ++ added ∧
    added `sublist_of` messages.
Proof.
  revert st. induction messages as [|message messages IH]; intros st.
  - exists []. cbn. by rewrite app_nil_r.
  - cbn [foldl]. destruct (IH (filter_step st message)) as (added & -> & Hsub).
    destruct st as [self new_messages]. unfold filter_step.
    case_decide.
    + exists (message :: added). cbn [snd]. rewrite <- app_assoc.
      split; [done|]. by apply sublist_skip.
    + exists added. split; [done|]. by apply sublist_cons.
Qed.

Lemma fetch_messages_offered self result :
  match fetch_messages self result with
  | Returned (self', response) =>
      _seen_message_indexes self' =
        _seen_message_indexes self ∪ list_to_set (rm_index <$> offered result) ∧
      messages response `sublist_of` offered result
  | Raised _ => offered result = []
  end.
Proof.
  unfold fetch_messages, offered. destruct (is_error result).
  - cbn. by rewrite union_empty_r_L.
  - destruct (model_validate (content result)) as [response|]; [|done].
    pose proof (foldl_filter_step_seen (messages response) (self, [])) as Hseen.
    destruct (foldl_filter_step_sublist (messages response) (self, []))
      as (added & Hadd & Hsub).
    destruct (foldl filter_step (self, []) (messages response))
      as [self' new_messages].
    cbn [fst snd messages app] in *. by subst.
Qed.

Lemma poll_offered results self :
  _seen_message_indexes (poll self results).1 =
    _seen_message_indexes self ∪
    list_to_set (rm_index <$> (results ≫= offered)) ∧
  Forall2 (λ delivered result, delivered `sublist_of` offered result)
    (poll self results).2 results.
Proof.
  revert self. induction results as [|result results IH]; intros self.
  - cbn. by rewrite union_empty_r_L.
  - cbn [poll mbind list_bind].
    pose proof (fetch_messages_offered self result) as Hf.
    destruct (fetch_messages self result) as [[self' response]|e].
    + destruct Hf as [Hseen Hsub]. destruct (IH self') as [IHseen IHsub].
      destruct (poll self' results) as [final delivered]. cbn [fst snd] in *.
      split; [|by constructor].
      rewrite IHseen, Hseen, fmap_app, list_to_set_app_L.
      by rewrite (assoc_L (∪)).
    + destruct (IH self) as [IHseen IHsub].
      destruct (poll self results) as [final delivered]. cbn [fst snd] in *.
      rewrite Hf. split; [done|]. constructor; [apply sublist_nil_l|done].
Qed.

(** X19: polling loses nothing.  Over any run of polls, an index is
    delivered by some poll exactly when some response that was no error and
    validated offered a message with that index; and each poll delivers a
    sub-list, in the response's order, of the messages its own response
    offered (nothing for an error or a response that does not validate). *)
Theorem poll_delivers_every_offered_index
  (results : list ActionExecutionResult) :
  let '(final, delivered) := poll init results in
  (∀ i, i ∈ rm_index <$> concat delivered ↔
        i ∈ rm_index <$> (results ≫= offered)) ∧
  Forall2 (λ messages result, messages `sublist_of` offered result)
    delivered results.
Proof.
  pose proof (poll_tracks results init [] tracks_init) as (_ & Hseen & _).
  destruct (poll_offered results init) as [Hoffered Hsub].
  destruct (poll init results) as [final delivered]. cbn [fst snd app] in *.
  split; [|done]. intros i.
  rewrite Hseen in Hoffered. cbn [init _seen_message_indexes] in Hoffered.
  rewrite union_empty_l_L in Hoffered.
  by rewrite <- (elem_of_list_to_set (C := gset Z)), Hoffered,
    elem_of_list_to_set.
Qed.

End PollingFacts.

(** ** The totals of the proposal audit *)

Module AuditTotalsFacts.
Import Messaging Platform Audit AuditFacts.

Section AuditLoop.
Variable self : MarketplaceAudit.
Variable logs : list LogRow.

Lemma audit_step_totals results p business customer timestamp :
  proposal_metadata self !! op_id p = Some (business, customer, timestamp) →
  let next := audit_step self logs results p in
  total_proposals next = total_proposals results ∧
  proposals_found next + proposals_missing next =
    proposals_found results + proposals_missing results + 1 ∧
  length (missing_details next) + proposals_missing results =
    length (missing_details results) + proposals_missing next ∧
  unique_customers next = unique_customers results ∪ {[customer]} ∧
  unique_businesses next = unique_businesses results ∪ {[business]} ∧
  customers_without_logs next =
    customers_without_logs results ∪
    match get_last_llm_log_for_customer logs customer with
    | Some _ => ∅
    | None => {[customer]}
    end.
Proof.
  intros Hmeta. cbv zeta. unfold audit_step. rewrite Hmeta.
  destruct (get_last_llm_log_for_customer logs customer)
    as [[llm_log llm_timestamp]|].
  - destruct (check_proposal_in_log (op_id p) llm_log); cbn;
      rewrite ?length_app, ?union_empty_r_L; cbn; split_and!; (done || lia).
  - cbn. rewrite ?length_app. cbn. split_and!; (done || lia).
Qed.

Lemma audit_totals proposals results :
  (∀ p, p ∈ proposals → is_Some (proposal_metadata self !! op_id p)) →
  let final := foldl (audit_step self logs) results proposals in
  total_proposals final = total_proposals results ∧
  proposals_found final + proposals_missing final =
    proposals_found results + proposals_missing results + length proposals ∧
  length (missing_details final) + proposals_missing results =
    length (missing_details results) + proposals_missing final ∧
  (∀ customer, customer ∈ unique_customers final ↔
     customer ∈ unique_customers results ∨
     ∃ p business timestamp, p ∈ proposals ∧
       proposal_metadata self !! op_id p
         = Some (business, customer, timestamp)) ∧
  (∀ business, business ∈ unique_businesses final ↔
     business ∈ unique_businesses results ∨
     ∃ p customer timestamp, p ∈ proposals ∧
       proposal_metadata self !! op_id p
         = Some (business, customer, timestamp)) ∧
  (∀ customer, customer ∈ customers_without_logs final ↔
     customer ∈ customers_without_logs results ∨
     (get_last_llm_log_for_customer logs customer = None ∧
      ∃ p business timestamp, p ∈ proposals ∧
        proposal_metadata self !! op_id p
          = Some (business, customer, timestamp))).
Proof.
  revert results. induction proposals as [|p proposals IH];
    intros results Hmeta; cbv zeta.
  - cbn [foldl length]. split_and!; [done|lia|lia|..];
      intros x; (split; [by left|]);
      (intros [?|Hex]; [done|]);
      [destruct Hex as (p & ? & ? & Hp & _)
      |destruct Hex as (p & ? & ? & Hp & _)
      |destruct Hex as (_ & p & ? & ? & Hp & _)];
      by apply elem_of_nil in Hp.
  - cbn [foldl length].
    destruct (Hmeta p) as [[[business customer] timestamp] Hp]; [by left|].
    destruct (audit_step_totals results p business customer timestamp Hp)
      as (Ht & Hfm & Hmd & Hc & Hb & Hw).
    destruct (IH (audit_step self logs results p))
      as (IHt & IHfm & IHmd & IHc & IHb & IHw).
    { intros q Hq. apply Hmeta. by right. }
    split_and!; [congruence|lia|lia|..].
    + intros c. rewrite IHc, Hc, elem_of_union, elem_of_singleton. split.
      * intros [[?| ->]|(q & b & ts & Hq & Hmq)]; [by left|..].
        -- right. exists p, business, timestamp. split; [by left|done].
        -- right. exists q, b, ts. split; [by right|done].
      * intros [?|(q & b & ts & [->|Hq]%elem_of_cons & Hmq)]; [by left; left|..].
        -- left; right. congruence.
        -- right. by exists q, b, ts.
    + intros b. rewrite IHb, Hb, elem_of_union, elem_of_singleton. split.
      * intros [[?| ->]|(q & c & ts & Hq & Hmq)]; [by left|..].
        -- right. exists p, customer, timestamp. split; [by left|done].
        -- right. exists q, c, ts. split; [by right|done].
      * intros [?|(q & c & ts & [->|Hq]%elem_of_cons & Hmq)]; [by left; left|..].
        -- left; right. congruence.
        -- right. by exists q, c, ts.
    + intros c. rewrite IHw, Hw, elem_of_union. split.
      * intros [[?|Hin]|(Hnone & q & b & ts & Hq & Hmq)]; [by left|..].
        -- destruct (get_last_llm_log_for_customer logs customer) eqn:Hlog;
             [by apply elem_of_empty in Hin|].
           apply elem_of_singleton in Hin as ->. right. split; [done|].
           exists p, business, timestamp. split; [by left|done].
        -- right. split; [done|]. exists q, b, ts. split; [by right|done].
      * intros [?|(Hnone & q & b & ts & [->|Hq]%elem_of_cons & Hmq)];
          [by left; left|..].
        -- left; right. assert (c = customer) as -> by congruence.
           rewrite Hnone. by apply elem_of_singleton.
        -- right. split; [done|]. by exists q, b, ts.
Qed.

End AuditLoop.

(** X20: the totals of the proposal audit add up.  Over the state the
    loader builds, [total_proposals] is the number of loaded proposals and
    equals [proposals_found] plus [proposals_missing]; [missing_details] has
    one entry per missing proposal; [unique_customers] and
    [unique_businesses] are the recipients and the senders recorded for the
    loaded proposals; and [customers_without_logs] holds exactly the
    recorded recipients who have no LLM call log, that is, for whom no row
    of the logs carries their agent id and a call log that validates. *)
Theorem audit_proposals_totals
  (isoformat : Z → string) (rows : list ActionRow) (logs : list LogRow) :
  let self := load_data isoformat rows in
  let results := audit_proposals self logs in
  total_proposals results = length (order_proposals self) ∧
  proposals_found results + proposals_missing results
    = total_proposals results ∧
  length (missing_details results) = proposals_missing results ∧
  (∀ customer, customer ∈ unique_customers results ↔
     ∃ p business timestamp, p ∈ order_proposals self ∧
       proposal_metadata self !! op_id p
         = Some (business, customer, timestamp)) ∧
  (∀ business, business ∈ unique_businesses results ↔
     ∃ p customer timestamp, p ∈ order_proposals self ∧
       proposal_metadata self !! op_id p
         = Some (business, customer, timestamp)) ∧
  (∀ customer, customer ∈ customers_without_logs results ↔
     customer ∈ unique_customers results ∧
     ∀ row, row ∈ logs → ¬ log_of customer row).
Proof.
  cbv zeta. set (self := load_data isoformat rows).
  destruct (audit_totals self logs (order_proposals self)
              {| total_proposals := length (order_proposals self);
                 proposals_found := 0; proposals_missing := 0;
                 customers_without_logs := ∅; unique_customers := ∅;
                 unique_businesses := ∅; missing_details := [] |})
    as (Ht & Hfm & Hmd & Hc & Hb & Hw).
  { intros p Hp. apply (load_data_metadata isoformat) in Hp.
    unfold recipient in Hp. by apply fmap_is_Some in Hp. }
  fold (audit_proposals self logs) in *.
  cbn [total_proposals proposals_found proposals_missing missing_details
       unique_customers unique_businesses customers_without_logs length]
    in Ht, Hfm, Hmd, Hc, Hb, Hw.
  split_and!; [exact Ht|lia|lia|..].
  - intros c. rewrite Hc. split; [intros [Hin|?]; [set_solver|done]|by right].
  - intros b. rewrite Hb. split; [intros [Hin|?]; [set_solver|done]|by right].
  - intros c. rewrite Hw, Hc, <- get_last_llm_log_None. split.
    + intros [Hin|[Hnone Hex]]; [set_solver|]. split; [by right|done].
    + intros [[Hin|Hex] Hnone]; [set_solver|]. by right.
Qed.

End AuditTotalsFacts.
